(** * Cortex: a shallow embedding of the memory engine

    The development follows the Go packages of the repository:
    - [types]  : pkg/types (Memory, Relation, SearchResult, the option structs);
    - [db]     : internal/db/sqlite.go (the SQLite-backed repository);
    - [utf8]   : what encoding/json takes from unicode/utf8 when it writes and
      reads the strings of the two JSON columns;
    - [core]   : internal/core (the Engine: Store, Recall, Get, List, Delete, ...);
    - [util], [engine] : internal/core (generateID, construction of the Engine);
    - [cli], [mcp] : the command-line helpers and the tool handlers that call
      the Engine.

    Modelling conventions.
    - A Go [string] is a [string]; the string-based enums ([TrustLevel],
      [MemoryType], [RelationType]) stay strings, as in the source, so that the
      tests against the empty string read as they are written.
    - A Go [int] is a [Z] in the signed 64-bit range, with the wrap-around of
      an arithmetic operation written out ([wrap64]).
    - A [float64] score or distance is an exact rational ([Q]): rounding is not
      modelled, the order and the arithmetic are. A [float64] that comes from
      the caller (the minimum score of a recall) is a [float64]: a rational,
      an infinity or NaN, compared as the language compares them.
    - A [float32] vector component is its 32-bit pattern (the source reads it
      through an [unsafe.Pointer] cast to [uint32]).
    - A [time.Time] is an instant, in nanoseconds since the Unix epoch, with
      the offset of its location; a TEXT timestamp column holds what survives
      [Format(time.RFC3339)] followed by [time.Parse], i.e. the instant cut to
      whole seconds, at that offset. The column is ordered as its text is.
    - A Go [string] is a sequence of bytes; the two JSON columns of a record
      keep a string as [json.Marshal] writes it and [json.Unmarshal] reads it
      back, with U+FFFD in place of each byte that is not valid UTF-8.
    - A Go value pair [(v, err)] is a pair with an [option error].
    - What the source delegates to its collaborators (the embedding provider,
      the clock, the random source, the storage engine's failures, the metric
      of the nearest-neighbour index, the full-text matcher) is gathered in an
      environment record [Env] that every operation receives explicitly. *)

From Stdlib Require Import ZArith QArith Lqa Lia Sorted Ascii.
From stdpp Require Import base gmap strings list sorting.

Local Open Scope Z_scope.

(** ** Go scalars *)

Definition error := string.

(** [int] arithmetic on a 64-bit platform: two's-complement wrap-around. *)
Definition wrap64 (z : Z) : Z := (z + 2 ^ 63) mod 2 ^ 64 - 2 ^ 63.

(** [uint32(x)] and [byte(x)]: truncating conversions. *)
Definition uint32 (x : Z) : Z := Z.land x (2 ^ 32 - 1).
Definition byte (x : Z) : Z := Z.land x 255.

(** A [float64] handed in from outside (a flag parsed by [strconv.ParseFloat],
    a field of an options struct): a number, an infinity or NaN. The
    comparisons are those of the language: [==], [<] and [>=] are false as
    soon as one operand is NaN. *)
Inductive float64 : Type :=
| Num (q : Q)
| PosInf
| NegInf
| NaN.

Module Float64.

(** [x == y] *)
Definition eqb (x y : float64) : bool :=
  match x, y with
  | Num a, Num b => Qeq_bool a b
  | PosInf, PosInf | NegInf, NegInf => true
  | _, _ => false
  end.

(** [x < y] *)
Definition ltb (x y : float64) : bool :=
  match x, y with
  | Num a, Num b => negb (Qle_bool b a)
  | NegInf, Num _ | NegInf, PosInf | Num _, PosInf => true
  | _, _ => false
  end.

(** [x >= y] *)
Definition geb (x y : float64) : bool :=
  match x, y with
  | Num a, Num b => Qle_bool b a
  | PosInf, Num _ | PosInf, PosInf | PosInf, NegInf | Num _, NegInf | NegInf, NegInf => true
  | _, _ => false
  end.

End Float64.
Arguments Float64.eqb !x !y / : simpl nomatch.
Arguments Float64.ltb !x !y / : simpl nomatch.
Arguments Float64.geb !x !y / : simpl nomatch.

(** A [float32] as its bit pattern. *)
Definition float32 := Z.
Definition is_float32 (f : float32) : Prop := 0 <= f < 2 ^ 32.

(** [time.Time]: an instant, in nanoseconds since the Unix epoch, and the
    offset of the instant's location, in minutes east of UTC (the offsets of
    the time zones in use are whole minutes). [time.Now] reads both from the
    clock and the local zone of the process. *)
Record Time := { unixNano : Z; zone : Z }.

(** What a TEXT column keeps of a time: [Format(time.RFC3339)] writes the
    wall-clock second at the offset, followed by the offset, and [time.Parse]
    reads back the start of that second, at that offset. *)
Definition RFC3339 (t : Time) : Time :=
  {| unixNano := unixNano t / 10 ^ 9 * 10 ^ 9; zone := zone t |}.

(** The order of the texts that [Format(time.RFC3339)] writes, which is
    the order SQLite gives a TEXT column. A text is the wall-clock date and
    time at the offset, [2006-01-02T15:04:05], nineteen characters of fixed
    width (for the years 0000 to 9999), followed by the zone: [Z] for the
    offset zero, [+hh:mm] or [-hh:mm] otherwise. Two texts compare as their
    wall-clock seconds do and, on a tie, as their zones: [+] (0x2B) sorts
    before [-] (0x2D), which sorts before [Z] (0x5A), and two offsets of one
    sign sort as their magnitudes. [stampKey] is an integer that orders as
    the text does, for offsets of less than a day. *)
Definition wallClock (t : Time) : Z := unixNano t / 10 ^ 9 + 60 * zone t.

Definition zoneRank (z : Z) : Z :=
  if z =? 0 then 2880 else if 0 <? z then z else 1440 - z.

Definition stampKey (t : Time) : Z := wallClock t * 4096 + zoneRank (zone t).

(** A function that either returns or panics. *)
Inductive outcome (A : Type) : Type :=
| Returns (a : A)
| Panics (msg : string).
Arguments Returns {A} a.
Arguments Panics {A} msg.

(** ** pkg/types *)

Module types.

Definition TrustLevel := string.
Definition TrustProposed : TrustLevel := "proposed".
Definition TrustValidated : TrustLevel := "validated".
Definition TrustProven : TrustLevel := "proven".
Definition TrustDisputed : TrustLevel := "disputed".
Definition TrustObsolete : TrustLevel := "obsolete".

Definition MemoryType := string.
Definition TypeGeneral : MemoryType := "general".
Definition TypeError : MemoryType := "error".
Definition TypePattern : MemoryType := "pattern".
Definition TypeDecision : MemoryType := "decision".
Definition TypeContext : MemoryType := "context".
Definition TypeProcedure : MemoryType := "procedure".

Definition RelationType := string.
Definition RelCauses : RelationType := "causes".
Definition RelSolves : RelationType := "solves".
Definition RelReplaces : RelationType := "replaces".
Definition RelRequires : RelationType := "requires".
Definition RelRelatedTo : RelationType := "related_to".
Definition RelPartOf : RelationType := "part_of".
Definition RelContradicts : RelationType := "contradicts".

Module Metadata.
Record t := mk {
  Source : string;
  Project : string;
  Author : string;
  ExtraData : gmap string string
}.
Definition zero : t := mk "" "" "" ∅.
End Metadata.

(** [Tags] is a slice: [None] is the nil slice, [Some l] a non-nil one. *)
Module Memory.
Record t := mk {
  ID : string;
  Content : string;
  Type_ : MemoryType;
  TopicKey : string;
  Tags : option (list string);
  Trust : TrustLevel;
  Metadata : Metadata.t;
  CreatedAt : Time;
  UpdatedAt : Time;
  AccessCnt : Z
}.
End Memory.

Module Relation.
Record t := mk {
  ID : string;
  FromID : string;
  ToID : string;
  Type_ : RelationType;
  Note : string;
  CreatedAt : Time
}.
End Relation.

Module SearchResult.
Record t := mk {
  Memory : Memory.t;
  Score : Q;
  MatchType : string
}.
End SearchResult.

Module StoreOptions.
Record t := mk {
  TopicKey : string;
  Tags : option (list string);
  Type_ : MemoryType;
  Trust : TrustLevel;
  Project : string;
  Source : string;
  ExtraData : gmap string string
}.
End StoreOptions.

Module RecallOptions.
Record t := mk {
  Limit : Z;
  MinScore : float64;
  Types : list MemoryType;
  Tags : option (list string);
  TrustLevels : list TrustLevel;
  Project : string;
  TopicKey : string
}.
End RecallOptions.

End types.
Import types.

(** ** The collaborators of a call *)

(** The SQL statements the repository issues, with the arguments that
    identify them; the environment says which of them the storage engine
    fails. *)
Inductive Stmt : Type :=
| UpsertMemory (id : string)
| SelectMemory (id : string)
| SelectMemoryByTopicKey (topicKey : string)
| SelectMemories
| DeleteMemories (id : string)
| UpdateAccessCount (id : string)
| UpdateTrustStmt (id : string)
| InsertRelation (id : string)
| SelectRelationsFrom (id : string)
| SelectRelationsTo (id : string)
| UpsertEmbedding (memoryID : string)
| SelectEmbedding (memoryID : string)
| DeleteVec (memoryID : string)
| InsertVec (memoryID : string)
| KnnMatch (k : Z)
| FtsMatch (query : string) (limit : Z).

Record Env := {
  (** core.timeNow: the successive readings of the clock during the call *)
  timeNow : nat -> Time;
  (** time.Now, as read by the db package *)
  time_Now : Time;
  (** core.generateID: the token drawn from the random source *)
  generateID : string;
  (** embeddings.Provider *)
  Embed : string -> list float32 * option error;
  Model : string;
  (** the storage engine: the statements that fail, with their error *)
  failure : Stmt -> option error;
  (** the vec0 index: the L2 distance it reports between two vectors *)
  distance : list float32 -> list float32 -> Q;
  (** the fts5 index: whether a row matches a query, and its rank *)
  ftsMatch : string -> Memory.t -> bool;
  ftsRank : string -> Memory.t -> Q;
  (** the engine's LIKE operator: pattern, then text *)
  sqlLike : string -> string -> bool
}.

(** ** unicode/utf8, as encoding/json uses it *)

Module utf8.

(** A Go string is any sequence of bytes. *)
Definition byteOf (c : Ascii.ascii) : Z := Z.of_N (Ascii.N_of_ascii c).

(** The table [first], with the accept range of the second byte: what the
    first byte of a sequence announces. C0, C1 and F5 to FF start nothing;
    E0, ED, F0 and F4 narrow the range of the byte that follows. *)
Inductive Lead : Type :=
| Single
| Sequence (size : nat) (lo hi : Z)
| Invalid.

Definition first (c : Ascii.ascii) : Lead :=
  let b := byteOf c in
  if b <? 128 then Single
  else if b <? 194 then Invalid
  else if b <? 224 then Sequence 2 128 191
  else if b =? 224 then Sequence 3 160 191
  else if b =? 237 then Sequence 3 128 159
  else if b <? 240 then Sequence 3 128 191
  else if b =? 240 then Sequence 4 144 191
  else if b <? 244 then Sequence 4 128 191
  else if b =? 244 then Sequence 4 128 143
  else Invalid.

Definition within (lo hi : Z) (c : Ascii.ascii) : bool :=
  (lo <=? byteOf c) && (byteOf c <=? hi).

(** A continuation byte: 80 to BF. *)
Definition continuation (c : Ascii.ascii) : bool := within 128 191 c.

(** U+FFFD in UTF-8: EF BF BD. *)
Definition RuneError : string :=
  String (Ascii.ascii_of_nat 239) (String (Ascii.ascii_of_nat 191)
    (String (Ascii.ascii_of_nat 189) EmptyString)).

End utf8.

(** ** internal/db/sqlite.go *)

Module db.
Import utf8.

(** A row of the [embeddings] cache table. *)
Record EmbeddingRow := {
  emb_memory_id : string;
  emb_embedding : list Z;        (* BLOB *)
  emb_model : string;
  emb_created_at : Time
}.

(** The open database: the connection's foreign-key switch and the tables.
    A [memories] row is kept with its columns decoded, in rowid order: the
    [tags] and [metadata] columns as the strings of their JSON text, the two
    stamps as the time their text denotes. The [fts_memories] index is an external-content
    table over [memories] that the three triggers of the schema keep equal
    to it, so a full-text query reads [memories]. [vec_memories] is the
    vec0 virtual table: it has no foreign key and no trigger. *)
Record DB := {
  foreign_keys : bool;
  memories : list Memory.t;
  relations : list Relation.t;
  embeddings : list EmbeddingRow;
  vec_memories : list (string * list float32)
}.

(** The parameters [New] appends to the path of the database file. *)
Definition dsnParams : list (string * string) :=
  [("_journal_mode", "WAL"); ("_busy_timeout", "5000")]%string.

Definition dsnLookup (key : string) (params : list (string * string)) : option string :=
  snd <$> List.find (fun p => String.eqb (fst p) key) params.

(** The driver turns foreign-key enforcement on only when the connection
    string asks for it ([_foreign_keys] or [_fk]); SQLite's own default,
    which the build (tag [fts5] only) leaves alone, is off. *)
Definition foreignKeysOf (params : list (string * string)) : bool :=
  match dsnLookup "_foreign_keys" params, dsnLookup "_fk" params with
  | Some v, _ | None, Some v =>
      existsb (String.eqb v) ["1"; "yes"; "true"; "on"]%string
  | None, None => false
  end.

(** [New], when it succeeds on a file that does not exist yet: the connection
    is opened on [path + "?_journal_mode=WAL&_busy_timeout=5000"] and
    [migrate] creates the empty tables. *)
Definition New (path : string) : DB :=
  {| foreign_keys := foreignKeysOf dsnParams;
     memories := []; relations := []; embeddings := []; vec_memories := [] |}.

Definition set_memories (d : DB) (ms : list Memory.t) : DB :=
  {| foreign_keys := foreign_keys d; memories := ms; relations := relations d;
     embeddings := embeddings d; vec_memories := vec_memories d |}.

(** *** The JSON columns *)

(** [tags] and [metadata] are written with [json.Marshal] and read with
    [json.Unmarshal]. The encoder writes each byte of a string that does not
    start a valid UTF-8 sequence as [\ufffd], and the decoder reads such a
    byte as U+FFFD too. Every other escape the encoder writes is read back as
    the bytes it stands for. *)

(** A string after one passage through JSON: [utf8.DecodeRuneInString] at
    each position, one byte replaced and skipped where it reports
    [(RuneError, 1)]. *)
Fixpoint jsonString (s : string) : string :=
  match s with
  | EmptyString => EmptyString
  | String c0 t0 =>
      match first c0, t0 with
      | Single, _ => String c0 (jsonString t0)
      | Sequence 2 lo hi, String c1 t1 =>
          if within lo hi c1
          then String c0 (String c1 (jsonString t1))
          else RuneError +:+ jsonString t0
      | Sequence 3 lo hi, String c1 (String c2 t2) =>
          if within lo hi c1 && continuation c2
          then String c0 (String c1 (String c2 (jsonString t2)))
          else RuneError +:+ jsonString t0
      | Sequence 4 lo hi, String c1 (String c2 (String c3 t3)) =>
          if within lo hi c1 && continuation c2 && continuation c3
          then String c0 (String c1 (String c2 (String c3 (jsonString t3))))
          else RuneError +:+ jsonString t0
      | _, _ => RuneError +:+ jsonString t0
      end
  end.

(** A slice of strings: [null] for the nil slice, an array otherwise. *)
Definition jsonTags (tags : option (list string)) : option (list string) :=
  map jsonString <$> tags.

(** A [map[string]string]: the encoder writes the entries in the byte order
    of their keys; the decoder sets them one after the other, so that of two
    keys that have become equal the later one stays. *)
Fixpoint insertKey (kv : string * string) (l : list (string * string))
  : list (string * string) :=
  match l with
  | [] => [kv]
  | x :: l' => if String.leb (fst kv) (fst x) then kv :: l else x :: insertKey kv l'
  end.

Definition sortKeys (l : list (string * string)) : list (string * string) :=
  fold_right insertKey [] l.

Definition jsonEntry (acc : gmap string string) (kv : string * string) : gmap string string :=
  <[jsonString (fst kv) := jsonString (snd kv)]> acc.

Definition jsonObject (m : gmap string string) : gmap string string :=
  fold_left jsonEntry (sortKeys (map_to_list m)) ∅.

(** The [Metadata] struct: three strings and a map, each left out of the
    text when empty and then read back empty. *)
Definition jsonMetadata (m : Metadata.t) : Metadata.t :=
  Metadata.mk (jsonString (Metadata.Source m)) (jsonString (Metadata.Project m))
    (jsonString (Metadata.Author m)) (jsonObject (Metadata.ExtraData m)).

(** *** SaveMemory *)

(** The row an INSERT writes: the tags and the metadata go through
    [json.Marshal], the two timestamps through [Format(time.RFC3339)]. *)
Definition insertedRow (m : Memory.t) : Memory.t :=
  Memory.mk (Memory.ID m) (Memory.Content m) (Memory.Type_ m) (Memory.TopicKey m)
    (jsonTags (Memory.Tags m)) (Memory.Trust m) (jsonMetadata (Memory.Metadata m))
    (RFC3339 (Memory.CreatedAt m)) (RFC3339 (Memory.UpdatedAt m)) (Memory.AccessCnt m).

(** ON CONFLICT(id) DO UPDATE SET: every column but [id] and [created_at]. *)
Definition conflictRow (old m : Memory.t) : Memory.t :=
  Memory.mk (Memory.ID old) (Memory.Content m) (Memory.Type_ m) (Memory.TopicKey m)
    (jsonTags (Memory.Tags m)) (Memory.Trust m) (jsonMetadata (Memory.Metadata m))
    (Memory.CreatedAt old) (RFC3339 (Memory.UpdatedAt m)) (Memory.AccessCnt m).

Fixpoint upsertMemory (m : Memory.t) (rows : list Memory.t) : list Memory.t :=
  match rows with
  | [] => [insertedRow m]
  | r :: rest =>
      if String.eqb (Memory.ID r) (Memory.ID m)
      then conflictRow r m :: rest
      else r :: upsertMemory m rest
  end.

Definition SaveMemory (env : Env) (d : DB) (m : Memory.t) : option error * DB :=
  match failure env (UpsertMemory (Memory.ID m)) with
  | Some e => (Some e, d)
  | None => (None, set_memories d (upsertMemory m (memories d)))
  end.

(** *** GetMemory, GetMemoryByTopicKey *)

(** [scanMemory]: the columns of a row, the tags and the metadata through
    [json.Unmarshal]. *)
Definition scanMemory (r : Memory.t) : Memory.t :=
  Memory.mk (Memory.ID r) (Memory.Content r) (Memory.Type_ r) (Memory.TopicKey r)
    (jsonTags (Memory.Tags r)) (Memory.Trust r) (jsonMetadata (Memory.Metadata r))
    (Memory.CreatedAt r) (Memory.UpdatedAt r) (Memory.AccessCnt r).

(** The row under an id, if any. *)
Definition findRow (id : string) (rows : list Memory.t) : option Memory.t :=
  List.find (fun r => String.eqb (Memory.ID r) id) rows.

(** SELECT ... FROM memories WHERE id = ?, read by [scanMemory]. *)
Definition findMemory (id : string) (rows : list Memory.t) : option Memory.t :=
  scanMemory <$> findRow id rows.

Definition GetMemory (env : Env) (d : DB) (id : string) : option Memory.t * option error :=
  match failure env (SelectMemory id) with
  | Some e => (None, Some e)
  | None => (findMemory id (memories d), None)
  end.

(** The key of ORDER BY updated_at: the column is TEXT, so the rows are
    ordered as the texts of their stamps. *)
Definition updatedAtKey (r : Memory.t) : Z := stampKey (Memory.UpdatedAt r).

(** ORDER BY updated_at DESC LIMIT 1 over the rows given: the row whose
    stamp is the greatest text, the earliest row winning a tie. *)
Fixpoint newest (rows : list Memory.t) : option Memory.t :=
  match rows with
  | [] => None
  | r :: rest =>
      match newest rest with
      | Some r' => if updatedAtKey r <? updatedAtKey r' then Some r' else Some r
      | None => Some r
      end
  end.

Definition withTopicKey (topicKey : string) (rows : list Memory.t) : list Memory.t :=
  List.filter (fun r => String.eqb (Memory.TopicKey r) topicKey) rows.

Definition GetMemoryByTopicKey (env : Env) (d : DB) (topicKey : string)
  : option Memory.t * option error :=
  match failure env (SelectMemoryByTopicKey topicKey) with
  | Some e => (None, Some e)
  | None => (scanMemory <$> newest (withTopicKey topicKey (memories d)), None)
  end.

(** *** ListMemories *)

(** Stable insertion sort, descending on a key in [Z]. *)
Fixpoint insertDesc {A} (key : A -> Z) (x : A) (l : list A) : list A :=
  match l with
  | [] => [x]
  | y :: l' => if key x <? key y then y :: insertDesc key x l' else x :: l
  end.

Definition sortDesc {A} (key : A -> Z) (l : list A) : list A :=
  fold_right (insertDesc key) [] l.

(** The WHERE clause [ListMemories] assembles: one condition per filter
    that is set, joined by AND. The conditions are evaluated on the columns
    as stored ([json_extract] reads the [metadata] text). *)
Definition listCondition (env : Env) (opts : RecallOptions.t) (r : Memory.t) : bool :=
  (match RecallOptions.Types opts with
   | [] => true
   | ts => existsb (String.eqb (Memory.Type_ r)) ts
   end)
  && (match RecallOptions.TrustLevels opts with
      | [] => true
      | ts => existsb (String.eqb (Memory.Trust r)) ts
      end)
  && (if String.eqb (RecallOptions.Project opts) "" then true
      else String.eqb (Metadata.Project (Memory.Metadata r)) (RecallOptions.Project opts))
  && (if String.eqb (RecallOptions.TopicKey opts) "" then true
      else sqlLike env (RecallOptions.TopicKey opts +:+ "%") (Memory.TopicKey r)).

Definition ListMemories (env : Env) (d : DB) (opts : RecallOptions.t)
  : list Memory.t * option error :=
  match failure env SelectMemories with
  | Some e => ([], Some e)
  | None =>
      let rows := sortDesc updatedAtKey (List.filter (listCondition env opts) (memories d)) in
      (map scanMemory (if 0 <? RecallOptions.Limit opts
                       then take (Z.to_nat (RecallOptions.Limit opts)) rows
                       else rows), None)
  end.

(** *** DeleteMemory, IncrementAccessCount, UpdateTrust *)

Definition idIsNot (id : string) (s : string) : bool := negb (String.eqb s id).

(** DELETE FROM memories WHERE id = ?. The ON DELETE CASCADE clauses of
    [relations] and [embeddings] act, for a parent row that is deleted, only
    on a connection that enforces foreign keys. *)
Definition DeleteMemory (env : Env) (d : DB) (id : string) : option error * DB :=
  match failure env (DeleteMemories id) with
  | Some e => (Some e, d)
  | None =>
      let ms := List.filter (fun r => idIsNot id (Memory.ID r)) (memories d) in
      if foreign_keys d && existsb (fun r => String.eqb (Memory.ID r) id) (memories d)
      then (None,
            {| foreign_keys := foreign_keys d; memories := ms;
               relations := List.filter (fun r => idIsNot id (Relation.FromID r)
                                                  && idIsNot id (Relation.ToID r))
                                        (relations d);
               embeddings := List.filter (fun r => idIsNot id (emb_memory_id r)) (embeddings d);
               vec_memories := vec_memories d |})
      else (None, set_memories d ms)
  end.

Definition bumpAccess (id : string) (r : Memory.t) : Memory.t :=
  if String.eqb (Memory.ID r) id
  then Memory.mk (Memory.ID r) (Memory.Content r) (Memory.Type_ r) (Memory.TopicKey r)
         (Memory.Tags r) (Memory.Trust r) (Memory.Metadata r)
         (Memory.CreatedAt r) (Memory.UpdatedAt r) (Memory.AccessCnt r + 1)
  else r.

Definition IncrementAccessCount (env : Env) (d : DB) (id : string) : option error * DB :=
  match failure env (UpdateAccessCount id) with
  | Some e => (Some e, d)
  | None => (None, set_memories d (map (bumpAccess id) (memories d)))
  end.

Definition setTrust (env : Env) (id : string) (trust : TrustLevel) (r : Memory.t) : Memory.t :=
  if String.eqb (Memory.ID r) id
  then Memory.mk (Memory.ID r) (Memory.Content r) (Memory.Type_ r) (Memory.TopicKey r)
         (Memory.Tags r) trust (Memory.Metadata r)
         (Memory.CreatedAt r) (RFC3339 (time_Now env)) (Memory.AccessCnt r)
  else r.

Definition UpdateTrust (env : Env) (d : DB) (id : string) (trust : TrustLevel)
  : option error * DB :=
  match failure env (UpdateTrustStmt id) with
  | Some e => (Some e, d)
  | None => (None, set_memories d (map (setTrust env id trust) (memories d)))
  end.

(** *** Relations *)

Definition hasMemory (d : DB) (id : string) : bool :=
  existsb (fun r => String.eqb (Memory.ID r) id) (memories d).

Definition storedRelation (r : Relation.t) : Relation.t :=
  Relation.mk (Relation.ID r) (Relation.FromID r) (Relation.ToID r) (Relation.Type_ r)
    (Relation.Note r) (RFC3339 (Relation.CreatedAt r)).

Definition SaveRelation (env : Env) (d : DB) (r : Relation.t) : option error * DB :=
  match failure env (InsertRelation (Relation.ID r)) with
  | Some e => (Some e, d)
  | None =>
      if existsb (fun x => String.eqb (Relation.ID x) (Relation.ID r)) (relations d)
      then (Some "UNIQUE constraint failed: relations.id", d)
      else if foreign_keys d
              && negb (hasMemory d (Relation.FromID r) && hasMemory d (Relation.ToID r))
      then (Some "FOREIGN KEY constraint failed", d)
      else (None,
            {| foreign_keys := foreign_keys d; memories := memories d;
               relations := relations d ++ [storedRelation r];
               embeddings := embeddings d; vec_memories := vec_memories d |})
  end.

Definition GetRelationsFrom (env : Env) (d : DB) (memoryID : string)
  : list Relation.t * option error :=
  match failure env (SelectRelationsFrom memoryID) with
  | Some e => ([], Some e)
  | None => (List.filter (fun r => String.eqb (Relation.FromID r) memoryID) (relations d), None)
  end.

Definition GetRelationsTo (env : Env) (d : DB) (memoryID : string)
  : list Relation.t * option error :=
  match failure env (SelectRelationsTo memoryID) with
  | Some e => ([], Some e)
  | None => (List.filter (fun r => String.eqb (Relation.ToID r) memoryID) (relations d), None)
  end.

(** *** Embedding serialization *)

(** [bytes[i*4+k] = byte(bits >> 8k)] for the [i]-th float. *)
Definition float32ToBytes (floats : list float32) : list Z :=
  flat_map (fun bits => [byte bits; byte (Z.shiftr bits 8);
                         byte (Z.shiftr bits 16); byte (Z.shiftr bits 24)]) floats.

(** [bytes[n]]; every index the loop below reads is in range. *)
Definition at_ (bytes : list Z) (n : nat) : Z := default 0 (bytes !! n).

Definition wordAt (bytes : list Z) (i : nat) : float32 :=
  Z.lor (Z.lor (Z.lor (uint32 (at_ bytes (i * 4)))
                      (uint32 (Z.shiftl (uint32 (at_ bytes (i * 4 + 1))) 8)))
               (uint32 (Z.shiftl (uint32 (at_ bytes (i * 4 + 2))) 16)))
        (uint32 (Z.shiftl (uint32 (at_ bytes (i * 4 + 3))) 24)).

Definition bytesToFloat32 (bytes : list Z) : list float32 :=
  map (wordAt bytes) (seq 0 (length bytes / 4)%nat).

(** *** SaveEmbedding, GetEmbedding *)

Fixpoint upsertEmbedding (row : EmbeddingRow) (rows : list EmbeddingRow) : list EmbeddingRow :=
  match rows with
  | [] => [row]
  | r :: rest =>
      if String.eqb (emb_memory_id r) (emb_memory_id row)
      then row :: rest
      else r :: upsertEmbedding row rest
  end.

Definition set_embeddings (d : DB) (es : list EmbeddingRow) : DB :=
  {| foreign_keys := foreign_keys d; memories := memories d; relations := relations d;
     embeddings := es; vec_memories := vec_memories d |}.

Definition set_vec_memories (d : DB) (vs : list (string * list float32)) : DB :=
  {| foreign_keys := foreign_keys d; memories := memories d; relations := relations d;
     embeddings := embeddings d; vec_memories := vs |}.

(** DELETE FROM vec_memories WHERE memory_id = ?: the result is dropped. *)
Definition deleteVec (env : Env) (d : DB) (memoryID : string) : DB :=
  match failure env (DeleteVec memoryID) with
  | Some _ => d
  | None => set_vec_memories d
              (List.filter (fun p => idIsNot memoryID (fst p)) (vec_memories d))
  end.

Definition insertVec (env : Env) (d : DB) (memoryID : string) (v : list float32)
  : option error * DB :=
  match failure env (InsertVec memoryID) with
  | Some e => (Some e, d)
  | None =>
      if existsb (fun p => String.eqb (fst p) memoryID) (vec_memories d)
      then (Some "UNIQUE constraint failed on vec_memories primary key", d)
      else (None, set_vec_memories d (vec_memories d ++ [(memoryID, v)]))
  end.

Definition SaveEmbedding (env : Env) (d : DB) (memoryID : string)
    (embedding : list float32) (model : string) : option error * DB :=
  let embBytes := float32ToBytes embedding in
  match failure env (UpsertEmbedding memoryID) with
  | Some e => (Some e, d)
  | None =>
      if foreign_keys d && negb (hasMemory d memoryID)
      then (Some "FOREIGN KEY constraint failed", d)
      else
        let d1 := set_embeddings d
                    (upsertEmbedding
                       {| emb_memory_id := memoryID; emb_embedding := embBytes;
                          emb_model := model; emb_created_at := RFC3339 (time_Now env) |}
                       (embeddings d)) in
        insertVec env (deleteVec env d1 memoryID) memoryID embedding
  end.

(** [nil, nil] when there is no row. *)
Definition GetEmbedding (env : Env) (d : DB) (memoryID : string)
  : option (list float32) * option error :=
  match failure env (SelectEmbedding memoryID) with
  | Some e => (None, Some e)
  | None =>
      match List.find (fun r => String.eqb (emb_memory_id r) memoryID) (embeddings d) with
      | Some r => (Some (bytesToFloat32 (emb_embedding r)), None)
      | None => (None, None)
      end
  end.

(** *** VectorSearch, FTSSearch *)

(** Stable insertion sort, ascending on a key in [Q]. *)
Fixpoint insertAsc {A} (key : A -> Q) (x : A) (l : list A) : list A :=
  match l with
  | [] => [x]
  | y :: l' => if Qle_bool (key x) (key y) then x :: l else y :: insertAsc key x l'
  end.

Definition sortAsc {A} (key : A -> Q) (l : list A) : list A :=
  fold_right (insertAsc key) [] l.

Record VecHit := { MemoryID : string; Distance : Q }.

(** SELECT memory_id, distance FROM vec_memories WHERE embedding MATCH ?
    AND k = ?: the [k] rows nearest to the query, nearest first. The two
    parameters are the query vector and the limit; nothing in the query
    looks at the [memories] table. What the index refuses (a vector of the
    wrong dimension, a [k] it does not accept) is among the failures the
    environment decides. *)
Definition VectorSearch (env : Env) (d : DB) (queryEmb : list float32) (limit : Z)
  : list VecHit * option error :=
  match failure env (KnnMatch limit) with
  | Some e => ([], Some e)
  | None =>
      (take (Z.to_nat limit)
         (sortAsc Distance
            (map (fun p => {| MemoryID := fst p; Distance := distance env queryEmb (snd p) |})
                 (vec_memories d))),
       None)
  end.

(** SELECT m.id FROM fts_memories f JOIN memories m ... WHERE fts_memories
    MATCH ? ORDER BY rank LIMIT ?; a negative LIMIT is no limit. *)
Definition FTSSearch (env : Env) (d : DB) (query : string) (limit : Z)
  : list string * option error :=
  match failure env (FtsMatch query limit) with
  | Some e => ([], Some e)
  | None =>
      let hits := sortAsc (ftsRank env query) (List.filter (ftsMatch env query) (memories d)) in
      (map Memory.ID (if limit <? 0 then hits else take (Z.to_nat limit) hits), None)
  end.

(** *** Stats *)

(** The three COUNT queries of [Stats]. *)
Inductive CountQuery : Type := CountMemories | CountRelations | CountEmbeddings.

(** [Stats]. Each count is read with [QueryRow(...).Scan(&count)] into the
    one variable [count], and the result of [Scan] is dropped: a query that
    fails leaves [count] as the query before it set it. [failing] says which
    of the queries the storage engine fails. *)
Definition Stats (failing : CountQuery -> bool) (d : DB) : gmap string Z * option error :=
  let count := 0 in
  let count := if failing CountMemories then count else Z.of_nat (length (memories d)) in
  let stats := <["memories" := count]> (∅ : gmap string Z) in
  let count := if failing CountRelations then count else Z.of_nat (length (relations d)) in
  let stats := <["relations" := count]> stats in
  let count := if failing CountEmbeddings then count else Z.of_nat (length (embeddings d)) in
  let stats := <["embeddings" := count]> stats in
  (stats, None).

End db.

(** ** internal/core: the Engine *)

Module core.
Import db.

(** [x < y] on scores. *)
Definition Qltb (x y : Q) : bool := negb (Qle_bool y x).

(** *** Store *)

(** The branch of [Store] taken when the topic key finds a record. *)
Definition evolve (env : Env) (existing : Memory.t) (content : string)
    (opts : StoreOptions.t) : Memory.t :=
  Memory.mk (Memory.ID existing) content
    (if String.eqb (StoreOptions.Type_ opts) "" then Memory.Type_ existing
     else StoreOptions.Type_ opts)
    (Memory.TopicKey existing)
    (match StoreOptions.Tags opts with
     | Some tags => Some tags
     | None => Memory.Tags existing
     end)
    (if String.eqb (StoreOptions.Trust opts) "" then Memory.Trust existing
     else StoreOptions.Trust opts)
    (Memory.Metadata existing)
    (Memory.CreatedAt existing) (timeNow env 0) (Memory.AccessCnt existing).

(** The branch of [Store] that creates a record, defaults included. *)
Definition create (env : Env) (content : string) (opts : StoreOptions.t) : Memory.t :=
  Memory.mk (generateID env) content
    (if String.eqb (StoreOptions.Type_ opts) "" then TypeGeneral else StoreOptions.Type_ opts)
    (StoreOptions.TopicKey opts)
    (StoreOptions.Tags opts)
    (if String.eqb (StoreOptions.Trust opts) "" then TrustProposed else StoreOptions.Trust opts)
    (Metadata.mk (StoreOptions.Source opts) (StoreOptions.Project opts) ""
                 (StoreOptions.ExtraData opts))
    (timeNow env 0) (timeNow env 1) 0.

(** The lookup by topic key; its error is dropped. *)
Definition lookupExisting (env : Env) (d : DB) (opts : StoreOptions.t) : option Memory.t :=
  if String.eqb (StoreOptions.TopicKey opts) "" then None
  else fst (GetMemoryByTopicKey env d (StoreOptions.TopicKey opts)).

Definition storedMemory (env : Env) (d : DB) (content : string) (opts : StoreOptions.t)
  : Memory.t :=
  match lookupExisting env d opts with
  | Some existing => evolve env existing content opts
  | None => create env content opts
  end.

(** What [Store] hands back: the Go pair, the database afterwards, and the
    lines written to standard error. *)
Record Stored := {
  stored_memory : option Memory.t;
  stored_err : option error;
  stored_db : DB;
  stored_stderr : list string
}.

Definition Store (env : Env) (d : DB) (content : string) (opts : StoreOptions.t) : Stored :=
  let memory := storedMemory env d content opts in
  match SaveMemory env d memory with
  | (Some e, d1) => Build_Stored None (Some ("failed to save memory: " +:+ e)) d1 []
  | (None, d1) =>
      match Embed env content with
      | (_, Some e) =>
          Build_Stored (Some memory) None d1
            ["warning: failed to generate embedding: " +:+ e]
      | (embedding, None) =>
          match SaveEmbedding env d1 (Memory.ID memory) embedding (Model env) with
          | (Some e, d2) =>
              Build_Stored (Some memory) None d2
                ["warning: failed to save embedding: " +:+ e]
          | (None, d2) => Build_Stored (Some memory) None d2 []
          end
      end
  end.

(** *** Recall *)

(** The defaults set at the top of [Recall]. *)
Definition limitOf (opts : RecallOptions.t) : Z :=
  if RecallOptions.Limit opts =? 0 then 5 else RecallOptions.Limit opts.

Definition minScoreOf (opts : RecallOptions.t) : float64 :=
  if Float64.eqb (RecallOptions.MinScore opts) (Num 0) then Num (3 # 10)
  else RecallOptions.MinScore opts.

Definition trustLevelsOf (opts : RecallOptions.t) : list TrustLevel :=
  match RecallOptions.TrustLevels opts with
  | [] => [TrustValidated; TrustProven]
  | levels => levels
  end.

(** The hybrid score of a hit at distance [d]. *)
Definition semanticScore (d : Q) : Q :=
  let s := (1 - d / 2)%Q in
  if Qltb s 0 then 0%Q else s.

Definition keywordBoost (inFts : bool) : Q := if inFts then 15 # 100 else 0%Q.

Definition finalScore (d : Q) (inFts : bool) : Q :=
  (semanticScore d * (7 # 10) + keywordBoost inFts)%Q.

(** The state of the loop over the vector hits. *)
Record Loop := {
  results : list SearchResult.t;
  seen : gset string;
  loop_db : DB
}.

Definition skip (st : Loop) (id : string) : Loop :=
  {| results := results st; seen := {[id]} ∪ seen st; loop_db := loop_db st |}.

Definition recallStep (env : Env) (ftsSet : gset string) (minScore : float64)
    (st : Loop) (vr : VecHit) : Loop :=
  if bool_decide (MemoryID vr ∈ seen st) then st
  else
    match GetMemory env (loop_db st) (MemoryID vr) with
    | (Some memory, None) =>
        let score := finalScore (Distance vr) (bool_decide (MemoryID vr ∈ ftsSet)) in
        if Float64.ltb (Num score) minScore then skip st (MemoryID vr)
        else
          {| results := results st ++ [SearchResult.mk memory score "hybrid"];
             seen := {[MemoryID vr]} ∪ seen st;
             loop_db := snd (IncrementAccessCount env (loop_db st) (Memory.ID memory)) |}
    | _ => skip st (MemoryID vr)
    end.

Definition scoreHits (env : Env) (d : DB) (ftsIDs : list string) (minScore : float64)
    (vecResults : list VecHit) : Loop :=
  fold_left (recallStep env (list_to_set ftsIDs) minScore) vecResults
    {| results := []; seen := ∅; loop_db := d |}.

(** [if len(results) > opts.Limit { results = results[:opts.Limit] }]: the
    slice expression panics on a negative bound. *)
Definition limitResults (limit : Z) (rs : list SearchResult.t)
  : outcome (list SearchResult.t * option error) :=
  if limit <? Z.of_nat (length rs)
  then if limit <? 0 then Panics "slice bounds out of range"
       else Returns (take (Z.to_nat limit) rs, None)
  else Returns (rs, None).

(** [Recall]. The trust levels of the options are defaulted and written as
    a third argument at the call of [VectorSearch]; the function declared in
    the db package has the two parameters modelled above and filters on
    neither trust nor anything else of the record. *)
Definition Recall (env : Env) (d : DB) (query : string) (opts : RecallOptions.t)
  : outcome (list SearchResult.t * option error) * DB :=
  let limit := limitOf opts in
  let minScore := minScoreOf opts in
  match Embed env query with
  | (_, Some e) => (Returns ([], Some ("failed to embed query: " +:+ e)), d)
  | (queryEmb, None) =>
      match VectorSearch env d queryEmb (wrap64 (limit * 2)) with
      | (_, Some e) => (Returns ([], Some ("vector search failed: " +:+ e)), d)
      | (vecResults, None) =>
          let ftsIDs := fst (FTSSearch env d query (wrap64 (limit * 2))) in
          let st := scoreHits env d ftsIDs minScore vecResults in
          (limitResults limit (results st), loop_db st)
      end
  end.

(** *** Get, List, Delete, Validate, Relate, GetRelations *)

Definition Get (env : Env) (d : DB) (id : string) : option Memory.t * option error :=
  GetMemory env d id.

Definition List_ (env : Env) (d : DB) (opts : RecallOptions.t)
  : list Memory.t * option error :=
  ListMemories env d opts.

Definition Delete (env : Env) (d : DB) (id : string) : option error * DB :=
  DeleteMemory env d id.

Definition Validate (env : Env) (d : DB) (id : string) (trust : TrustLevel)
  : option error * DB :=
  UpdateTrust env d id trust.

Definition Relate (env : Env) (d : DB) (fromID toID : string) (relType : RelationType)
    (note : string) : (option Relation.t * option error) * DB :=
  match GetMemory env d fromID with
  | (Some _, None) =>
      match GetMemory env d toID with
      | (Some _, None) =>
          let relation := Relation.mk (generateID env) fromID toID relType note (timeNow env 0) in
          match SaveRelation env d relation with
          | (Some e, d1) => ((None, Some ("failed to save relation: " +:+ e)), d1)
          | (None, d1) => ((Some relation, None), d1)
          end
      | _ => ((None, Some ("target memory not found: " +:+ toID)), d)
      end
  | _ => ((None, Some ("source memory not found: " +:+ fromID)), d)
  end.

Definition GetRelations (env : Env) (d : DB) (memoryID : string)
  : list Relation.t * option error :=
  match GetRelationsFrom env d memoryID with
  | (_, Some e) => ([], Some e)
  | (from, None) =>
      match GetRelationsTo env d memoryID with
      | (_, Some e) => ([], Some e)
      | (to, None) => (from ++ to, None)
      end
  end.

Definition Stats (failing : CountQuery -> bool) (d : DB) : gmap string Z * option error :=
  db.Stats failing d.

End core.

(** ** Concrete collaborators, for the worked scenarios *)

Module scenario.
Import db core.

(** The database of a project that has just been initialised. *)
Definition fresh : DB := New ".cortex/cortex.db".

(** A clock a quarter of a second past a whole second, ticking one
    nanosecond per reading, [s] seconds after the reference instant, on a
    machine whose local zone is [offset] minutes east of UTC. *)
Definition clockIn (offset : Z) (s : Z) (n : nat) : Time :=
  {| unixNano := (1700000000 + s) * 10 ^ 9 + 250000000 + Z.of_nat n; zone := offset |}.

(** The same on a machine that runs in UTC. *)
Definition clock (s : Z) (n : nat) : Time := clockIn 0 s n.

(** A provider that embeds a text as the one-component vector of its
    length, and an index metric that is the gap between first components. *)
Definition embedText (text : string) : list float32 := [Z.of_nat (String.length text)].

Definition gap (a b : list float32) : Q := inject_Z (Z.abs (hd 0 a - hd 0 b)) / 4.

(** A full-text matcher that accepts the rows whose content is the query. *)
Definition sameContent (query : string) (r : Memory.t) : bool :=
  String.eqb query (Memory.Content r).

(** LIKE for the patterns [ListMemories] builds: a literal prefix, then [%]. *)
Definition likePrefix (pattern text : string) : bool :=
  String.prefix (String.substring 0 (String.length pattern - 1) pattern) text.

(** The well-behaved environment: nothing fails. The call draws the id
    [id] and runs [s] seconds after the reference instant. *)
Definition calm (id : string) (s : Z) : Env :=
  {| timeNow := clock s;
     time_Now := clock s 7;
     generateID := id;
     Embed := fun text => (embedText text, None);
     Model := "text-embedding-3-small";
     failure := fun _ => None;
     distance := gap;
     ftsMatch := sameContent;
     ftsRank := fun _ _ => 0%Q;
     sqlLike := likePrefix |}.

(** The same, with the embedding provider down. *)
Definition providerDown (id : string) (s : Z) : Env :=
  {| timeNow := clock s;
     time_Now := clock s 7;
     generateID := id;
     Embed := fun _ => ([], Some "connection refused");
     Model := "text-embedding-3-small";
     failure := fun _ => None;
     distance := gap;
     ftsMatch := sameContent;
     ftsRank := fun _ _ => 0%Q;
     sqlLike := likePrefix |}.

(** The same as [calm], with the statements selected by [broken] failing. *)
Definition faulty (broken : Stmt -> bool) (id : string) (s : Z) : Env :=
  {| timeNow := clock s;
     time_Now := clock s 7;
     generateID := id;
     Embed := fun text => (embedText text, None);
     Model := "text-embedding-3-small";
     failure := fun st => if broken st then Some "disk I/O error" else None;
     distance := gap;
     ftsMatch := sameContent;
     ftsRank := fun _ _ => 0%Q;
     sqlLike := likePrefix |}.

(** The well-behaved environment on a machine whose local zone is [offset]
    minutes east of UTC. *)
Definition calmIn (offset : Z) (id : string) (s : Z) : Env :=
  {| timeNow := clockIn offset s;
     time_Now := clockIn offset s 7;
     generateID := id;
     Embed := fun text => (embedText text, None);
     Model := "text-embedding-3-small";
     failure := fun _ => None;
     distance := gap;
     ftsMatch := sameContent;
     ftsRank := fun _ _ => 0%Q;
     sqlLike := likePrefix |}.

Definition plain (topicKey : string) : StoreOptions.t :=
  StoreOptions.mk topicKey None "" "" "" "cli" ∅.

Definition defaults : RecallOptions.t :=
  RecallOptions.mk 0 (Num 0) [] None [] "" "".

(** Two ids, as [generateID] draws them: 24 hexadecimal digits. *)
Definition id1 : string := "0f3a9c5d7e1b2a4c6d8e0f01".
Definition id2 : string := "0f3a9c5d7e1b2a4c6d8e0f02".
Definition id3 : string := "0f3a9c5d7e1b2a4c6d8e0f03".

(** store("apply fix") with no options, which leaves the record [proposed];
    a second later store("apply fix", topicKey "t/1"); then validate the
    second record. Both records have the same content, hence the same
    embedding. *)
Definition twins : DB :=
  let d1 := stored_db (Store (calm id1 0) fresh "apply fix" (plain "")) in
  let d2 := stored_db (Store (calm id2 1) d1 "apply fix" (plain "t/1")) in
  snd (Validate (calm id3 2) d2 id2 TrustValidated).

(** Two validated records and an edge from the first to the second. *)
Definition linked : DB :=
  let d1 := stored_db (Store (calm id1 0) fresh "X fails"
                         (StoreOptions.mk "" None TypeError TrustValidated "" "cli" ∅)) in
  let d2 := stored_db (Store (calm id2 1) d1 "apply fix"
                         (StoreOptions.mk "t/1" None TypePattern TrustValidated "" "cli" ∅)) in
  snd (Relate (calm id3 2) d2 id1 id2 RelSolves "").

(** Two validated records with the same content, the first of which is then
    deleted. *)
Definition afterDelete : DB :=
  let d1 := stored_db (Store (calm id1 0) fresh "apply fix"
                         (StoreOptions.mk "" None "" TrustValidated "" "cli" ∅)) in
  let d2 := stored_db (Store (calm id2 1) d1 "apply fix"
                         (StoreOptions.mk "t/1" None "" TrustValidated "" "cli" ∅)) in
  snd (Delete (calm id3 2) d2 id1).

(** The statements of the keyword search fail; those of the vector search
    fail. *)
Definition ftsBroken (st : Stmt) : bool :=
  match st with FtsMatch _ _ => true | _ => false end.

Definition knnBroken (st : Stmt) : bool :=
  match st with KnnMatch _ => true | _ => false end.


(** Two records stored forty minutes apart on a machine whose clock falls
    back by an hour in between: the first is stamped at seven hours west of
    UTC, the second, later, at eight hours west. *)
Definition fallBack : DB :=
  stored_db (Store (calmIn (-480) id2 2400)
               (stored_db (Store (calmIn (-420) id1 0) fresh "before" (plain "")))
               "after" (plain "")).

(** Two records, stored one second apart, and no edge. *)
Definition pair : DB :=
  stored_db (Store (calm id2 1)
               (stored_db (Store (calm id1 0) fresh "X fails" (plain "")))
               "apply fix" (plain "t/1")).

End scenario.

(** ** The vocabulary of the specification *)

Module spec.
Import db core.

(** Two option values that differ at most in [Tags]. *)
Definition sameButTags (o1 o2 : RecallOptions.t) : Prop :=
  RecallOptions.Limit o1 = RecallOptions.Limit o2
  /\ RecallOptions.MinScore o1 = RecallOptions.MinScore o2
  /\ RecallOptions.Types o1 = RecallOptions.Types o2
  /\ RecallOptions.TrustLevels o1 = RecallOptions.TrustLevels o2
  /\ RecallOptions.Project o1 = RecallOptions.Project o2
  /\ RecallOptions.TopicKey o1 = RecallOptions.TopicKey o2.

(** The query vector, the vector hits and the keyword hits of a recall. *)
Definition queryEmbOf (env : Env) (query : string) : list float32 := fst (Embed env query).

Definition vecHitsOf (env : Env) (d : DB) (query : string) (opts : RecallOptions.t)
  : list VecHit :=
  fst (VectorSearch env d (queryEmbOf env query) (wrap64 (limitOf opts * 2))).

Definition ftsHitsOf (env : Env) (d : DB) (query : string) (opts : RecallOptions.t)
  : list string :=
  fst (FTSSearch env d query (wrap64 (limitOf opts * 2))).



(** De-duplication of the vector hits, first occurrence kept. *)
Fixpoint firstOccurrences (seen : gset string) (hits : list VecHit) : list VecHit :=
  match hits with
  | [] => []
  | h :: rest =>
      if bool_decide (MemoryID h ∈ seen) then firstOccurrences seen rest
      else h :: firstOccurrences ({[MemoryID h]} ∪ seen) rest
  end.

(** A hit whose final score passes the threshold: it is not below it. *)
Definition passes (ftsIDs : list string) (minScore : float64) (h : VecHit) : bool :=
  negb (Float64.ltb
          (Num (finalScore (Distance h)
                  (bool_decide (MemoryID h ∈ (list_to_set ftsIDs : gset string)))))
          minScore).

(** A hit whose record [GetMemory] returns. *)
Definition fetched (env : Env) (d : DB) (h : VecHit) : bool :=
  match GetMemory env d (MemoryID h) with
  | (Some _, None) => true
  | _ => false
  end.

(** The id and score of each hit, in order. *)
Definition scored (ftsIDs : list string) (hits : list VecHit) : list (string * Q) :=
  map (fun h => (MemoryID h,
                 finalScore (Distance h) (bool_decide (MemoryID h ∈ (list_to_set ftsIDs : gset string)))))
      hits.

Definition idsAndScores (rs : list SearchResult.t) : list (string * Q) :=
  map (fun r => (Memory.ID (SearchResult.Memory r), SearchResult.Score r)) rs.

(** The sequence the specification describes: the de-duplicated hits whose
    final score passes the threshold, in vector-search order, cut to the
    limit. *)
Definition thresholded (env : Env) (d : DB) (query : string) (opts : RecallOptions.t)
  : list (string * Q) :=
  let fts := ftsHitsOf env d query opts in
  take (Z.to_nat (limitOf opts))
    (scored fts (List.filter (passes fts (minScoreOf opts))
                             (firstOccurrences ∅ (vecHitsOf env d query opts)))).

(** The same, restricted to the hits whose record is fetched. *)
Definition thresholdedFetched (env : Env) (d : DB) (query : string) (opts : RecallOptions.t)
  : list (string * Q) :=
  let fts := ftsHitsOf env d query opts in
  take (Z.to_nat (limitOf opts))
    (scored fts (List.filter (fun h => fetched env d h && passes fts (minScoreOf opts) h)
                             (firstOccurrences ∅ (vecHitsOf env d query opts)))).

(** Ascending order of the distances of a list of hits. *)
Definition ascending (hits : list VecHit) : Prop :=
  StronglySorted (fun a b => (Distance a <= Distance b)%Q) hits.

(** The number of records carrying a topic key. *)
Definition countTopicKey (topicKey : string) (d : DB) : nat :=
  length (withTopicKey topicKey (memories d)).

(** What the loop records about a result: it comes from a hit of the list
    [all], carries that hit's id and hybrid score, and passed the threshold. *)
Definition fromHit (ftsSet : gset string) (minScore : float64) (all : list VecHit)
    (r : SearchResult.t) : Prop :=
  exists h, h ∈ all
    /\ MemoryID h = Memory.ID (SearchResult.Memory r)
    /\ SearchResult.Score r = finalScore (Distance h) (bool_decide (MemoryID h ∈ ftsSet))
    /\ Float64.ltb (Num (SearchResult.Score r)) minScore = false.

(** Two databases in which [GetMemory] finds the same ids (the access-count
    updates of the loop relate the database to the one the call started
    from). *)
Definition sameRows (env : Env) (d d' : DB) : Prop :=
  forall id, fetched env d' {| MemoryID := id; Distance := 0 |}
             = fetched env d {| MemoryID := id; Distance := 0 |}.

(** An entry of a map that a passage through JSON leaves as it is. *)
Definition canonical (kv : string * string) : Prop :=
  jsonString (fst kv) = fst kv /\ jsonString (snd kv) = snd kv.

(** The row an upsert of [m] leaves under [m]'s id. *)
Definition upsertedRow (m : Memory.t) (rows : list Memory.t) : Memory.t :=
  match findMemory (Memory.ID m) rows with
  | Some old => conflictRow old m
  | None => insertedRow m
  end.

End spec.

(** ** internal/core/util.go *)

Module util.

(** [hex.EncodeToString]: two digits of ["0123456789abcdef"] per byte, the
    high one first. *)
Definition hextable : string := "0123456789abcdef".

Definition hexDigit (n : Z) : Ascii.ascii :=
  match String.get (Z.to_nat n) hextable with
  | Some c => c
  | None => "0"%char
  end.

Fixpoint EncodeToString (src : list Z) : string :=
  match src with
  | [] => EmptyString
  | v :: rest =>
      String (hexDigit (Z.shiftr (byte v) 4))
        (String (hexDigit (Z.land (byte v) 15)) (EncodeToString rest))
  end.

(** [generateID], for the 12 bytes [rand.Read] fills in. *)
Definition generateID (random : list Z) : string := EncodeToString (take 12 random).

End util.

(** ** internal/cli *)

Module cli.
Import db core.

(** [strings.ReplaceAll(s, "\n", " ")]: a Go string is its bytes. *)
Fixpoint replaceNewlines (s : string) : string :=
  match s with
  | EmptyString => EmptyString
  | String c rest =>
      String (if Ascii.eqb c (Ascii.ascii_of_nat 10) then " "%char else c)
             (replaceNewlines rest)
  end.

(** [truncate]; the slice expression [s[:maxLen-3]] panics on a negative
    bound. *)
Definition truncate (s : string) (maxLen : Z) : outcome string :=
  let s := replaceNewlines s in
  if Z.of_nat (String.length s) <=? maxLen then Returns s
  else if maxLen - 3 <? 0 then Panics "slice bounds out of range"
  else Returns (String.substring 0 (Z.to_nat (maxLen - 3)) s +:+ "...").

(** The [validLevels] map of [runValidate], as the set of its keys. *)
Definition validLevels : gset string :=
  {[ TrustProposed; TrustValidated; TrustProven; TrustDisputed; TrustObsolete ]}.

(** What a command hands back: its error, the database afterwards and the
    lines it printed. *)
Record Ran := {
  ran_err : option error;
  ran_db : DB;
  ran_stdout : list string
}.

(** [runValidate]. [args] holds one or two arguments (cobra.RangeArgs(1, 2));
    [getEngine] is the error of loading the configuration and opening the
    engine, if any, [d] the database the engine opens. *)
Definition runValidate (env : Env) (getEngine : option error) (d : DB) (args : list string)
  : outcome Ran :=
  match args with
  | [] => Panics "index out of range"
  | id :: rest =>
      let newTrust := match rest with
                      | level :: _ => level
                      | [] => TrustValidated
                      end in
      if negb (bool_decide (newTrust ∈ validLevels))
      then Returns (Build_Ran
             (Some ("invalid trust level: " +:+ newTrust +:+ "
Valid levels: proposed, validated, proven, disputed, obsolete")) d [])
      else
        match getEngine with
        | Some err => Returns (Build_Ran (Some err) d [])
        | None =>
            match Get env d id with
            | (_, Some err) => Returns (Build_Ran (Some ("failed to get memory: " +:+ err)) d [])
            | (None, None) => Returns (Build_Ran (Some ("memory not found: " +:+ id)) d [])
            | (Some memory, None) =>
                let oldTrust := Memory.Trust memory in
                match Validate env d id newTrust with
                | (Some err, d') =>
                    Returns (Build_Ran (Some ("failed to update trust: " +:+ err)) d' [])
                | (None, d') =>
                    Returns (Build_Ran None d'
                               ["✓ Updated trust: " +:+ oldTrust +:+ " → " +:+ newTrust])
                end
            end
        end
  end.

End cli.

(** ** internal/mcp: the tool handlers *)

Module mcp.
Import db core.

(** A decoded JSON value, as [json.Unmarshal] stores it in an
    [interface{}]. *)
#[local] Unset Elimination Schemes.
Inductive JSON : Type :=
| JNull
| JBool (b : bool)
| JNumber (x : Q)
| JString (s : string)
| JArray (items : list JSON)
| JObject (fields : list (string * JSON)).
#[local] Set Elimination Schemes.

(** [v, ok := args[key].(string)] *)
Definition asString (args : gmap string JSON) (key : string) : string * bool :=
  match args !! key with
  | Some (JString s) => (s, true)
  | _ => ("", false)
  end.

(** The strings among the items of an array, in order. *)
Fixpoint stringItems (items : list JSON) : list string :=
  match items with
  | [] => []
  | JString s :: rest => s :: stringItems rest
  | _ :: rest => stringItems rest
  end.

(** The tags [toolStore] collects: appended one by one to a nil slice. *)
Definition tagsOf (args : gmap string JSON) : option (list string) :=
  match args !! "tags" with
  | Some (JArray items) =>
      match stringItems items with
      | [] => None
      | tags => Some tags
      end
  | _ => None
  end.

(** The options [toolStore] builds from its arguments. *)
Definition storeOptionsOf (args : gmap string JSON) : StoreOptions.t :=
  StoreOptions.mk
    (if snd (asString args "topic_key") then fst (asString args "topic_key") else "")
    (tagsOf args)
    (if snd (asString args "type") then fst (asString args "type") else "")
    TrustProposed
    ""
    "agent:mcp"
    ∅.

(** What a tool hands back: the text, the error flag, the database
    afterwards and the lines written to standard error. *)
Record Called := {
  called_text : string;
  called_isError : bool;
  called_db : DB;
  called_stderr : list string
}.

Definition toolStore (env : Env) (d : DB) (args : gmap string JSON) : Called :=
  let content := fst (asString args "content") in
  if String.eqb content "" then Build_Called "Error: content is required" true d []
  else
    let r := Store env d content (storeOptionsOf args) in
    match stored_memory r, stored_err r with
    | Some memory, None =>
        Build_Called ("Stored memory with ID: " +:+ Memory.ID memory +:+ " (topic: "
                      +:+ Memory.TopicKey memory +:+ ")")
                     false (stored_db r) (stored_stderr r)
    | _, Some err =>
        Build_Called ("Error storing memory: " +:+ err) true (stored_db r) (stored_stderr r)
    | None, None =>
        Build_Called "" true (stored_db r) (stored_stderr r)
    end.

Definition toolRelate (env : Env) (d : DB) (args : gmap string JSON) : Called :=
  let fromID := fst (asString args "from_id") in
  let toID := fst (asString args "to_id") in
  let relType := fst (asString args "relation") in
  let note := fst (asString args "note") in
  if String.eqb fromID "" || String.eqb toID "" || String.eqb relType ""
  then Build_Called "Error: from_id, to_id, and relation are required" true d []
  else
    match Relate env d fromID toID relType note with
    | ((Some relation, None), d') =>
        Build_Called ("Created relation: " +:+ Relation.FromID relation +:+ " -["
                      +:+ Relation.Type_ relation +:+ "]-> " +:+ Relation.ToID relation)
                     false d' []
    | ((_, Some err), d') => Build_Called ("Error creating relation: " +:+ err) true d' []
    | ((None, None), d') => Build_Called "" true d' []
    end.

Definition toolValidate (env : Env) (d : DB) (args : gmap string JSON) : Called :=
  let id := fst (asString args "id") in
  if String.eqb id "" then Build_Called "Error: id is required" true d []
  else
    let trust := if snd (asString args "trust") then fst (asString args "trust")
                 else TrustValidated in
    match Validate env d id trust with
    | (Some err, d') => Build_Called ("Error updating trust: " +:+ err) true d' []
    | (None, d') =>
        Build_Called ("Updated memory " +:+ id +:+ " trust to: " +:+ trust) false d' []
    end.

End mcp.

(** ** internal/core: construction of the Engine *)

Module engine.
Import db.

(** types.Config *)
Record Config := {
  DBPath : string;
  EmbeddingProvider : string;
  OpenAIKey : string;
  OllamaURL : string;
  OllamaModel : string;
  DefaultProject : string
}.

(** What [New] does to the outside: the directory it creates, the database
    it opens and the database it closes. *)
Inductive Event : Type :=
| MkdirAll (dir : string)
| Open (path : string)
| Close (path : string).

(** The engine [New] builds: its database and the model and dimensions of
    the OpenAI provider it sets up ([defaultModel], [defaultDimensions]). *)
Record Engine := {
  engine_db : DB;
  engine_model : string;
  engine_dimensions : Z
}.

(** [New]. [dirOf] is [filepath.Dir]; [mkdirErr] and [openErr] are the
    errors, if any, of [os.MkdirAll] and of [db.New]. *)
Definition New (dirOf : string -> string) (mkdirErr openErr : option error) (cfg : Config)
  : (option Engine * option error) * list Event :=
  let dir := dirOf (DBPath cfg) in
  match mkdirErr with
  | Some err => ((None, Some ("failed to create data directory: " +:+ err)), [MkdirAll dir])
  | None =>
      match openErr with
      | Some err =>
          ((None, Some ("failed to initialize database: " +:+ err)), [MkdirAll dir])
      | None =>
          let database := db.New (DBPath cfg) in
          let opened := [MkdirAll dir; Open (DBPath cfg)] in
          if String.eqb (EmbeddingProvider cfg) "openai" || String.eqb (EmbeddingProvider cfg) ""
          then
            if String.eqb (OpenAIKey cfg) ""
            then ((None, Some "OpenAI API key required"), opened ++ [Close (DBPath cfg)])
            else ((Some (Build_Engine database "text-embedding-3-small" 1536), None), opened)
          else if String.eqb (EmbeddingProvider cfg) "ollama"
          then ((None, Some "ollama provider not yet implemented"),
                opened ++ [Close (DBPath cfg)])
          else ((None, Some ("unknown embedding provider: " +:+ EmbeddingProvider cfg)),
                opened ++ [Close (DBPath cfg)])
      end
  end.

(** The databases opened and not closed by a run of events. *)
Fixpoint stillOpen (events : list Event) (open : list string) : list string :=
  match events with
  | [] => open
  | Open path :: rest => stillOpen rest (open ++ [path])
  | Close path :: rest =>
      stillOpen rest (List.filter (fun p => negb (String.eqb p path)) open)
  | MkdirAll _ :: rest => stillOpen rest open
  end.

End engine.

(** ** Further vocabulary *)

Module facts.
Import db core spec.

(** Ids are unique and a non-empty topic key has at most one row. *)
Definition wellKeyed (rows : list Memory.t) : Prop :=
  NoDup (map Memory.ID rows)
  /\ forall k, k <> "" -> (length (withTopicKey k rows) <= 1)%nat.

(** The hits a recall keeps, before the cut to the limit. *)
Definition keptHits (env : Env) (d : DB) (query : string) (opts : RecallOptions.t)
  : list VecHit :=
  let fts := ftsHitsOf env d query opts in
  List.filter (fun h => fetched env d h && passes fts (minScoreOf opts) h)
              (firstOccurrences ∅ (vecHitsOf env d query opts)).

(** One [IncrementAccessCount] per id, in order, errors dropped. *)
Definition incrementAll (env : Env) (ids : list string) (d : DB) : DB :=
  fold_left (fun d id => snd (IncrementAccessCount env d id)) ids d.

(** A record with [n] more accesses. *)
Definition accessed (n : Z) (r : Memory.t) : Memory.t :=
  Memory.mk (Memory.ID r) (Memory.Content r) (Memory.Type_ r) (Memory.TopicKey r)
    (Memory.Tags r) (Memory.Trust r) (Memory.Metadata r)
    (Memory.CreatedAt r) (Memory.UpdatedAt r) (Memory.AccessCnt r + n).

(** A record with another trust level, touched at [t]. *)
Definition trusted (trust : TrustLevel) (t : Time) (r : Memory.t) : Memory.t :=
  Memory.mk (Memory.ID r) (Memory.Content r) (Memory.Type_ r) (Memory.TopicKey r)
    (Memory.Tags r) trust (Memory.Metadata r)
    (Memory.CreatedAt r) (RFC3339 t) (Memory.AccessCnt r).

(** Most recently updated first. *)
(** Rows in the descending order of the texts of their stamps. *)
Definition byStampDesc (rows : list Memory.t) : Prop :=
  StronglySorted (fun a b => updatedAtKey b <= updatedAtKey a) rows.

(** Rows with the most recently updated first, at the resolution of the
    column (one second). *)
Definition newestFirst (rows : list Memory.t) : Prop :=
  StronglySorted (fun a b => unixNano (Memory.UpdatedAt b) / 10 ^ 9
                             <= unixNano (Memory.UpdatedAt a) / 10 ^ 9) rows.

(** Rows whose stamps were all written at one zone offset. *)
Definition oneZone (rows : list Memory.t) : Prop :=
  forall a b, a ∈ rows -> b ∈ rows ->
    zone (Memory.UpdatedAt a) = zone (Memory.UpdatedAt b).

(** A byte, a hexadecimal digit. *)
Definition is_byte (b : Z) : Prop := 0 <= b < 256.

Definition is_hex (c : Ascii.ascii) : Prop :=
  exists n, (n < 16)%nat /\ String.get n util.hextable = Some c.

(** The value of a hexadecimal digit, and the byte two digits spell. *)
Definition hexValue (c : Ascii.ascii) : Z :=
  let n := Z.of_nat (Ascii.nat_of_ascii c) in
  if (48 <=? n) && (n <=? 57) then n - 48
  else if (97 <=? n) && (n <=? 102) then n - 87
  else 0.

Fixpoint DecodeString (s : string) : list Z :=
  match s with
  | String hi (String lo rest) => (16 * hexValue hi + hexValue lo) :: DecodeString rest
  | _ => []
  end.

(** The characters of a string. *)
Fixpoint chars (s : string) : list Ascii.ascii :=
  match s with
  | EmptyString => []
  | String c rest => c :: chars rest
  end.

End facts.

(** * Properties *)

Import utf8 db core spec.

(** ** The JSON columns *)

Section Json.

Lemma jsonString_RuneError (s : string) :
  jsonString (RuneError +:+ s) = RuneError +:+ jsonString s.
Proof. reflexivity. Qed.

Lemma first_size (c : Ascii.ascii) (n : nat) (lo hi : Z) :
  first c = Sequence n lo hi -> n = 2%nat \/ n = 3%nat \/ n = 4%nat.
Proof.
  unfold first.
  repeat (destruct (_ <? _) || destruct (_ =? _)); intros [= <- _ _]; auto; discriminate.
Qed.

Lemma jsonString_idem_upto (n : nat) :
  forall s, (String.length s <= n)%nat -> jsonString (jsonString s) = jsonString s.
Proof.
  induction n as [|n IH]; intros s Hn.
  - destruct s; [reflexivity | simpl in Hn; lia].
  - destruct s as [|c0 t0]; [reflexivity|]. simpl in Hn.
    assert (H0 : jsonString (jsonString t0) = jsonString t0) by (apply IH; lia).
    assert (Hbad : jsonString (RuneError +:+ jsonString t0) = RuneError +:+ jsonString t0).
    { rewrite jsonString_RuneError, H0. reflexivity. }
    cbn [jsonString]. destruct (first c0) as [|size lo hi|] eqn:E.
    + cbn [jsonString]. rewrite E, H0. reflexivity.
    + destruct (first_size _ _ _ _ E) as [->|[->| ->]].
      * destruct t0 as [|c1 t1]; [exact Hbad|].
        destruct (within lo hi c1) eqn:E1; [|exact Hbad].
        cbn [jsonString]. rewrite E, E1. rewrite IH by (simpl in Hn; lia). reflexivity.
      * destruct t0 as [|c1 [|c2 t2]]; try exact Hbad.
        destruct (within lo hi c1 && continuation c2) eqn:E1; [|exact Hbad].
        cbn [jsonString]. rewrite E, E1. rewrite IH by (simpl in Hn; lia). reflexivity.
      * destruct t0 as [|c1 [|c2 [|c3 t3]]]; try exact Hbad.
        destruct (within lo hi c1 && continuation c2 && continuation c3) eqn:E1;
          [|exact Hbad].
        cbn [jsonString]. rewrite E, E1. rewrite IH by (simpl in Hn; lia). reflexivity.
    + exact Hbad.
Qed.

(** A second passage through JSON changes nothing. *)
Lemma jsonString_idem (s : string) : jsonString (jsonString s) = jsonString s.
Proof. apply (jsonString_idem_upto (String.length s)). lia. Qed.

Lemma jsonTags_idem (tags : option (list string)) : jsonTags (jsonTags tags) = jsonTags tags.
Proof.
  destruct tags as [l|]; [|reflexivity]. unfold jsonTags. simpl. f_equal.
  rewrite map_map. apply map_ext. intros s. apply jsonString_idem.
Qed.

Lemma Permutation_insertKey (kv : string * string) (l : list (string * string)) :
  insertKey kv l ≡ₚ kv :: l.
Proof.
  induction l as [|y l IH]; simpl; [reflexivity|].
  destruct (String.leb (fst kv) (fst y)); [reflexivity|].
  rewrite IH. apply Permutation_swap.
Qed.

Lemma Permutation_sortKeys (l : list (string * string)) : sortKeys l ≡ₚ l.
Proof.
  induction l as [|x l IH]; simpl; [reflexivity|].
  rewrite Permutation_insertKey, IH. reflexivity.
Qed.

Lemma fold_jsonEntry_canonical (l : list (string * string)) (acc : gmap string string) :
  map_Forall (fun k v => canonical (k, v)) acc ->
  map_Forall (fun k v => canonical (k, v)) (fold_left jsonEntry l acc).
Proof.
  revert acc. induction l as [|kv l IH]; intros acc Hacc; simpl; [exact Hacc|].
  apply IH. unfold jsonEntry. apply map_Forall_insert_2; [|exact Hacc].
  split; apply jsonString_idem.
Qed.

Lemma fold_jsonEntry_id (l : list (string * string)) (acc : gmap string string) :
  Forall canonical l ->
  fold_left jsonEntry l acc = foldr (fun kv => <[fst kv := snd kv]>) acc (reverse l).
Proof.
  revert acc. induction l as [|kv l IH]; intros acc Hl; simpl; [reflexivity|].
  inversion Hl as [|? ? [H1 H2] Hl']; subst.
  rewrite IH by assumption. rewrite reverse_cons, foldr_app. simpl.
  unfold jsonEntry. rewrite H1, H2. reflexivity.
Qed.

(** A map whose entries are valid UTF-8 comes back as it is. *)
Lemma jsonObject_canonical (m : gmap string string) :
  map_Forall (fun k v => canonical (k, v)) m -> jsonObject m = m.
Proof.
  intros Hm. unfold jsonObject.
  rewrite fold_jsonEntry_id.
  - change (foldr (fun kv => <[fst kv := snd kv]>) ∅ (reverse (sortKeys (map_to_list m))))
      with (list_to_map (M := gmap string string) (reverse (sortKeys (map_to_list m)))).
    rewrite <- (list_to_map_to_list m) at 2.
    apply list_to_map_proper.
    + rewrite reverse_Permutation, Permutation_sortKeys. apply NoDup_fst_map_to_list.
    + rewrite reverse_Permutation. apply Permutation_sortKeys.
  - apply Forall_forall. intros [k v] Hkv. rewrite Permutation_sortKeys in Hkv.
    apply elem_of_map_to_list in Hkv. exact (Hm k v Hkv).
Qed.

Lemma jsonObject_idem (m : gmap string string) : jsonObject (jsonObject m) = jsonObject m.
Proof.
  apply jsonObject_canonical. unfold jsonObject.
  apply fold_jsonEntry_canonical. apply map_Forall_empty.
Qed.

Lemma jsonMetadata_idem (m : Metadata.t) : jsonMetadata (jsonMetadata m) = jsonMetadata m.
Proof.
  unfold jsonMetadata. simpl. rewrite !jsonString_idem, jsonObject_idem. reflexivity.
Qed.

(** What has been read once reads the same again; what has been written
    reads as it was written. *)
Lemma scanMemory_idem (r : Memory.t) : scanMemory (scanMemory r) = scanMemory r.
Proof.
  unfold scanMemory. simpl. rewrite jsonTags_idem, jsonMetadata_idem. reflexivity.
Qed.

Lemma scanMemory_insertedRow (m : Memory.t) : scanMemory (insertedRow m) = insertedRow m.
Proof.
  unfold scanMemory, insertedRow. simpl. rewrite jsonTags_idem, jsonMetadata_idem.
  reflexivity.
Qed.

Lemma scanMemory_conflictRow (old m : Memory.t) :
  scanMemory (conflictRow old m) = conflictRow old m.
Proof.
  unfold scanMemory, conflictRow. simpl. rewrite jsonTags_idem, jsonMetadata_idem.
  reflexivity.
Qed.

End Json.

(** ** Rows and what is read from them *)

Lemma findRow_ID (id : string) (rows : list Memory.t) (r : Memory.t) :
  findRow id rows = Some r -> Memory.ID r = id.
Proof.
  unfold findRow. intros H. apply List.find_some in H as [_ H].
  apply String.eqb_eq, H.
Qed.

Lemma findMemory_Some (id : string) (rows : list Memory.t) (m : Memory.t) :
  findMemory id rows = Some m -> exists r, findRow id rows = Some r /\ m = scanMemory r.
Proof.
  unfold findMemory. destruct (findRow id rows) as [r|]; [|discriminate].
  intros [= <-]. exists r. auto.
Qed.

Lemma findMemory_cons (id : string) (r : Memory.t) (rows : list Memory.t) :
  findMemory id (r :: rows)
  = if String.eqb (Memory.ID r) id then Some (scanMemory r) else findMemory id rows.
Proof.
  unfold findMemory, findRow. simpl. destruct (String.eqb (Memory.ID r) id); reflexivity.
Qed.

(** ** Embedding serialization *)

Section Serialization.

Lemma testbit_high (f n : Z) : is_float32 f -> 32 <= n -> Z.testbit f n = false.
Proof.
  intros Hf Hn. destruct (Z.eq_dec f 0) as [->|Hz]; [apply Z.bits_0|].
  apply Z.bits_above_log2; [unfold is_float32 in Hf; lia|].
  assert (Z.log2 f < 32) by (apply Z.log2_lt_pow2; unfold is_float32 in Hf; lia). lia.
Qed.

(** The four bytes of a word, shifted back and or-ed, give the word. *)
Lemma word_of_bytes (f : Z) : is_float32 f ->
  Z.lor (Z.lor (Z.lor (uint32 (byte f))
                      (uint32 (Z.shiftl (uint32 (byte (Z.shiftr f 8))) 8)))
               (uint32 (Z.shiftl (uint32 (byte (Z.shiftr f 16))) 16)))
        (uint32 (Z.shiftl (uint32 (byte (Z.shiftr f 24))) 24)) = f.
Proof.
  intros Hf. unfold uint32, byte.
  change 255 with (Z.ones 8). change (2 ^ 32 - 1) with (Z.ones 32).
  apply Z.bits_inj'. intros n Hn.
  rewrite !Z.lor_spec, !Z.land_spec, !Z.shiftl_spec, !Z.land_spec by lia.
  rewrite !Z.testbit_ones by lia.
  destruct (Z.lt_ge_cases n 8); [|destruct (Z.lt_ge_cases n 16);
    [|destruct (Z.lt_ge_cases n 24); [|destruct (Z.lt_ge_cases n 32)]]].
  all: repeat match goal with
       | |- context [Z.testbit (Z.shiftr ?x ?k) ?m] =>
           first [ rewrite (Z.shiftr_spec x k m) by lia
                 | rewrite (Z.testbit_neg_r (Z.shiftr x k) m) by lia ]
       end.
  all: repeat match goal with
       | |- context [?a <=? ?b] => destruct (Z.leb_spec a b); try lia
       | |- context [?a <? ?b] => destruct (Z.ltb_spec a b); try lia
       end.
  all: simpl; rewrite ?andb_true_r, ?andb_false_r, ?orb_false_r, ?Z.sub_add; try reflexivity.
  all: try (symmetry; apply testbit_high; assumption).
Qed.

Lemma length_float32ToBytes (v : list float32) :
  length (float32ToBytes v) = (length v * 4)%nat.
Proof. induction v as [|f v IH]; simpl; [reflexivity | rewrite IH; reflexivity]. Qed.

Lemma lookup_float32ToBytes (v : list float32) (i k : nat) (f : float32) :
  v !! i = Some f -> (k < 4)%nat ->
  float32ToBytes v !! (i * 4 + k)%nat =
  [byte f; byte (Z.shiftr f 8); byte (Z.shiftr f 16); byte (Z.shiftr f 24)] !! k.
Proof.
  revert i. induction v as [|g v IH]; intros i Hi Hk; [discriminate|].
  destruct i as [|i]; simpl in Hi.
  - injection Hi as ->. simpl.
    do 4 (destruct k as [|k]; [reflexivity|]). lia.
  - change (float32ToBytes (g :: v)) with
      ([byte g; byte (Z.shiftr g 8); byte (Z.shiftr g 16); byte (Z.shiftr g 24)]
         ++ float32ToBytes v).
    rewrite lookup_app_r by (simpl; lia).
    replace (S i * 4 + k - length [byte g; byte (Z.shiftr g 8); byte (Z.shiftr g 16);
                                   byte (Z.shiftr g 24)])%nat
      with (i * 4 + k)%nat by (simpl; lia).
    apply IH; assumption.
Qed.

Lemma wordAt_float32ToBytes (v : list float32) (i : nat) (f : float32) :
  v !! i = Some f -> is_float32 f -> wordAt (float32ToBytes v) i = f.
Proof.
  intros Hi Hf. unfold wordAt, at_.
  rewrite <- (Nat.add_0_r (i * 4)) at 1.
  rewrite !(lookup_float32ToBytes v i _ f Hi) by lia. simpl.
  apply word_of_bytes, Hf.
Qed.

Lemma bytes_roundtrip (v : list float32) :
  Forall is_float32 v -> bytesToFloat32 (float32ToBytes v) = v.
Proof.
  intros Hv. unfold bytesToFloat32. rewrite length_float32ToBytes, Nat.div_mul by lia.
  apply list_eq. intros i. rewrite list_lookup_fmap.
  destruct (v !! i) as [f|] eqn:Hi.
  - rewrite lookup_seq_lt by (eapply lookup_lt_Some; eassumption). simpl.
    f_equal. apply wordAt_float32ToBytes; [assumption|].
    eapply Forall_lookup_1; eassumption.
  - rewrite lookup_seq_ge by (apply lookup_ge_None; assumption). reflexivity.
Qed.

(** The cache row written by an upsert is the one a lookup by id finds. *)
Lemma find_upsertEmbedding (id : string) (row : EmbeddingRow) (rows : list EmbeddingRow) :
  emb_memory_id row = id ->
  List.find (fun r => String.eqb (emb_memory_id r) id) (upsertEmbedding row rows) = Some row.
Proof.
  intros <-. induction rows as [|r rows IH]; simpl.
  - rewrite String.eqb_refl. reflexivity.
  - destruct (String.eqb (emb_memory_id r) (emb_memory_id row)) eqn:E; simpl.
    + rewrite String.eqb_refl. reflexivity.
    + rewrite E. exact IH.
Qed.

(** The refresh of the vector index leaves the cache table alone. *)
Lemma embeddings_insertVec (env : Env) (d : DB) (id : string) (v : list float32) :
  embeddings (snd (insertVec env (deleteVec env d id) id v)) = embeddings d.
Proof.
  unfold insertVec, deleteVec.
  destruct (failure env (InsertVec id)); destruct (failure env (DeleteVec id)); simpl;
    try reflexivity;
    match goal with |- context [if ?b then _ else _] => destruct b end; reflexivity.
Qed.

End Serialization.

(** C9. Round trip of an embedding: the little-endian serialization of a
    float32 vector followed by its deserialization is the identity, and a
    vector saved with [SaveEmbedding] is read back bit for bit by
    [GetEmbedding]. *)
Theorem C9_embedding_roundtrip (env env' : Env) (d d' : DB) (memoryID : string)
    (v : list float32) (model : string) :
  Forall is_float32 v ->
  SaveEmbedding env d memoryID v model = (None, d') ->
  failure env' (SelectEmbedding memoryID) = None ->
  bytesToFloat32 (float32ToBytes v) = v
  /\ GetEmbedding env' d' memoryID = (Some v, None).
Proof.
  intros Hv Hsave Hread. split; [apply bytes_roundtrip, Hv|].
  unfold SaveEmbedding in Hsave.
  destruct (failure env (UpsertEmbedding memoryID)); [discriminate|].
  destruct (foreign_keys d && negb (hasMemory d memoryID)); [discriminate|].
  apply (f_equal snd) in Hsave. simpl in Hsave.
  unfold GetEmbedding. rewrite Hread, <- Hsave, embeddings_insertVec. simpl.
  rewrite find_upsertEmbedding by reflexivity.
  simpl. rewrite bytes_roundtrip by assumption. reflexivity.
Qed.

Lemma C9_embedding_roundtrip_witness :
  Forall is_float32 [1065353216; 0; 4294967295; 3212836864]
  /\ GetEmbedding (scenario.calm "m1" 0)
       (snd (SaveEmbedding (scenario.calm "m1" 0) scenario.fresh "m1"
               [1065353216; 0; 4294967295; 3212836864] "text-embedding-3-small"))
       "m1"
     = (Some [1065353216; 0; 4294967295; 3212836864], None).
Proof.
  assert (H : Forall is_float32 [1065353216; 0; 4294967295; 3212836864])
    by (repeat constructor; unfold is_float32; lia).
  split; [exact H|].
  apply (C9_embedding_roundtrip (scenario.calm "m1" 0) (scenario.calm "m1" 0) scenario.fresh _ "m1"
           _ "text-embedding-3-small" H); reflexivity.
Defined.
(** C10. The [Tags] field of the options has no effect: two recall calls,
    and two list calls, whose options differ only in [Tags] return the same
    results (and leave the same database). *)
Theorem C10_tags_ignored (env : Env) (d : DB) (query : string) (o1 o2 : RecallOptions.t) :
  sameButTags o1 o2 ->
  Recall env d query o1 = Recall env d query o2
  /\ List_ env d o1 = List_ env d o2.
Proof.
  destruct o1 as [l1 m1 ty1 tg1 tr1 p1 k1], o2 as [l2 m2 ty2 tg2 tr2 p2 k2].
  unfold sameButTags. simpl. intros (-> & -> & -> & -> & -> & ->).
  split; reflexivity.
Qed.

Lemma C10_tags_ignored_witness :
  let o1 := RecallOptions.mk 3 (Num (1 # 2)) [] None [] "" "t/" in
  let o2 := RecallOptions.mk 3 (Num (1 # 2)) [] (Some ["go"; "sqlite"]) [] "" "t/" in
  sameButTags o1 o2
  /\ Recall (scenario.calm "" 5) scenario.twins "apply fix" o1
     = Recall (scenario.calm "" 5) scenario.twins "apply fix" o2
  /\ List_ (scenario.calm "" 5) scenario.twins o1 = List_ (scenario.calm "" 5) scenario.twins o2.
Proof.
  intros o1 o2.
  assert (H : sameButTags o1 o2) by (repeat split).
  split; [exact H|].
  exact (C10_tags_ignored (scenario.calm "" 5) scenario.twins "apply fix" o1 o2 H).
Defined.

(** ** Store: the embedding is a secondary step *)

Section SecondaryStep.

Lemma memories_insertVec (env : Env) (d : DB) (id : string) (v : list float32) :
  memories (snd (insertVec env (deleteVec env d id) id v)) = memories d
  /\ relations (snd (insertVec env (deleteVec env d id) id v)) = relations d.
Proof.
  unfold insertVec, deleteVec.
  destruct (failure env (InsertVec id)); destruct (failure env (DeleteVec id)); simpl;
    try (split; reflexivity);
    match goal with |- context [if ?b then _ else _] => destruct b end; split; reflexivity.
Qed.

(** [SaveEmbedding] writes the cache and the vector index only. *)
Lemma memories_SaveEmbedding (env : Env) (d : DB) (id : string) (v : list float32)
    (model : string) :
  memories (snd (SaveEmbedding env d id v model)) = memories d
  /\ relations (snd (SaveEmbedding env d id v model)) = relations d.
Proof.
  unfold SaveEmbedding.
  destruct (failure env (UpsertEmbedding id)); [split; reflexivity|].
  destruct (foreign_keys d && negb (hasMemory d id)); [split; reflexivity|].
  apply (memories_insertVec env (set_embeddings d _) id v).
Qed.

End SecondaryStep.

(** C8. When the write of the memory record succeeds, a failure of the
    embedding provider or of the embedding write does not make [Store] fail:
    it returns the saved memory and no error, the failure is a warning line
    on standard error, and the [memories] table is the one the record write
    left. *)
Theorem C8_embedding_failure_swallowed (env : Env) (d d1 : DB) (content : string)
    (opts : StoreOptions.t) :
  SaveMemory env d (storedMemory env d content opts) = (None, d1) ->
  let memory := storedMemory env d content opts in
  let r := Store env d content opts in
  stored_memory r = Some memory
  /\ stored_err r = None
  /\ memories (stored_db r) = memories d1
  /\ (forall e, snd (Embed env content) = Some e ->
        stored_db r = d1
        /\ stored_stderr r = ["warning: failed to generate embedding: " +:+ e])
  /\ (forall e, snd (Embed env content) = None ->
        fst (SaveEmbedding env d1 (Memory.ID memory) (fst (Embed env content)) (Model env))
          = Some e ->
        stored_stderr r = ["warning: failed to save embedding: " +:+ e]).
Proof.
  intros Hsave memory r. subst memory r. unfold Store. rewrite Hsave.
  destruct (Embed env content) as [embedding [e|]] eqn:HE; simpl.
  - refine (conj eq_refl (conj eq_refl (conj eq_refl (conj _ _)))).
    + intros e' [= ->]. split; reflexivity.
    + intros e' Hn. discriminate.
  - pose proof (memories_SaveEmbedding env d1
                  (Memory.ID (storedMemory env d content opts)) embedding (Model env)) as [Hm _].
    destruct (SaveEmbedding env d1 (Memory.ID (storedMemory env d content opts))
                embedding (Model env)) as [[e|] d2] eqn:HS; simpl in *.
    + refine (conj eq_refl (conj eq_refl (conj Hm (conj _ _)))).
      * intros e' He'. discriminate.
      * intros e' _ [= ->]. reflexivity.
    + refine (conj eq_refl (conj eq_refl (conj Hm (conj _ _)))).
      * intros e' He'. discriminate.
      * intros e' _ He'. discriminate.
Qed.

Lemma C8_embedding_failure_swallowed_witness :
  let env := scenario.providerDown "m1" 0 in
  let r := Store env scenario.fresh "X fails" (scenario.plain "t/1") in
  fst (SaveMemory env scenario.fresh (storedMemory env scenario.fresh "X fails" (scenario.plain "t/1"))) = None
  /\ stored_memory r = Some (storedMemory env scenario.fresh "X fails" (scenario.plain "t/1"))
  /\ stored_err r = None
  /\ stored_stderr r = ["warning: failed to generate embedding: connection refused"].
Proof.
  intros env r.
  destruct (C8_embedding_failure_swallowed env scenario.fresh
              (snd (SaveMemory env scenario.fresh (storedMemory env scenario.fresh "X fails" (scenario.plain "t/1"))))
              "X fails" (scenario.plain "t/1") eq_refl)
    as (Hm & He & _ & Hlog & _).
  split; [reflexivity|]. split; [exact Hm|]. split; [exact He|].
  exact (proj2 (Hlog "connection refused" eq_refl)).
Defined.

(** ** Recall: the loop over the vector hits *)

Section RecallLoop.

Variable env : Env.
Variable ftsSet : gset string.
Variable minScore : float64.

Lemma findMemory_ID (id : string) (rows : list Memory.t) (m : Memory.t) :
  findMemory id rows = Some m -> Memory.ID m = id.
Proof.
  intros H. apply findMemory_Some in H as (r & H & ->). apply (findRow_ID _ _ _ H).
Qed.

Lemma GetMemory_ID (d : DB) (id : string) (m : Memory.t) :
  GetMemory env d id = (Some m, None) -> Memory.ID m = id.
Proof.
  unfold GetMemory. destruct (failure env (SelectMemory id)); [discriminate|].
  intros [= H]. eapply findMemory_ID, H.
Qed.

Lemma recallStep_fromHit (all : list VecHit) (st : Loop) (vr : VecHit) :
  vr ∈ all -> Forall (fromHit ftsSet minScore all) (results st) ->
  Forall (fromHit ftsSet minScore all) (results (recallStep env ftsSet minScore st vr)).
Proof.
  intros Hin Hst. unfold recallStep.
  destruct (bool_decide (MemoryID vr ∈ seen st)); [assumption|].
  destruct (GetMemory env (loop_db st) (MemoryID vr)) as [[memory|] [e|]] eqn:HG;
    try assumption.
  destruct (Float64.ltb _ minScore) eqn:HS; [assumption|]. simpl.
  apply Forall_app. split; [assumption|]. constructor; [|constructor].
  exists vr. simpl. repeat split; try assumption.
  symmetry. eapply GetMemory_ID, HG.
Qed.

Lemma fold_recallStep_fromHit (all hits : list VecHit) (st : Loop) :
  (forall h, h ∈ hits -> h ∈ all) -> Forall (fromHit ftsSet minScore all) (results st) ->
  Forall (fromHit ftsSet minScore all) (results (fold_left (recallStep env ftsSet minScore) hits st)).
Proof.
  revert st. induction hits as [|vr hits IH]; intros st Hsub Hst; simpl; [assumption|].
  apply IH.
  - intros h Hh. apply Hsub. right. assumption.
  - apply recallStep_fromHit; [apply Hsub; left | assumption].
Qed.

End RecallLoop.

Lemma scoreHits_fromHit (env : Env) (d : DB) (ftsIDs : list string) (minScore : float64)
    (hits : list VecHit) :
  Forall (fromHit (list_to_set ftsIDs) minScore hits)
         (results (scoreHits env d ftsIDs minScore hits)).
Proof.
  unfold scoreHits. apply fold_recallStep_fromHit; [auto | constructor].
Qed.

(** [Recall], once the query is embedded and the vector search answered. *)
Lemma Recall_proceeds (env : Env) (d : DB) (query : string) (opts : RecallOptions.t) :
  snd (Embed env query) = None ->
  snd (VectorSearch env d (queryEmbOf env query) (wrap64 (limitOf opts * 2))) = None ->
  Recall env d query opts =
  (limitResults (limitOf opts)
     (results (scoreHits env d (ftsHitsOf env d query opts) (minScoreOf opts)
                 (vecHitsOf env d query opts))),
   loop_db (scoreHits env d (ftsHitsOf env d query opts) (minScoreOf opts)
              (vecHitsOf env d query opts))).
Proof.
  unfold Recall, vecHitsOf, ftsHitsOf, queryEmbOf.
  destruct (Embed env query) as [queryEmb [e|]]; simpl; [discriminate|]. intros _.
  destruct (VectorSearch env d queryEmb (wrap64 (limitOf opts * 2))) as [hits [e|]];
    simpl; [discriminate|]. reflexivity.
Qed.

Lemma limitResults_no_error (limit : Z) (rs rs' : list SearchResult.t) (err : option error) :
  limitResults limit rs = Returns (rs', err) -> err = None.
Proof.
  unfold limitResults. destruct (limit <? Z.of_nat (length rs)); [destruct (limit <? 0)|];
    intros H; try discriminate; injection H as _ <-; reflexivity.
Qed.

(** C7. [Recall] returns an error and no results when embedding the query
    fails or the vector search fails. A failure of the keyword search does not
    fail the call: the loop runs exactly as over an empty keyword hit set, so
    whatever the call returns carries no error and no result has the boost. *)
Theorem C7_recall_error_policy (env : Env) (d : DB) (query : string) (opts : RecallOptions.t) :
  (forall e, snd (Embed env query) = Some e ->
     Recall env d query opts = (Returns ([], Some ("failed to embed query: " +:+ e)), d))
  /\ (forall e, snd (Embed env query) = None ->
        snd (VectorSearch env d (queryEmbOf env query) (wrap64 (limitOf opts * 2))) = Some e ->
        Recall env d query opts = (Returns ([], Some ("vector search failed: " +:+ e)), d))
  /\ (forall e, snd (Embed env query) = None ->
        snd (VectorSearch env d (queryEmbOf env query) (wrap64 (limitOf opts * 2))) = None ->
        snd (FTSSearch env d query (wrap64 (limitOf opts * 2))) = Some e ->
        let st := scoreHits env d [] (minScoreOf opts) (vecHitsOf env d query opts) in
        Recall env d query opts = (limitResults (limitOf opts) (results st), loop_db st)
        /\ (forall rs err d', Recall env d query opts = (Returns (rs, err), d') -> err = None)
        /\ Forall (fun r => exists h, h ∈ vecHitsOf env d query opts
                     /\ MemoryID h = Memory.ID (SearchResult.Memory r)
                     /\ SearchResult.Score r = finalScore (Distance h) false)
                  (results st)).
Proof.
  split; [|split].
  - intros e He. unfold Recall. destruct (Embed env query) as [v o]. simpl in He.
    subst o. reflexivity.
  - intros e He Hv. unfold Recall, queryEmbOf in *.
    destruct (Embed env query) as [v o]. simpl in *. subst o.
    destruct (VectorSearch env d v (wrap64 (limitOf opts * 2))) as [hits o]. simpl in Hv.
    subst o. reflexivity.
  - intros e He Hv Hf st.
    assert (Hfts : ftsHitsOf env d query opts = []).
    { unfold ftsHitsOf, FTSSearch in *.
      destruct (failure env (FtsMatch query (wrap64 (limitOf opts * 2)))); [reflexivity|].
      discriminate. }
    assert (HR : Recall env d query opts = (limitResults (limitOf opts) (results st), loop_db st)).
    { rewrite Recall_proceeds by assumption. rewrite Hfts. reflexivity. }
    split; [exact HR|]. split.
    + intros rs err d'. rewrite HR. intros [= H _]. eapply limitResults_no_error, H.
    + eapply Forall_impl; [apply scoreHits_fromHit|].
      intros r (h & Hin & Hid & Hs & _). exists h. repeat split; try assumption.
Qed.

Lemma C7_recall_error_policy_witness :
  Recall (scenario.providerDown "" 5) scenario.twins "apply fix" scenario.defaults
    = (Returns ([], Some "failed to embed query: connection refused"), scenario.twins)
  /\ Recall (scenario.faulty scenario.knnBroken "" 5) scenario.twins "apply fix" scenario.defaults
    = (Returns ([], Some "vector search failed: disk I/O error"), scenario.twins)
  /\ forall rs err d',
       Recall (scenario.faulty scenario.ftsBroken "" 5) scenario.twins "apply fix"
         scenario.defaults = (Returns (rs, err), d') -> err = None.
Proof.
  split; [|split].
  - exact (proj1 (C7_recall_error_policy (scenario.providerDown "" 5) scenario.twins
                    "apply fix" scenario.defaults) "connection refused" eq_refl).
  - exact (proj1 (proj2 (C7_recall_error_policy (scenario.faulty scenario.knnBroken "" 5)
                           scenario.twins "apply fix" scenario.defaults))
             "disk I/O error" eq_refl eq_refl).
  - exact (proj1 (proj2 (proj2 (proj2 (C7_recall_error_policy
                                        (scenario.faulty scenario.ftsBroken "" 5)
                                        scenario.twins "apply fix" scenario.defaults))
                                 "disk I/O error" eq_refl eq_refl eq_refl))).
Defined.

(** ** Recall: bounds on what is returned *)

Lemma Qltb_false_le (x y : Q) : Qltb x y = false -> (y <= x)%Q.
Proof.
  unfold Qltb. intros H. apply negb_false_iff in H. apply Qle_bool_iff, H.
Qed.

Lemma Qltb_true_lt (x y : Q) : Qltb x y = true -> (x < y)%Q.
Proof.
  unfold Qltb. intros H. apply negb_true_iff in H.
  apply Qnot_le_lt. intros Hle. apply Qle_bool_iff in Hle. congruence.
Qed.

Lemma limitResults_returns (limit : Z) (rs rs' : list SearchResult.t) (err : option error) :
  limitResults limit rs = Returns (rs', err) ->
  rs' = take (Z.to_nat limit) rs /\ Z.of_nat (length rs') <= limit.
Proof.
  unfold limitResults. destruct (Z.ltb_spec limit (Z.of_nat (length rs))) as [Hlt|Hge].
  - destruct (Z.ltb_spec limit 0); [discriminate|].
    intros [= <- _]. split; [reflexivity|]. rewrite length_take. lia.
  - intros [= <- _]. split; [|assumption].
    symmetry. apply take_ge. lia.
Qed.

(** A successful [Recall] returns a prefix of what the loop collected. *)
Lemma Recall_returns (env : Env) (d d' : DB) (query : string) (opts : RecallOptions.t)
    (rs : list SearchResult.t) :
  Recall env d query opts = (Returns (rs, None), d') ->
  snd (Embed env query) = None
  /\ snd (VectorSearch env d (queryEmbOf env query) (wrap64 (limitOf opts * 2))) = None
  /\ rs = take (Z.to_nat (limitOf opts))
            (results (scoreHits env d (ftsHitsOf env d query opts) (minScoreOf opts)
                        (vecHitsOf env d query opts)))
  /\ Z.of_nat (length rs) <= limitOf opts.
Proof.
  intros H.
  assert (HE : snd (Embed env query) = None).
  { unfold Recall in H. destruct (Embed env query) as [v [e|]]; [discriminate|reflexivity]. }
  assert (HV : snd (VectorSearch env d (queryEmbOf env query) (wrap64 (limitOf opts * 2)))
               = None).
  { unfold Recall, queryEmbOf in *. destruct (Embed env query) as [v [e|]]; [discriminate|].
    simpl. destruct (VectorSearch env d v (wrap64 (limitOf opts * 2))) as [hits [e|]];
      [discriminate|reflexivity]. }
  rewrite Recall_proceeds in H by assumption. injection H as H _.
  apply limitResults_returns in H as [H1 H2]. auto.
Qed.

(** A [Recall] that returns with an error returns no results. *)
Lemma Recall_error_no_results (env : Env) (d d' : DB) (query : string)
    (opts : RecallOptions.t) (rs : list SearchResult.t) (e : error) :
  Recall env d query opts = (Returns (rs, Some e), d') -> rs = [].
Proof.
  unfold Recall. destruct (Embed env query) as [v [e1|]].
  - intros [= <- _ _]. reflexivity.
  - destruct (VectorSearch env d v (wrap64 (limitOf opts * 2))) as [hits [e2|]].
    + intros [= <- _ _]. reflexivity.
    + intros [= H _]. apply limitResults_no_error in H. discriminate.
Qed.

Lemma geb_of_not_ltb (x : Q) (m : float64) :
  m <> NaN -> Float64.ltb (Num x) m = false -> Float64.geb (Num x) m = true.
Proof.
  destruct m as [q| | |]; simpl; intros Hn H; try congruence.
  apply negb_false_iff in H. exact H.
Qed.

Lemma minScoreOf_not_NaN (opts : RecallOptions.t) :
  RecallOptions.MinScore opts <> NaN -> minScoreOf opts <> NaN.
Proof.
  unfold minScoreOf. destruct (Float64.eqb _ _); [discriminate|trivial].
Qed.

(** C6. Whatever a recall returns, no result in it has a score below
    [minScore] (the loop's test [finalScore < opts.MinScore] was false for
    it); when the minimum score of the options is not NaN, every result has a
    score of at least [minScore]. A recall that succeeds (or any recall with a
    non-negative limit) returns at most [limit] results; an unset limit (0)
    stands for 5 and an unset minimum score (0) for 0.3. *)
Theorem C6_recall_bounds (env : Env) (d d' : DB) (query : string) (opts : RecallOptions.t)
    (rs : list SearchResult.t) (err : option error) :
  Recall env d query opts = (Returns (rs, err), d') ->
  Forall (fun r => Float64.ltb (Num (SearchResult.Score r)) (minScoreOf opts) = false) rs
  /\ (RecallOptions.MinScore opts <> NaN ->
      Forall (fun r => Float64.geb (Num (SearchResult.Score r)) (minScoreOf opts) = true) rs)
  /\ (forall q, minScoreOf opts = Num q ->
      Forall (fun r => (q <= SearchResult.Score r)%Q) rs)
  /\ (err = None \/ 0 <= limitOf opts -> Z.of_nat (length rs) <= limitOf opts)
  /\ (RecallOptions.Limit opts = 0 -> limitOf opts = 5)
  /\ (RecallOptions.Limit opts <> 0 -> limitOf opts = RecallOptions.Limit opts)
  /\ (Float64.eqb (RecallOptions.MinScore opts) (Num 0) = true ->
      minScoreOf opts = Num (3 # 10))
  /\ (Float64.eqb (RecallOptions.MinScore opts) (Num 0) = false ->
      minScoreOf opts = RecallOptions.MinScore opts).
Proof.
  intros H.
  assert (Hlow : Forall (fun r => Float64.ltb (Num (SearchResult.Score r)) (minScoreOf opts)
                                  = false) rs).
  { destruct err as [e|].
    - apply Recall_error_no_results in H as ->. constructor.
    - apply Recall_returns in H as (_ & _ & -> & _). apply Forall_take.
      eapply Forall_impl; [apply scoreHits_fromHit|].
      intros r (h & _ & _ & _ & Hs). exact Hs. }
  split; [exact Hlow|]. split; [|split; [|split]].
  - intros Hn. eapply Forall_impl; [exact Hlow|].
    intros r Hr. apply geb_of_not_ltb; [apply minScoreOf_not_NaN, Hn | exact Hr].
  - intros q Hq. eapply Forall_impl; [exact Hlow|].
    intros r Hr. rewrite Hq in Hr. apply Qltb_false_le, Hr.
  - destruct err as [e|].
    + apply Recall_error_no_results in H as ->. intros [Hn|Hl]; [discriminate|exact Hl].
    + apply Recall_returns in H as (_ & _ & _ & Hlen). intros _. exact Hlen.
  - unfold limitOf, minScoreOf. repeat split.
    + intros ->. reflexivity.
    + intros Hn. destruct (Z.eqb_spec (RecallOptions.Limit opts) 0); [contradiction|reflexivity].
    + intros ->. reflexivity.
    + intros ->. reflexivity.
Qed.

Lemma C6_recall_bounds_witness :
  exists rs d',
    Recall (scenario.calm "" 5) scenario.twins "apply fix"
      (RecallOptions.mk 1 (Num 0) [] None [] "" "") = (Returns (rs, None), d')
    /\ Forall (fun r => (3 # 10 <= SearchResult.Score r)%Q) rs
    /\ Forall (fun r => Float64.geb (Num (SearchResult.Score r)) (Num (3 # 10)) = true) rs
    /\ Z.of_nat (length rs) <= 1.
Proof.
  eexists. eexists. split; [vm_compute; reflexivity|].
  destruct (C6_recall_bounds (scenario.calm "" 5) scenario.twins _ "apply fix"
              (RecallOptions.mk 1 (Num 0) [] None [] "" "") _ None eq_refl)
    as (_ & H1 & H2 & H3 & _).
  split; [exact (H2 (3 # 10)%Q eq_refl)|].
  split; [apply H1; discriminate | exact (H3 (or_introl eq_refl))].
Defined.

(** C6, as first stated, fails for a minimum score that is NaN, which the
    [--min-score] flag accepts: the default is not applied
    ([NaN == 0] is false), no hit is skipped ([finalScore < NaN] is false),
    and the records are returned with the score 0 of a query far from
    them, which is not at least NaN (nor at least the default 0.3). *)
Lemma C6_recall_bounds_counterexample :
  let opts := RecallOptions.mk 0 NaN [] None [] "" "" in
  exists r1 r2 d',
    Recall (scenario.calm "" 5) scenario.twins "a" opts = (Returns ([r1; r2], None), d')
    /\ minScoreOf opts = NaN
    /\ (SearchResult.Score r1 == 0)%Q
    /\ Float64.geb (Num (SearchResult.Score r1)) (minScoreOf opts) = false
    /\ ~ Forall (fun r => Float64.geb (Num (SearchResult.Score r)) (minScoreOf opts) = true)
                [r1; r2].
Proof.
  intros opts. subst opts.
  eexists. eexists. eexists. split; [vm_compute; reflexivity|].
  split; [reflexivity|]. split; [reflexivity|]. split; [reflexivity|].
  intros H. inversion H as [|? ? H1 _]. discriminate H1.
Qed.

(** ** Recall: the hybrid score *)

Lemma elem_of_insertAsc {A} (key : A -> Q) (x y : A) (l : list A) :
  y ∈ insertAsc key x l <-> y = x \/ y ∈ l.
Proof.
  induction l as [|z l IH]; simpl.
  - rewrite elem_of_cons. reflexivity.
  - destruct (Qle_bool (key x) (key z)).
    + rewrite elem_of_cons. reflexivity.
    + rewrite !elem_of_cons, IH. tauto.
Qed.

Lemma elem_of_sortAsc {A} (key : A -> Q) (y : A) (l : list A) :
  y ∈ sortAsc key l <-> y ∈ l.
Proof.
  induction l as [|x l IH]; simpl; [reflexivity|].
  rewrite elem_of_insertAsc, IH, elem_of_cons. reflexivity.
Qed.







(** ** Recall: the order of the results *)

Section RecallOrder.

Variable env : Env.
Variable fts : list string.
Variable minScore : float64.

Lemma findMemory_bumpAccess (id x : string) (rows : list Memory.t) :
  findMemory id (map (bumpAccess x) rows) = bumpAccess x <$> findMemory id rows.
Proof.
  induction rows as [|r rows IH]; [reflexivity|]. simpl map. rewrite !findMemory_cons.
  assert (E : Memory.ID (bumpAccess x r) = Memory.ID r).
  { unfold bumpAccess. destruct (String.eqb (Memory.ID r) x); reflexivity. }
  rewrite E. destruct (String.eqb (Memory.ID r) id); [|exact IH].
  simpl. f_equal. unfold bumpAccess. simpl.
  destruct (String.eqb (Memory.ID r) x); reflexivity.
Qed.

Lemma sameRows_IncrementAccessCount (d d' : DB) (x : string) :
  sameRows env d d' -> sameRows env d (snd (IncrementAccessCount env d' x)).
Proof.
  intros H id. rewrite <- (H id). unfold IncrementAccessCount, fetched, GetMemory. simpl.
  destruct (failure env (UpdateAccessCount x)); simpl; [reflexivity|].
  destruct (failure env (SelectMemory id)); [reflexivity|].
  rewrite findMemory_bumpAccess. destruct (findMemory id (memories d')); reflexivity.
Qed.

Lemma fetched_id (d : DB) (h : VecHit) :
  fetched env d h = fetched env d {| MemoryID := MemoryID h; Distance := 0 |}.
Proof. reflexivity. Qed.

Lemma fold_recallStep_order (d : DB) (hits : list VecHit) (st : Loop) :
  sameRows env d (loop_db st) ->
  idsAndScores (results (fold_left (recallStep env (list_to_set fts) minScore) hits st))
  = idsAndScores (results st)
    ++ scored fts (List.filter (fun h => fetched env d h && passes fts minScore h)
                            (firstOccurrences (seen st) hits)).
Proof.
  revert st. induction hits as [|vr hits IH]; intros st Hst; simpl.
  - rewrite app_nil_r. reflexivity.
  - unfold recallStep at 2.
    destruct (bool_decide (MemoryID vr ∈ seen st)) eqn:Hseen; [apply IH, Hst|].
    simpl.
    pose proof (Hst (MemoryID vr)) as Hf. rewrite <- !fetched_id in Hf.
    rewrite <- Hf. unfold fetched at 1, passes.
    destruct (GetMemory env (loop_db st) (MemoryID vr)) as [[memory|] [e|]] eqn:HG; simpl;
      try (rewrite IH by exact Hst; reflexivity).
    destruct (Float64.ltb _ minScore) eqn:HS; simpl.
    + rewrite IH by exact Hst. reflexivity.
    + rewrite IH by (simpl; apply sameRows_IncrementAccessCount, Hst). simpl.
      unfold idsAndScores. rewrite map_app. simpl.
      rewrite (GetMemory_ID env _ _ _ HG), <- app_assoc. reflexivity.
Qed.

End RecallOrder.

Lemma scoreHits_order (env : Env) (d : DB) (fts : list string) (minScore : float64)
    (hits : list VecHit) :
  idsAndScores (results (scoreHits env d fts minScore hits))
  = scored fts (List.filter (fun h => fetched env d h && passes fts minScore h)
                            (firstOccurrences ∅ hits)).
Proof.
  unfold scoreHits. rewrite (fold_recallStep_order env fts minScore d); [reflexivity|].
  intros id. reflexivity.
Qed.

(** The insertion sort of the index model sorts. *)
Lemma insertAsc_sorted (x : VecHit) (l : list VecHit) :
  ascending l -> ascending (insertAsc Distance x l).
Proof.
  unfold ascending. induction 1 as [|y l Hl IH Hy]; simpl.
  - repeat constructor.
  - destruct (Qle_bool (Distance x) (Distance y)) eqn:E.
    + apply Qle_bool_iff in E. constructor; [constructor; assumption|].
      constructor; [assumption|].
      eapply Forall_impl; [exact Hy|]. intros z Hz. simpl in *. eapply Qle_trans; eassumption.
    + assert (Hyx : (Distance y <= Distance x)%Q).
      { apply Qlt_le_weak, Qnot_le_lt. intros Hle. apply Qle_bool_iff in Hle. congruence. }
      constructor; [exact IH|].
      apply Forall_forall. intros z Hz. apply elem_of_insertAsc in Hz as [->|Hz];
        [exact Hyx|]. eapply Forall_forall in Hy; eassumption.
Qed.

Lemma VectorSearch_ascending (env : Env) (d : DB) (queryEmb : list float32) (limit : Z) :
  ascending (fst (VectorSearch env d queryEmb limit)).
Proof.
  unfold VectorSearch. destruct (failure env (KnnMatch limit)); simpl; [constructor|].
  match goal with |- ascending (take ?n ?l) =>
    assert (Hs : ascending l); [|rewrite <- (take_drop n l) in Hs;
                                 eapply StronglySorted_app_1_l, Hs]
  end.
  induction (vec_memories d) as [|p l IH]; simpl; [constructor|].
  apply insertAsc_sorted, IH.
Qed.

(** C5, as amended. The sequence a recall returns is the order-preserving
    subsequence of the de-duplicated vector-search hits (first occurrence
    kept, ascending-distance order) whose record is fetched and whose final
    score passes the threshold, cut to the limit; it is not re-sorted. *)
Theorem C5_recall_order (env : Env) (d d' : DB) (query : string) (opts : RecallOptions.t)
    (rs : list SearchResult.t) :
  Recall env d query opts = (Returns (rs, None), d') ->
  idsAndScores rs = thresholdedFetched env d query opts
  /\ ascending (vecHitsOf env d query opts).
Proof.
  intros H. apply Recall_returns in H as (_ & _ & -> & _). split.
  - unfold idsAndScores, thresholdedFetched. rewrite fmap_take. f_equal.
    apply scoreHits_order.
  - apply VectorSearch_ascending.
Qed.

Lemma C5_recall_order_witness :
  exists rs d',
    Recall (scenario.calm "" 5) scenario.afterDelete "apply fix" scenario.defaults
      = (Returns (rs, None), d')
    /\ idsAndScores rs
       = thresholdedFetched (scenario.calm "" 5) scenario.afterDelete "apply fix"
           scenario.defaults.
Proof.
  eexists. eexists. split; [vm_compute; reflexivity|].
  exact (proj1 (C5_recall_order (scenario.calm "" 5) scenario.afterDelete _ "apply fix"
                  scenario.defaults _ eq_refl)).
Defined.

(** C5, as first stated, fails where the vector index still lists a deleted
    record: the hit passes the threshold on its score, and the recall leaves
    it out. *)
Lemma C5_recall_order_counterexample :
  exists rs d',
    Recall (scenario.calm "" 5) scenario.afterDelete "apply fix" scenario.defaults
      = (Returns (rs, None), d')
    /\ map fst (idsAndScores rs) = [scenario.id2]
    /\ map fst (thresholded (scenario.calm "" 5) scenario.afterDelete "apply fix"
                  scenario.defaults) = [scenario.id1; scenario.id2]
    /\ idsAndScores rs
       <> thresholded (scenario.calm "" 5) scenario.afterDelete "apply fix" scenario.defaults.
Proof.
  eexists. eexists. split; [vm_compute; reflexivity|].
  split; [vm_compute; reflexivity|]. split; [vm_compute; reflexivity|].
  intros H. apply (f_equal (@length _)) in H. vm_compute in H. discriminate.
Qed.

(** ** Store: evolution by topic key *)

Section Upsert.

(** The row of an upsert, from the row found under the id as stored. *)
Lemma upsertedRow_raw (m : Memory.t) (rows : list Memory.t) :
  upsertedRow m rows = match findRow (Memory.ID m) rows with
                       | Some old => conflictRow old m
                       | None => insertedRow m
                       end.
Proof.
  unfold upsertedRow, findMemory. destruct (findRow (Memory.ID m) rows); reflexivity.
Qed.

Lemma scanMemory_upsertedRow (m : Memory.t) (rows : list Memory.t) :
  scanMemory (upsertedRow m rows) = upsertedRow m rows.
Proof.
  rewrite upsertedRow_raw. destruct (findRow (Memory.ID m) rows);
    [apply scanMemory_conflictRow | apply scanMemory_insertedRow].
Qed.

Lemma findRow_upsertMemory (m : Memory.t) (rows : list Memory.t) :
  findRow (Memory.ID m) (upsertMemory m rows) = Some (upsertedRow m rows).
Proof.
  rewrite upsertedRow_raw. unfold findRow. induction rows as [|r rows IH]; simpl.
  - rewrite String.eqb_refl. reflexivity.
  - destruct (String.eqb (Memory.ID r) (Memory.ID m)) eqn:E; simpl.
    + rewrite E. reflexivity.
    + rewrite E. exact IH.
Qed.

Lemma find_upsertMemory (m : Memory.t) (rows : list Memory.t) :
  findMemory (Memory.ID m) (upsertMemory m rows) = Some (upsertedRow m rows).
Proof.
  unfold findMemory. rewrite findRow_upsertMemory. simpl.
  rewrite scanMemory_upsertedRow. reflexivity.
Qed.

Lemma upsertedRow_facts (m : Memory.t) (rows : list Memory.t) :
  Memory.ID (upsertedRow m rows) = Memory.ID m
  /\ Memory.TopicKey (upsertedRow m rows) = Memory.TopicKey m
  /\ Memory.Content (upsertedRow m rows) = Memory.Content m
  /\ Memory.UpdatedAt (upsertedRow m rows) = RFC3339 (Memory.UpdatedAt m)
  /\ Memory.Tags (upsertedRow m rows) = jsonTags (Memory.Tags m)
  /\ Memory.Type_ (upsertedRow m rows) = Memory.Type_ m
  /\ Memory.Trust (upsertedRow m rows) = Memory.Trust m.
Proof.
  unfold upsertedRow. destruct (findMemory (Memory.ID m) rows) as [old|] eqn:E; simpl.
  - apply findMemory_ID in E. repeat split. exact E.
  - repeat split.
Qed.

(** An upsert under a topic key that no row carries leaves one row under it. *)
Lemma withTopicKey_upsert_fresh (k : string) (m : Memory.t) (rows : list Memory.t) :
  withTopicKey k rows = [] -> Memory.TopicKey m = k ->
  withTopicKey k (upsertMemory m rows) = [upsertedRow m rows].
Proof.
  intros Hnone Hk. rewrite upsertedRow_raw. unfold findRow, withTopicKey in *.
  induction rows as [|r rows IH]; simpl in *.
  - rewrite Hk, String.eqb_refl. reflexivity.
  - destruct (String.eqb (Memory.TopicKey r) k) eqn:Ek; [discriminate|].
    destruct (String.eqb (Memory.ID r) (Memory.ID m)) eqn:E; simpl.
    + rewrite Hk, String.eqb_refl, Hnone. reflexivity.
    + rewrite Ek. apply IH, Hnone.
Qed.

(** An upsert over the one row a topic key has leaves one row under it. *)
Lemma withTopicKey_upsert_same (k : string) (m row : Memory.t) (rows : list Memory.t) :
  withTopicKey k rows = [row] -> findRow (Memory.ID m) rows = Some row ->
  Memory.TopicKey m = k ->
  withTopicKey k (upsertMemory m rows) = [conflictRow row m].
Proof.
  intros Hone Hfind Hk. unfold findRow, withTopicKey in *.
  induction rows as [|r rows IH]; simpl in *; [discriminate|].
  destruct (String.eqb (Memory.ID r) (Memory.ID m)) eqn:E; simpl.
  - injection Hfind as ->. rewrite Hk, String.eqb_refl.
    destruct (String.eqb (Memory.TopicKey row) k) eqn:Ek.
    + injection Hone as ->. reflexivity.
    + exfalso.
      assert (Hin : In row (List.filter (fun r => String.eqb (Memory.TopicKey r) k) rows))
        by (rewrite Hone; left; reflexivity).
      apply List.filter_In in Hin as [_ Hin]. congruence.
  - destruct (String.eqb (Memory.TopicKey r) k) eqn:Ek.
    + injection Hone as -> _. apply List.find_some in Hfind as [_ Hid]. congruence.
    + apply IH; assumption.
Qed.

Lemma newest_singleton (row : Memory.t) : newest [row] = Some row.
Proof. reflexivity. Qed.

Lemma newest_None (rows : list Memory.t) : newest rows = None -> rows = [].
Proof.
  destruct rows as [|r rows]; [reflexivity|]. simpl.
  destruct (newest rows) as [r'|]; [destruct (updatedAtKey r <? updatedAtKey r')|];
    discriminate.
Qed.

(** The rows a successful [Store] leaves. *)
Lemma Store_memories (env : Env) (d : DB) (content : string) (opts : StoreOptions.t) :
  stored_err (Store env d content opts) = None ->
  stored_memory (Store env d content opts) = Some (storedMemory env d content opts)
  /\ memories (stored_db (Store env d content opts))
     = upsertMemory (storedMemory env d content opts) (memories d).
Proof.
  unfold Store, SaveMemory.
  destruct (failure env (UpsertMemory _)); simpl; [discriminate|]. intros _.
  destruct (Embed env content) as [embedding [e|]]; simpl; [split; reflexivity|].
  match goal with
  | |- context [SaveEmbedding env ?d1 ?id ?v ?model] =>
      pose proof (memories_SaveEmbedding env d1 id v model) as [Hm _];
      destruct (SaveEmbedding env d1 id v model) as [[e|] d2]
  end; simpl in *; split; try reflexivity; exact Hm.
Qed.

End Upsert.



(** ** Recall and trust levels *)

(** The vector search reads the vector index and nothing else: two databases
    with the same [vec_memories] give the same hits, whatever the trust of
    their records. *)
Lemma VectorSearch_reads_index_only (env : Env) (d d' : DB) (queryEmb : list float32)
    (limit : Z) :
  vec_memories d = vec_memories d' ->
  VectorSearch env d queryEmb limit = VectorSearch env d' queryEmb limit.
Proof. intros H. unfold VectorSearch. rewrite H. reflexivity. Qed.

(** C2, evaluated. Two records with the same content, the first left
    [proposed], the second [validated]; a recall of that content with the
    default options returns both, the [proposed] one included, although its
    trust is not among the default trust levels. *)
Theorem C2_default_recall_returns_proposed :
  exists r1 r2 d',
    Recall (scenario.calm "" 5) scenario.twins "apply fix" scenario.defaults
      = (Returns ([r1; r2], None), d')
    /\ trustLevelsOf scenario.defaults = [TrustValidated; TrustProven]
    /\ Memory.ID (SearchResult.Memory r1) = scenario.id1
    /\ Memory.Trust (SearchResult.Memory r1) = TrustProposed
    /\ ~ (Memory.Trust (SearchResult.Memory r1) ∈ trustLevelsOf scenario.defaults)
    /\ Memory.ID (SearchResult.Memory r2) = scenario.id2
    /\ Memory.Trust (SearchResult.Memory r2) = TrustValidated
    /\ Memory.Content (SearchResult.Memory r1) = Memory.Content (SearchResult.Memory r2).
Proof.
  do 3 eexists. split; [vm_compute; reflexivity|].
  do 3 (split; [reflexivity|]).
  split; [|split; [reflexivity|split; reflexivity]].
  change (~ (TrustProposed ∈ [TrustValidated; TrustProven])).
  intros H. repeat (apply elem_of_cons in H as [H|H]; [discriminate|]). inversion H.
Qed.

(** ** Delete *)

Lemma findMemory_deleted (id : string) (rows : list Memory.t) :
  findMemory id (List.filter (fun r => idIsNot id (Memory.ID r)) rows) = None.
Proof.
  unfold findMemory, idIsNot. induction rows as [|r rows IH]; simpl; [reflexivity|].
  destruct (String.eqb (Memory.ID r) id) eqn:E; simpl; [exact IH|].
  rewrite E. exact IH.
Qed.

Lemma DeleteMemory_memories (env : Env) (d d' : DB) (id : string) :
  DeleteMemory env d id = (None, d') ->
  memories d' = List.filter (fun r => idIsNot id (Memory.ID r)) (memories d).
Proof.
  unfold DeleteMemory. destruct (failure env (DeleteMemories id)); [discriminate|].
  destruct (foreign_keys d && _); intros [= <-]; reflexivity.
Qed.

(** After a successful delete, [Get] reports no record. *)
Lemma Get_after_Delete (env env' : Env) (d d' : DB) (id : string) :
  Delete env d id = (None, d') ->
  failure env' (SelectMemory id) = None ->
  Get env' d' id = (None, None).
Proof.
  intros Hdel Hread. unfold Get, GetMemory. rewrite Hread.
  rewrite (DeleteMemory_memories env d d' id Hdel), findMemory_deleted. reflexivity.
Qed.

(** A recall returns only records that [GetMemory] finds in the database the
    call started from. *)
Lemma Recall_returns_fetched (env : Env) (d d' : DB) (query : string)
    (opts : RecallOptions.t) (rs : list SearchResult.t) (r : SearchResult.t) :
  Recall env d query opts = (Returns (rs, None), d') -> r ∈ rs ->
  findMemory (Memory.ID (SearchResult.Memory r)) (memories d) <> None.
Proof.
  intros H Hr. apply Recall_returns in H as (_ & _ & -> & _).
  assert (Hin : (Memory.ID (SearchResult.Memory r), SearchResult.Score r)
                ∈ idsAndScores (results (scoreHits env d (ftsHitsOf env d query opts)
                                           (minScoreOf opts) (vecHitsOf env d query opts)))).
  { apply elem_of_take in Hr as (i & Hr & _). apply list_elem_of_lookup_2 in Hr.
    unfold idsAndScores. apply list_elem_of_fmap. exists r. split; [reflexivity|exact Hr]. }
  rewrite scoreHits_order in Hin. unfold scored in Hin.
  apply list_elem_of_fmap in Hin as (h & Heq & Hin).
  apply list_elem_of_In, List.filter_In in Hin as [_ Hkeep].
  apply andb_true_iff in Hkeep as [Hf _].
  injection Heq as -> _. unfold fetched, GetMemory in Hf.
  destruct (failure env (SelectMemory (MemoryID h))); [discriminate|].
  destruct (findMemory (MemoryID h) (memories d)); [discriminate|discriminate].
Qed.

(** After a successful delete, no recall on the resulting database returns
    the id. *)
Lemma Recall_after_Delete (env env' : Env) (d d' d'' : DB) (id query : string)
    (opts : RecallOptions.t) (rs : list SearchResult.t) (r : SearchResult.t) :
  Delete env d id = (None, d') ->
  Recall env' d' query opts = (Returns (rs, None), d'') -> r ∈ rs ->
  Memory.ID (SearchResult.Memory r) <> id.
Proof.
  intros Hdel HR Hr Hid. apply (Recall_returns_fetched _ _ _ _ _ _ _ HR Hr).
  rewrite Hid, (DeleteMemory_memories env d d' id Hdel). apply findMemory_deleted.
Qed.

(** On a connection that enforces foreign keys, the delete of an existing
    record takes the edges touching it along. *)
Lemma Delete_cascades_when_enforced (env : Env) (d d' : DB) (id : string) (r : Relation.t) :
  foreign_keys d = true -> hasMemory d id = true ->
  Delete env d id = (None, d') -> r ∈ relations d' ->
  Relation.FromID r <> id /\ Relation.ToID r <> id.
Proof.
  unfold Delete, DeleteMemory, hasMemory. intros -> ->.
  destruct (failure env (DeleteMemories id)); [discriminate|]. simpl.
  intros [= <-]. simpl. intros Hr.
  apply list_elem_of_In, List.filter_In in Hr as [_ Hr]. apply andb_true_iff in Hr as [H1 H2].
  unfold idIsNot in *. apply negb_true_iff in H1, H2.
  split; apply String.eqb_neq; assumption.
Qed.

(** C3, evaluated. On the connection [New] opens, foreign keys are not
    enforced. Two records and an edge from the first to the second: the delete
    of the first succeeds and [Get] no longer finds it, but the edge leaving
    it is still in the store and [GetRelations] still reports it for the
    second record. *)
Theorem C3_delete_leaves_edges :
  let env := scenario.calm "" 5 in
  let d' := snd (Delete env scenario.linked scenario.id1) in
  foreign_keys scenario.fresh = false
  /\ fst (Delete env scenario.linked scenario.id1) = None
  /\ Get env d' scenario.id1 = (None, None)
  /\ (exists r, r ∈ relations d' /\ Relation.FromID r = scenario.id1)
  /\ (exists r, fst (GetRelations env d' scenario.id2) = [r]
                /\ Relation.FromID r = scenario.id1 /\ Relation.ToID r = scenario.id2).
Proof.
  intros env d'. subst d' env. split; [reflexivity|].
  split; [vm_compute; reflexivity|]. split; [vm_compute; reflexivity|].
  split.
  - eexists. split; [vm_compute; left|vm_compute; reflexivity].
  - eexists. split; [vm_compute; reflexivity|]. split; vm_compute; reflexivity.
Qed.

(** * Further properties of the code *)

Import facts.

(** ** Relations *)

(** X1. [Relate] checks both endpoints before it writes: when the lookup of
    the source finds no record (or fails) it returns the error "source memory
    not found", and when the source is found but the target is not, "target
    memory not found"; in both cases the database is left as it was. *)
Theorem X1_relate_requires_endpoints (env : Env) (d : DB) (fromID toID : string)
    (relType : RelationType) (note : string) :
  (fst (GetMemory env d fromID) = None ->
     Relate env d fromID toID relType note
     = ((None, Some ("source memory not found: " +:+ fromID)), d))
  /\ (forall m, GetMemory env d fromID = (Some m, None) ->
        fst (GetMemory env d toID) = None ->
        Relate env d fromID toID relType note
        = ((None, Some ("target memory not found: " +:+ toID)), d)).
Proof.
  split.
  - intros H. unfold Relate. destruct (GetMemory env d fromID) as [[m|] [e|]];
      simpl in H; try discriminate; reflexivity.
  - intros m Hm H. unfold Relate. rewrite Hm.
    destruct (GetMemory env d toID) as [[m'|] [e|]]; simpl in H; try discriminate; reflexivity.
Qed.

Lemma X1_relate_requires_endpoints_witness :
  Relate (scenario.calm scenario.id3 9) scenario.afterDelete scenario.id1 scenario.id2
    RelSolves ""
  = ((None, Some ("source memory not found: " +:+ scenario.id1)), scenario.afterDelete)
  /\ Relate (scenario.calm scenario.id3 9) scenario.afterDelete scenario.id2 scenario.id1
       RelSolves ""
     = ((None, Some ("target memory not found: " +:+ scenario.id1)), scenario.afterDelete).
Proof.
  split.
  - apply (proj1 (X1_relate_requires_endpoints (scenario.calm scenario.id3 9)
                    scenario.afterDelete scenario.id1 scenario.id2 RelSolves "")).
    vm_compute. reflexivity.
  - eapply (proj2 (X1_relate_requires_endpoints (scenario.calm scenario.id3 9)
                     scenario.afterDelete scenario.id2 scenario.id1 RelSolves "")).
    + vm_compute. reflexivity.
    + vm_compute. reflexivity.
Defined.

(** What a successful [Relate] leaves behind. *)
Lemma Relate_success (env : Env) (d d' : DB) (fromID toID : string)
    (relType : RelationType) (note : string) (r : Relation.t) :
  Relate env d fromID toID relType note = ((Some r, None), d') ->
  r = Relation.mk (generateID env) fromID toID relType note (timeNow env 0)
  /\ relations d' = relations d ++ [storedRelation r]
  /\ memories d' = memories d
  /\ (forall x, x ∈ relations d -> Relation.ID x <> Relation.ID r).
Proof.
  unfold Relate.
  destruct (GetMemory env d fromID) as [[m1|] [e1|]]; try discriminate.
  destruct (GetMemory env d toID) as [[m2|] [e2|]]; try discriminate.
  unfold SaveRelation.
  destruct (failure env (InsertRelation _)); [discriminate|].
  destruct (existsb _ (relations d)) eqn:Hex; [discriminate|].
  destruct (foreign_keys d && _); [discriminate|].
  intros [= <- <-]. simpl. repeat split.
  intros x Hx Heq. apply not_true_iff_false in Hex. apply Hex.
  apply existsb_exists. exists x. split; [apply list_elem_of_In, Hx|].
  apply String.eqb_eq, Heq.
Qed.

Lemma filter_snoc {A} (f : A -> bool) (l : list A) (x : A) :
  List.filter f (l ++ [x]) = List.filter f l ++ (if f x then [x] else []).
Proof. rewrite List.filter_app. reflexivity. Qed.

(** X2. After a successful [Relate] between two different records, the
    relations of the source are the ones it had, with the new edge added once
    among the outgoing ones, and the relations of the target are the ones it
    had, with the new edge added once at the end; the edge carries the two
    ids and the type given, and its id is new among the stored relations. *)
Theorem X2_relate_then_get_relations (env env' : Env) (d d' : DB) (fromID toID : string)
    (relType : RelationType) (note : string) (r : Relation.t) :
  Relate env d fromID toID relType note = ((Some r, None), d') ->
  fromID <> toID ->
  failure env' (SelectRelationsFrom fromID) = None ->
  failure env' (SelectRelationsTo fromID) = None ->
  failure env' (SelectRelationsFrom toID) = None ->
  failure env' (SelectRelationsTo toID) = None ->
  let edge := storedRelation r in
  GetRelations env' d' fromID
  = (fst (GetRelationsFrom env' d fromID) ++ [edge] ++ fst (GetRelationsTo env' d fromID), None)
  /\ GetRelations env' d' toID
     = (fst (GetRelations env' d toID) ++ [edge], None)
  /\ Relation.FromID edge = fromID /\ Relation.ToID edge = toID
  /\ Relation.Type_ edge = relType
  /\ (forall x, x ∈ relations d -> Relation.ID x <> Relation.ID edge).
Proof.
  intros HR Hne H1 H2 H3 H4 edge.
  destruct (Relate_success _ _ _ _ _ _ _ _ HR) as (Hr & Hrel & _ & Hfresh).
  assert (Hf : Relation.FromID edge = fromID) by (subst r; reflexivity).
  assert (Ht : Relation.ToID edge = toID) by (subst r; reflexivity).
  assert (E1 : String.eqb fromID toID = false) by (apply String.eqb_neq, Hne).
  assert (E2 : String.eqb toID fromID = false) by (apply String.eqb_neq; congruence).
  unfold GetRelations, GetRelationsFrom, GetRelationsTo.
  rewrite H1, H2, H3, H4, Hrel, !filter_snoc. fold edge.
  rewrite Hf, Ht, !String.eqb_refl, E1, E2. simpl.
  rewrite !app_nil_r. repeat split.
  - rewrite <- app_assoc. reflexivity.
  - rewrite <- app_assoc. reflexivity.
  - subst r. reflexivity.
  - exact Hfresh.
Qed.

Lemma X2_relate_then_get_relations_witness :
  let env := scenario.calm scenario.id3 9 in
  let r := Relation.mk scenario.id3 scenario.id1 scenario.id2 RelSolves "" (scenario.clock 9 0) in
  let d' := snd (Relate env scenario.pair scenario.id1 scenario.id2 RelSolves "") in
  Relate env scenario.pair scenario.id1 scenario.id2 RelSolves "" = ((Some r, None), d')
  /\ scenario.id1 <> scenario.id2
  /\ fst (GetRelations env d' scenario.id1) = [storedRelation r]
  /\ fst (GetRelations env d' scenario.id2) = [storedRelation r].
Proof.
  intros env r d'.
  assert (HR : Relate env scenario.pair scenario.id1 scenario.id2 RelSolves ""
               = ((Some r, None), d')) by (vm_compute; reflexivity).
  assert (Hne : scenario.id1 <> scenario.id2) by discriminate.
  destruct (X2_relate_then_get_relations env env scenario.pair d' scenario.id1 scenario.id2
              RelSolves "" r HR Hne eq_refl eq_refl eq_refl eq_refl) as (H1 & H2 & _).
  split; [exact HR|]. split; [exact Hne|]. split.
  - exact (eq_trans (f_equal fst H1) eq_refl).
  - exact (eq_trans (f_equal fst H2) eq_refl).
Defined.

(** X3. An edge from a record to itself is reported twice by
    [GetRelations]: once among the outgoing and once among the incoming
    relations. *)
Theorem X3_self_edge_reported_twice (env env' : Env) (d d' : DB) (id : string)
    (relType : RelationType) (note : string) (r : Relation.t) :
  Relate env d id id relType note = ((Some r, None), d') ->
  failure env' (SelectRelationsFrom id) = None ->
  failure env' (SelectRelationsTo id) = None ->
  GetRelations env' d' id
  = (fst (GetRelationsFrom env' d id) ++ [storedRelation r]
       ++ fst (GetRelationsTo env' d id) ++ [storedRelation r], None).
Proof.
  intros HR H1 H2.
  destruct (Relate_success _ _ _ _ _ _ _ _ HR) as (Hr & Hrel & _ & _).
  assert (Hf : Relation.FromID (storedRelation r) = id) by (subst r; reflexivity).
  assert (Ht : Relation.ToID (storedRelation r) = id) by (subst r; reflexivity).
  unfold GetRelations, GetRelationsFrom, GetRelationsTo.
  rewrite H1, H2, Hrel, !filter_snoc, Hf, Ht, !String.eqb_refl. simpl.
  rewrite <- !app_assoc. reflexivity.
Qed.

Lemma X3_self_edge_reported_twice_witness :
  let env := scenario.calm scenario.id3 9 in
  let r := Relation.mk scenario.id3 scenario.id1 scenario.id1 RelRelatedTo ""
             (scenario.clock 9 0) in
  let d' := snd (Relate env scenario.twins scenario.id1 scenario.id1 RelRelatedTo "") in
  Relate env scenario.twins scenario.id1 scenario.id1 RelRelatedTo "" = ((Some r, None), d')
  /\ fst (GetRelations env d' scenario.id1) = [storedRelation r; storedRelation r].
Proof.
  intros env r d'.
  assert (HR : Relate env scenario.twins scenario.id1 scenario.id1 RelRelatedTo ""
               = ((Some r, None), d')) by (vm_compute; reflexivity).
  split; [exact HR|].
  exact (eq_trans (f_equal fst (X3_self_edge_reported_twice env env scenario.twins d'
                                  scenario.id1 RelRelatedTo "" r HR eq_refl eq_refl))
                  eq_refl).
Defined.

(** ** Validate and Delete *)

Lemma set_memories_same (d : DB) : set_memories d (memories d) = d.
Proof. destruct d. reflexivity. Qed.

Lemma map_setTrust_absent (env : Env) (id : string) (trust : TrustLevel)
    (rows : list Memory.t) :
  findMemory id rows = None -> map (setTrust env id trust) rows = rows.
Proof.
  unfold findMemory. induction rows as [|r rows IH]; simpl; [reflexivity|].
  unfold setTrust at 1. destruct (String.eqb (Memory.ID r) id); [discriminate|].
  intros H. rewrite IH by exact H. reflexivity.
Qed.

Lemma findMemory_setTrust (env : Env) (id x : string) (trust : TrustLevel)
    (rows : list Memory.t) :
  findMemory id (map (setTrust env x trust) rows)
  = setTrust env x trust <$> findMemory id rows.
Proof.
  induction rows as [|r rows IH]; [reflexivity|]. simpl map. rewrite !findMemory_cons.
  assert (E : Memory.ID (setTrust env x trust r) = Memory.ID r).
  { unfold setTrust. destruct (String.eqb (Memory.ID r) x); reflexivity. }
  rewrite E. destruct (String.eqb (Memory.ID r) id); [|exact IH].
  simpl. f_equal. unfold setTrust. simpl.
  destruct (String.eqb (Memory.ID r) x); reflexivity.
Qed.

(** X4. [Validate] does not check that the record exists: on an id that no
    record has it reports success and leaves the database exactly as it
    was. *)
Theorem X4_validate_missing_is_silent (env : Env) (d : DB) (id : string) (trust : TrustLevel) :
  findMemory id (memories d) = None ->
  failure env (UpdateTrustStmt id) = None ->
  Validate env d id trust = (None, d).
Proof.
  intros Hnone Hok. unfold Validate, UpdateTrust. rewrite Hok.
  rewrite map_setTrust_absent by exact Hnone. rewrite set_memories_same. reflexivity.
Qed.

Lemma X4_validate_missing_is_silent_witness :
  findMemory scenario.id3 (memories scenario.twins) = None
  /\ Validate (scenario.calm "" 9) scenario.twins scenario.id3 TrustProven
     = (None, scenario.twins).
Proof.
  split; [reflexivity|].
  apply X4_validate_missing_is_silent; reflexivity.
Defined.

(** X5. After a successful [Validate] of an existing record, [Get] returns
    that record with the trust level given (whatever string it is) and the
    update time of the call, cut to the second; every other field is kept,
    and every other record is read back as before. *)
Theorem X5_validate_then_get (env env' : Env) (d d' : DB) (id : string) (trust : TrustLevel)
    (r : Memory.t) :
  findMemory id (memories d) = Some r ->
  Validate env d id trust = (None, d') ->
  failure env' (SelectMemory id) = None ->
  Get env' d' id = (Some (trusted trust (time_Now env) r), None)
  /\ (forall other, other <> id ->
        findMemory other (memories d') = findMemory other (memories d)).
Proof.
  intros Hr HV Hread. unfold Validate, UpdateTrust in HV.
  destruct (failure env (UpdateTrustStmt id)); [discriminate|].
  injection HV as <-. simpl. split.
  - unfold Get, GetMemory. rewrite Hread. simpl.
    rewrite findMemory_setTrust, Hr. simpl.
    unfold setTrust, trusted. rewrite (findMemory_ID _ _ _ Hr), String.eqb_refl. reflexivity.
  - intros other Hne. rewrite findMemory_setTrust.
    destruct (findMemory other (memories d)) as [r'|] eqn:E; [|reflexivity]. simpl.
    unfold setTrust. rewrite (findMemory_ID _ _ _ E).
    destruct (String.eqb_spec other id); [contradiction|reflexivity].
Qed.

Lemma X5_validate_then_get_witness :
  let env := scenario.calm "" 9 in
  let d' := snd (Validate env scenario.twins scenario.id1 "canonical") in
  exists r,
    findMemory scenario.id1 (memories scenario.twins) = Some r
    /\ Validate env scenario.twins scenario.id1 "canonical" = (None, d')
    /\ Get env d' scenario.id1 = (Some (trusted "canonical" (time_Now env) r), None).
Proof.
  intros env d'. eexists. split; [reflexivity|].
  assert (HV : Validate env scenario.twins scenario.id1 "canonical" = (None, d'))
    by reflexivity.
  split; [exact HV|].
  exact (proj1 (X5_validate_then_get env env scenario.twins d' scenario.id1 "canonical" _
                  eq_refl HV eq_refl)).
Defined.

Lemma filter_idIsNot_absent (id : string) (rows : list Memory.t) :
  findMemory id rows = None ->
  List.filter (fun r => idIsNot id (Memory.ID r)) rows = rows.
Proof.
  unfold findMemory, idIsNot. induction rows as [|r rows IH]; simpl; [reflexivity|].
  destruct (String.eqb (Memory.ID r) id); [discriminate|]. simpl.
  intros H. rewrite IH by exact H. reflexivity.
Qed.

Lemma hasMemory_absent (d : DB) (id : string) :
  findMemory id (memories d) = None -> hasMemory d id = false.
Proof.
  unfold hasMemory, findMemory. induction (memories d) as [|r rows IH]; simpl; [reflexivity|].
  destruct (String.eqb (Memory.ID r) id); [discriminate|]. exact IH.
Qed.

(** X6. [Delete] does not check that the record exists: on an id that no
    record has it reports success and changes nothing. In particular a second
    delete of the same id, after a successful first one, is a no-op. *)
Theorem X6_delete_missing_is_noop (env env2 : Env) (d d' : DB) (id : string) :
  failure env2 (DeleteMemories id) = None ->
  (findMemory id (memories d) = None -> Delete env2 d id = (None, d))
  /\ (Delete env d id = (None, d') -> Delete env2 d' id = (None, d')).
Proof.
  intros Hok.
  assert (Hnoop : forall x, findMemory id (memories x) = None -> Delete env2 x id = (None, x)).
  { intros x Hnone. unfold Delete, DeleteMemory. rewrite Hok.
    fold (hasMemory x id). rewrite (hasMemory_absent x id Hnone), andb_false_r.
    rewrite filter_idIsNot_absent by exact Hnone. rewrite set_memories_same. reflexivity. }
  split; [apply Hnoop|].
  intros Hdel. apply Hnoop.
  rewrite (DeleteMemory_memories env d d' id Hdel). apply findMemory_deleted.
Qed.

Lemma X6_delete_missing_is_noop_witness :
  Delete (scenario.calm "" 9) scenario.afterDelete scenario.id1 = (None, scenario.afterDelete).
Proof.
  apply (proj1 (X6_delete_missing_is_noop (scenario.calm "" 9) (scenario.calm "" 9)
                  scenario.afterDelete scenario.afterDelete scenario.id1 eq_refl)).
  reflexivity.
Defined.

Lemma findMemory_filter_other (id other : string) (rows : list Memory.t) :
  other <> id ->
  findMemory other (List.filter (fun r => idIsNot id (Memory.ID r)) rows)
  = findMemory other rows.
Proof.
  intros Hne. unfold findMemory, idIsNot. induction rows as [|r rows IH]; simpl; [reflexivity|].
  destruct (String.eqb_spec (Memory.ID r) id) as [E|E]; simpl.
  - destruct (String.eqb_spec (Memory.ID r) other) as [E'|E']; [congruence|exact IH].
  - destruct (String.eqb (Memory.ID r) other); [reflexivity|exact IH].
Qed.

(** X7. A successful [Delete] removes nothing from the vector index, whether
    or not the connection enforces foreign keys, and it leaves every record
    with another id in place. *)
Theorem X7_delete_keeps_index_and_others (env : Env) (d d' : DB) (id : string) :
  Delete env d id = (None, d') ->
  vec_memories d' = vec_memories d
  /\ (forall other, other <> id ->
        findMemory other (memories d') = findMemory other (memories d)).
Proof.
  intros Hdel. split.
  - unfold Delete, DeleteMemory in Hdel.
    destruct (failure env (DeleteMemories id)); [discriminate|].
    destruct (foreign_keys d && _); injection Hdel as <-; reflexivity.
  - intros other Hne. rewrite (DeleteMemory_memories env d d' id Hdel).
    apply findMemory_filter_other, Hne.
Qed.

Lemma X7_delete_keeps_index_and_others_witness :
  let d' := snd (Delete (scenario.calm "" 9) scenario.twins scenario.id1) in
  Delete (scenario.calm "" 9) scenario.twins scenario.id1 = (None, d')
  /\ vec_memories d' = vec_memories scenario.twins
  /\ In scenario.id1 (map fst (vec_memories d')).
Proof.
  intros d'.
  assert (H : Delete (scenario.calm "" 9) scenario.twins scenario.id1 = (None, d'))
    by reflexivity.
  split; [exact H|]. split.
  - exact (proj1 (X7_delete_keeps_index_and_others _ _ _ _ H)).
  - left. reflexivity.
Defined.

(** ** Store *)

(** X8. After a successful [Store], [Get] on the id of the returned memory
    returns a record with the same id, content, type, topic key, trust and
    access count, and the returned update time cut to the second. Its tags
    and metadata are those of the returned memory as JSON keeps them: each
    byte that is not part of valid UTF-8 replaced by U+FFFD, two keys of the
    extra data that become equal merged. Reading the record again gives the
    same record. *)
Theorem X8_store_then_get (env env' : Env) (d : DB) (content : string) (opts : StoreOptions.t) :
  let r := Store env d content opts in
  stored_err r = None ->
  (forall id, failure env' (SelectMemory id) = None) ->
  exists m row,
    stored_memory r = Some m
    /\ Get env' (stored_db r) (Memory.ID m) = (Some row, None)
    /\ Memory.ID row = Memory.ID m
    /\ Memory.Content row = content
    /\ Memory.Content m = content
    /\ Memory.Type_ row = Memory.Type_ m
    /\ Memory.TopicKey row = Memory.TopicKey m
    /\ Memory.Tags row = jsonTags (Memory.Tags m)
    /\ Memory.Trust row = Memory.Trust m
    /\ Memory.Metadata row = jsonMetadata (Memory.Metadata m)
    /\ Memory.AccessCnt row = Memory.AccessCnt m
    /\ Memory.UpdatedAt row = RFC3339 (Memory.UpdatedAt m)
    /\ scanMemory row = row.
Proof.
  intros r Herr Hread. subst r.
  destruct (Store_memories env d content opts Herr) as [Hret Hmem].
  set (m := storedMemory env d content opts) in *.
  exists m, (upsertedRow m (memories d)).
  split; [exact Hret|]. split.
  { unfold Get, GetMemory. rewrite Hread, Hmem, find_upsertMemory. reflexivity. }
  assert (Hc : Memory.Content m = content).
  { unfold m, storedMemory. destruct (lookupExisting env d opts); reflexivity. }
  assert (Hs : scanMemory (upsertedRow m (memories d)) = upsertedRow m (memories d))
    by apply scanMemory_upsertedRow.
  revert Hs. unfold upsertedRow.
  destruct (findMemory (Memory.ID m) (memories d)) as [old|] eqn:E; simpl; intros Hs.
  - apply findMemory_ID in E. repeat split; assumption.
  - repeat split; assumption.
Qed.

Lemma X8_store_then_get_witness :
  let env := scenario.calm scenario.id3 9 in
  let opts := StoreOptions.mk "t/1" (Some [String (Ascii.ascii_of_nat 255) "go"])
                "" "" "" "cli" ∅ in
  let r := Store env scenario.twins "v2" opts in
  stored_err r = None
  /\ exists m row,
       stored_memory r = Some m
       /\ Get env (stored_db r) (Memory.ID m) = (Some row, None)
       /\ Memory.Content row = "v2"
       /\ Memory.Tags m = Some [String (Ascii.ascii_of_nat 255) "go"]
       /\ Memory.Tags row = Some [RuneError +:+ "go"].
Proof.
  intros env opts r. subst env opts r.
  assert (He : stored_err (Store (scenario.calm scenario.id3 9) scenario.twins "v2"
                             (StoreOptions.mk "t/1" (Some [String (Ascii.ascii_of_nat 255) "go"])
                                "" "" "" "cli" ∅)) = None)
    by (vm_compute; reflexivity).
  split; [exact He|].
  pose proof (X8_store_then_get (scenario.calm scenario.id3 9) (scenario.calm scenario.id3 9)
                scenario.twins "v2"
                (StoreOptions.mk "t/1" (Some [String (Ascii.ascii_of_nat 255) "go"])
                   "" "" "" "cli" ∅) He (fun _ => eq_refl))
    as (m & row & H1 & H2 & _ & H3 & _ & _ & _ & H4 & _).
  exists m, row.
  assert (Hm : Memory.Tags m = Some [String (Ascii.ascii_of_nat 255) "go"]).
  { vm_compute in H1. injection H1 as <-. reflexivity. }
  split; [exact H1|]. split; [exact H2|]. split; [exact H3|]. split; [exact Hm|].
  rewrite H4, Hm. reflexivity.
Defined.

(** X9. A successful [Store] without topic key, under an id that no record
    has, appends exactly one row and touches no other: the new row has the
    content given, no accesses, the type and trust of the options or, where
    they are empty, [general] and [proposed]. *)
Theorem X9_store_without_key_appends (env : Env) (d : DB) (content : string)
    (opts : StoreOptions.t) :
  let r := Store env d content opts in
  StoreOptions.TopicKey opts = "" ->
  findMemory (generateID env) (memories d) = None ->
  stored_err r = None ->
  exists row,
    memories (stored_db r) = memories d ++ [row]
    /\ Memory.ID row = generateID env
    /\ Memory.Content row = content
    /\ Memory.AccessCnt row = 0
    /\ Memory.Type_ row = (if String.eqb (StoreOptions.Type_ opts) "" then TypeGeneral
                           else StoreOptions.Type_ opts)
    /\ Memory.Trust row = (if String.eqb (StoreOptions.Trust opts) "" then TrustProposed
                           else StoreOptions.Trust opts)
    /\ Memory.CreatedAt row = RFC3339 (timeNow env 0)
    /\ Memory.UpdatedAt row = RFC3339 (timeNow env 1).
Proof.
  intros r Hk Hfresh Herr. subst r.
  destruct (Store_memories env d content opts Herr) as [_ Hmem].
  assert (Hm : storedMemory env d content opts = create env content opts).
  { unfold storedMemory, lookupExisting. rewrite Hk. reflexivity. }
  rewrite Hm in Hmem. exists (insertedRow (create env content opts)).
  split; [|repeat split].
  rewrite Hmem. clear Hmem Hm Herr.
  change (generateID env) with (Memory.ID (create env content opts)) in Hfresh.
  revert Hfresh. generalize (create env content opts). intros m.
  unfold findMemory. induction (memories d) as [|x rows IH]; simpl; [reflexivity|].
  destruct (String.eqb (Memory.ID x) (Memory.ID m)); [discriminate|].
  intros H. rewrite IH by exact H. reflexivity.
Qed.

Lemma X9_store_without_key_appends_witness :
  let env := scenario.calm scenario.id3 9 in
  let r := Store env scenario.twins "note" (scenario.plain "") in
  findMemory (generateID env) (memories scenario.twins) = None
  /\ stored_err r = None
  /\ exists row,
       memories (stored_db r) = memories scenario.twins ++ [row]
       /\ Memory.Type_ row = TypeGeneral /\ Memory.Trust row = TrustProposed.
Proof.
  intros env r.
  assert (Hf : findMemory (generateID env) (memories scenario.twins) = None) by reflexivity.
  assert (He : stored_err r = None) by reflexivity.
  split; [exact Hf|]. split; [exact He|].
  destruct (X9_store_without_key_appends env scenario.twins "note" (scenario.plain "")
              eq_refl Hf He) as (row & H1 & _ & _ & _ & H2 & H3 & _).
  exists row. auto.
Defined.

(** X10. When the write of the record fails, [Store] returns no memory and
    the wrapped error, leaves the database as it was, and does not go on to
    the embedding: nothing is written to standard error. *)
Theorem X10_store_save_failure (env : Env) (d : DB) (content : string) (opts : StoreOptions.t)
    (e : error) :
  failure env (UpsertMemory (Memory.ID (storedMemory env d content opts))) = Some e ->
  Store env d content opts
  = Build_Stored None (Some ("failed to save memory: " +:+ e)) d [].
Proof.
  intros H. unfold Store, SaveMemory. rewrite H. reflexivity.
Qed.

Lemma X10_store_save_failure_witness :
  let broken := fun st => match st with UpsertMemory _ => true | _ => false end in
  Store (scenario.faulty broken scenario.id3 9) scenario.twins "note" (scenario.plain "")
  = Build_Stored None (Some "failed to save memory: disk I/O error") scenario.twins [].
Proof.
  intros broken.
  exact (X10_store_save_failure (scenario.faulty broken scenario.id3 9) scenario.twins
           "note" (scenario.plain "") "disk I/O error" eq_refl).
Defined.

(** ** Store: what it keeps unique *)

Section Keys.

Lemma ids_upsertMemory (m : Memory.t) (rows : list Memory.t) :
  map Memory.ID (upsertMemory m rows)
  = if existsb (fun r => String.eqb (Memory.ID r) (Memory.ID m)) rows
    then map Memory.ID rows
    else map Memory.ID rows ++ [Memory.ID m].
Proof.
  induction rows as [|r rows IH]; simpl; [reflexivity|].
  destruct (String.eqb (Memory.ID r) (Memory.ID m)) eqn:E; simpl; [reflexivity|].
  rewrite IH. destruct (existsb _ rows); reflexivity.
Qed.

Lemma NoDup_upsertMemory (m : Memory.t) (rows : list Memory.t) :
  NoDup (map Memory.ID rows) -> NoDup (map Memory.ID (upsertMemory m rows)).
Proof.
  intros H. rewrite ids_upsertMemory.
  destruct (existsb _ rows) eqn:E; [exact H|].
  apply NoDup_app. split; [exact H|]. split; [|apply NoDup_singleton].
  intros x Hx Hx'. apply list_elem_of_singleton in Hx'. subst x.
  apply not_true_iff_false in E. apply E. apply existsb_exists.
  apply list_elem_of_fmap in Hx as (r & Hr & Hin).
  exists r. split; [apply list_elem_of_In, Hin|]. apply String.eqb_eq. congruence.
Qed.

(** An upsert under one topic key does not add rows to another. *)
Lemma withTopicKey_upsert_other (k : string) (m : Memory.t) (rows : list Memory.t) :
  Memory.TopicKey m <> k ->
  (length (withTopicKey k (upsertMemory m rows)) <= length (withTopicKey k rows))%nat.
Proof.
  intros Hne. assert (E : String.eqb (Memory.TopicKey m) k = false)
    by (apply String.eqb_neq, Hne).
  unfold withTopicKey. induction rows as [|r rows IH]; simpl.
  - rewrite E. simpl. lia.
  - destruct (String.eqb (Memory.ID r) (Memory.ID m)); simpl.
    + rewrite E. destruct (String.eqb (Memory.TopicKey r) k); simpl; lia.
    + destruct (String.eqb (Memory.TopicKey r) k); simpl; lia.
Qed.

(** With unique ids, a row of the table is the one its id finds. *)
Lemma findRow_of_row (rows : list Memory.t) (r : Memory.t) :
  NoDup (map Memory.ID rows) -> In r rows -> findRow (Memory.ID r) rows = Some r.
Proof.
  unfold findRow. induction rows as [|x rows IH]; simpl; [tauto|].
  intros Hnd [->|Hin]; [rewrite String.eqb_refl; reflexivity|].
  apply NoDup_cons in Hnd as [Hx Hnd].
  destruct (String.eqb_spec (Memory.ID x) (Memory.ID r)) as [E|E].
  - exfalso. apply Hx. rewrite E. apply list_elem_of_fmap. exists r.
    split; [reflexivity|apply list_elem_of_In, Hin].
  - apply IH; assumption.
Qed.

Lemma newest_In (rows : list Memory.t) (r : Memory.t) : newest rows = Some r -> In r rows.
Proof.
  revert r. induction rows as [|x rows IH]; simpl; [discriminate|].
  intros r. destruct (newest rows) as [r'|].
  - destruct (updatedAtKey x <? updatedAtKey r'); intros [= <-]; auto.
  - intros [= <-]. auto.
Qed.

Lemma wellKeyed_upsert_create (m : Memory.t) (rows : list Memory.t) :
  wellKeyed rows ->
  (Memory.TopicKey m <> "" -> withTopicKey (Memory.TopicKey m) rows = []) ->
  wellKeyed (upsertMemory m rows).
Proof.
  intros [Hnd Hk] Hfree. split; [apply NoDup_upsertMemory, Hnd|].
  intros k Hne. destruct (String.eqb_spec (Memory.TopicKey m) k) as [E|E].
  - rewrite (withTopicKey_upsert_fresh k m rows); [simpl; lia| |exact E].
    rewrite <- E. apply Hfree. rewrite E. exact Hne.
  - etransitivity; [apply withTopicKey_upsert_other, E|]. apply Hk, Hne.
Qed.

Lemma wellKeyed_upsert_evolve (env : Env) (existing : Memory.t) (content : string)
    (opts : StoreOptions.t) (rows : list Memory.t) :
  wellKeyed rows -> In existing rows ->
  wellKeyed (upsertMemory (evolve env (scanMemory existing) content opts) rows).
Proof.
  intros [Hnd Hk] Hin. split; [apply NoDup_upsertMemory, Hnd|].
  set (m := evolve env (scanMemory existing) content opts).
  intros k Hne. destruct (String.eqb_spec (Memory.TopicKey m) k) as [E|E].
  - assert (Hone : withTopicKey k rows = [existing]).
    { assert (Hin' : In existing (withTopicKey k rows)).
      { apply List.filter_In. split; [exact Hin|]. apply String.eqb_eq. exact E. }
      specialize (Hk k Hne). destruct (withTopicKey k rows) as [|a [|b l]]; simpl in *.
      - tauto.
      - destruct Hin' as [->|[]]. reflexivity.
      - lia. }
    rewrite (withTopicKey_upsert_same k m existing rows Hone); [simpl; lia| |exact E].
    apply (findRow_of_row rows existing Hnd Hin).
  - etransitivity; [apply withTopicKey_upsert_other, E|]. apply Hk, Hne.
Qed.

End Keys.

(** X11. [Store] keeps the table well keyed: if the ids are unique and every
    non-empty topic key has at most one record, then the same holds after any
    [Store] whose lookup by topic key (made when the key is not empty) did
    not fail, whether the call succeeded or not. *)
Theorem X11_store_keeps_keys_unique (env : Env) (d : DB) (content : string)
    (opts : StoreOptions.t) :
  wellKeyed (memories d) ->
  (StoreOptions.TopicKey opts <> "" ->
   failure env (SelectMemoryByTopicKey (StoreOptions.TopicKey opts)) = None) ->
  wellKeyed (memories (stored_db (Store env d content opts))).
Proof.
  intros Hwk Hlook.
  assert (Hup : wellKeyed (upsertMemory (storedMemory env d content opts) (memories d))).
  { unfold storedMemory, lookupExisting, GetMemoryByTopicKey.
    destruct (String.eqb_spec (StoreOptions.TopicKey opts) "") as [E|E].
    - apply wellKeyed_upsert_create; [exact Hwk|]. simpl. intros H. contradiction.
    - rewrite (Hlook E). simpl. destruct (newest (withTopicKey (StoreOptions.TopicKey opts) (memories d)))
        as [existing|] eqn:En.
      + apply wellKeyed_upsert_evolve; [exact Hwk|].
        apply newest_In in En. apply List.filter_In in En as [Hin _]. exact Hin.
      + apply wellKeyed_upsert_create; [exact Hwk|]. simpl. intros _.
        apply newest_None, En. }
  unfold Store, SaveMemory.
  destruct (failure env (UpsertMemory _)); simpl; [exact Hwk|].
  destruct (Embed env content) as [embedding [e|]]; simpl; [exact Hup|].
  match goal with
  | |- context [SaveEmbedding env ?d1 ?id ?v ?model] =>
      pose proof (memories_SaveEmbedding env d1 id v model) as [Hm _];
      destruct (SaveEmbedding env d1 id v model) as [[e|] d2]
  end; simpl in *; rewrite Hm; exact Hup.
Qed.

Lemma wellKeyed_twins : wellKeyed (memories scenario.twins).
Proof.
  split.
  - vm_compute. repeat constructor; intros H; repeat (apply elem_of_cons in H as [H|H];
      [discriminate|]); inversion H.
  - intros k Hne. unfold withTopicKey.
    assert (Hrows : map Memory.TopicKey (memories scenario.twins) = [""; "t/1"])
      by reflexivity.
    destruct (memories scenario.twins) as [|a [|b [|c l]]]; try discriminate.
    injection Hrows as Ha Hb. simpl. rewrite Ha, Hb.
    destruct (String.eqb_spec "" k) as [E|E]; [congruence|].
    destruct (String.eqb "t/1" k); simpl; lia.
Qed.

Lemma X11_store_keeps_keys_unique_witness :
  wellKeyed (memories scenario.twins)
  /\ wellKeyed (memories (stored_db (Store (scenario.calm scenario.id3 9) scenario.twins
                                       "v2" (scenario.plain "t/1")))).
Proof.
  split; [exact wellKeyed_twins|].
  exact (X11_store_keeps_keys_unique (scenario.calm scenario.id3 9) scenario.twins "v2"
           (scenario.plain "t/1") wellKeyed_twins (fun _ => eq_refl)).
Defined.

(** X12. [Store] drops the error of the lookup by topic key. When that
    lookup fails, the call creates a record as if the key were new: with an
    id that no record has, the topic key ends up with one more record than it
    had. *)
Theorem X12_store_lookup_failure_duplicates (env : Env) (d : DB) (content : string)
    (opts : StoreOptions.t) (e : error) :
  let r := Store env d content opts in
  failure env (SelectMemoryByTopicKey (StoreOptions.TopicKey opts)) = Some e ->
  findMemory (generateID env) (memories d) = None ->
  stored_err r = None ->
  stored_memory r = Some (create env content opts)
  /\ countTopicKey (StoreOptions.TopicKey opts) (stored_db r)
     = S (countTopicKey (StoreOptions.TopicKey opts) d).
Proof.
  intros r Hfail Hfresh Herr. subst r.
  destruct (Store_memories env d content opts Herr) as [Hret Hmem].
  assert (Hm : storedMemory env d content opts = create env content opts).
  { unfold storedMemory, lookupExisting, GetMemoryByTopicKey. rewrite Hfail.
    destruct (String.eqb (StoreOptions.TopicKey opts) ""); reflexivity. }
  rewrite Hm in Hret, Hmem. split; [exact Hret|].
  unfold countTopicKey. rewrite Hmem. clear Hmem Hret Hm Herr.
  change (generateID env) with (Memory.ID (create env content opts)) in Hfresh.
  change (StoreOptions.TopicKey opts) with (Memory.TopicKey (create env content opts)).
  revert Hfresh. generalize (create env content opts). intros m.
  unfold findMemory, withTopicKey. induction (memories d) as [|x rows IH]; simpl.
  - rewrite String.eqb_refl. reflexivity.
  - destruct (String.eqb (Memory.ID x) (Memory.ID m)); [discriminate|]. intros H. simpl.
    destruct (String.eqb (Memory.TopicKey x) (Memory.TopicKey m)); simpl; rewrite IH by exact H;
      reflexivity.
Qed.

Lemma X12_store_lookup_failure_duplicates_witness :
  let broken := fun st => match st with SelectMemoryByTopicKey _ => true | _ => false end in
  let r := Store (scenario.faulty broken scenario.id3 9) scenario.twins "v2"
             (scenario.plain "t/1") in
  stored_err r = None
  /\ countTopicKey "t/1" scenario.twins = 1%nat
  /\ countTopicKey "t/1" (stored_db r) = 2%nat.
Proof.
  intros broken r.
  assert (He : stored_err r = None) by reflexivity.
  split; [exact He|]. split; [reflexivity|].
  exact (proj2 (X12_store_lookup_failure_duplicates (scenario.faulty broken scenario.id3 9)
                  scenario.twins "v2" (scenario.plain "t/1") "disk I/O error"
                  eq_refl eq_refl He)).
Defined.

(** ** SaveEmbedding: the vector index *)

Lemma filter_existsb_false {A} (f : A -> bool) (l : list A) :
  existsb f l = false -> List.filter f l = [].
Proof.
  induction l as [|x l IH]; simpl; [reflexivity|].
  destruct (f x); simpl; [discriminate|exact IH].
Qed.

Lemma filter_idem {A} (f : A -> bool) (l : list A) :
  List.filter f (List.filter f l) = List.filter f l.
Proof.
  induction l as [|x l IH]; simpl; [reflexivity|].
  destruct (f x) eqn:E; simpl; [rewrite E, IH; reflexivity|exact IH].
Qed.

(** X13. After a successful [SaveEmbedding] the vector index has exactly one
    row for the memory, holding the vector just saved (delete-then-insert acts
    as an upsert), and the rows of the other memories are the ones it had. *)
Theorem X13_save_embedding_refreshes_index (env : Env) (d d' : DB) (memoryID : string)
    (v : list float32) (model : string) :
  SaveEmbedding env d memoryID v model = (None, d') ->
  List.filter (fun p => String.eqb (fst p) memoryID) (vec_memories d') = [(memoryID, v)]
  /\ List.filter (fun p => idIsNot memoryID (fst p)) (vec_memories d')
     = List.filter (fun p => idIsNot memoryID (fst p)) (vec_memories d).
Proof.
  unfold SaveEmbedding. destruct (failure env (UpsertEmbedding memoryID)); [discriminate|].
  destruct (foreign_keys d && negb (hasMemory d memoryID)); [discriminate|].
  unfold insertVec. destruct (failure env (InsertVec memoryID)); [discriminate|].
  match goal with |- context [existsb ?f ?l] => destruct (existsb f l) eqn:Hex end;
    [discriminate|].
  intros [= <-]. simpl. rewrite !List.filter_app. simpl.
  rewrite String.eqb_refl. unfold idIsNot at 2. rewrite String.eqb_refl. simpl.
  rewrite (filter_existsb_false _ _ Hex), app_nil_r. split; [reflexivity|].
  unfold deleteVec. destruct (failure env (DeleteVec memoryID)); simpl; [reflexivity|].
  apply filter_idem.
Qed.

Lemma X13_save_embedding_refreshes_index_witness :
  let env := scenario.calm "" 9 in
  let d' := snd (SaveEmbedding env scenario.twins scenario.id1 [7; 8] "m") in
  SaveEmbedding env scenario.twins scenario.id1 [7; 8] "m" = (None, d')
  /\ In (scenario.id1, [9]) (vec_memories scenario.twins)
  /\ List.filter (fun p => String.eqb (fst p) scenario.id1) (vec_memories d')
     = [(scenario.id1, [7; 8])].
Proof.
  intros env d'.
  assert (H : SaveEmbedding env scenario.twins scenario.id1 [7; 8] "m" = (None, d'))
    by reflexivity.
  split; [exact H|]. split; [left; reflexivity|].
  exact (proj1 (X13_save_embedding_refreshes_index env scenario.twins d' scenario.id1
                  [7; 8] "m" H)).
Defined.

(** ** Recall: the access counts *)

Section AccessCounts.

Variable env : Env.
Variable fts : list string.
Variable minScore : float64.

Lemma fold_recallStep_db (d : DB) (hits : list VecHit) (st : Loop) :
  sameRows env d (loop_db st) ->
  loop_db (fold_left (recallStep env (list_to_set fts) minScore) hits st)
  = incrementAll env
      (map MemoryID (List.filter (fun h => fetched env d h && passes fts minScore h)
                                 (firstOccurrences (seen st) hits)))
      (loop_db st).
Proof.
  revert st. induction hits as [|vr hits IH]; intros st Hst; simpl; [reflexivity|].
  unfold recallStep at 2.
  destruct (bool_decide (MemoryID vr ∈ seen st)) eqn:Hseen; [apply IH, Hst|].
  simpl. pose proof (Hst (MemoryID vr)) as Hf. rewrite <- !fetched_id in Hf.
  rewrite <- Hf. unfold fetched at 1, passes.
  destruct (GetMemory env (loop_db st) (MemoryID vr)) as [[memory|] [e|]] eqn:HG; simpl;
    try (rewrite IH by exact Hst; reflexivity).
  destruct (Float64.ltb _ minScore) eqn:HS; simpl.
  - rewrite IH by exact Hst. reflexivity.
  - rewrite IH by (simpl; apply sameRows_IncrementAccessCount, Hst). simpl.
    rewrite (GetMemory_ID env _ _ _ HG). reflexivity.
Qed.

(** The rows of the records the loop has not met yet are the ones the call
    started with, and so is every memory it has put in a result. *)
Lemma fold_recallStep_snapshot (d : DB) (hits : list VecHit) (st : Loop) :
  (forall id, id ∉ seen st ->
     findMemory id (memories (loop_db st)) = findMemory id (memories d)) ->
  Forall (fun r => findMemory (Memory.ID (SearchResult.Memory r)) (memories d)
                   = Some (SearchResult.Memory r)) (results st) ->
  Forall (fun r => findMemory (Memory.ID (SearchResult.Memory r)) (memories d)
                   = Some (SearchResult.Memory r))
         (results (fold_left (recallStep env (list_to_set fts) minScore) hits st)).
Proof.
  revert st. induction hits as [|vr hits IH]; intros st Hdb Hres; simpl; [exact Hres|].
  apply IH; unfold recallStep.
  - destruct (bool_decide_reflect (MemoryID vr ∈ seen st)) as [Hin|Hnin]; [exact Hdb|].
    assert (Hskip : forall id, id ∉ {[MemoryID vr]} ∪ seen st ->
              findMemory id (memories (loop_db st)) = findMemory id (memories d)).
    { intros id Hid. apply Hdb. apply not_elem_of_union in Hid as [_ Hid]. exact Hid. }
    destruct (GetMemory env (loop_db st) (MemoryID vr)) as [[memory|] [e|]] eqn:HG;
      try exact Hskip.
    destruct (Float64.ltb _ minScore); [exact Hskip|]. simpl.
    intros id Hid. apply not_elem_of_union in Hid as [Hid1 Hid2].
    rewrite <- (Hdb id Hid2).
    unfold IncrementAccessCount. destruct (failure env (UpdateAccessCount _)); [reflexivity|].
    simpl. rewrite findMemory_bumpAccess.
    destruct (findMemory id (memories (loop_db st))) as [r|] eqn:E; [|reflexivity]. simpl.
    unfold bumpAccess. rewrite (findMemory_ID _ _ _ E), (GetMemory_ID env _ _ _ HG).
    destruct (String.eqb_spec id (MemoryID vr)) as [->|Hne]; [|reflexivity].
    exfalso. apply Hid1, elem_of_singleton. reflexivity.
  - destruct (bool_decide_reflect (MemoryID vr ∈ seen st)) as [Hin|Hnin]; [exact Hres|].
    destruct (GetMemory env (loop_db st) (MemoryID vr)) as [[memory|] [e|]] eqn:HG;
      try exact Hres.
    destruct (Float64.ltb _ minScore); [exact Hres|]. simpl.
    apply Forall_app. split; [exact Hres|]. constructor; [|constructor]. simpl.
    rewrite (GetMemory_ID env _ _ _ HG), <- (Hdb _ Hnin).
    unfold GetMemory in HG. destruct (failure env (SelectMemory (MemoryID vr))); [discriminate|].
    injection HG as HG. exact HG.
Qed.

End AccessCounts.

Lemma firstOccurrences_NoDup (seen : gset string) (hits : list VecHit) :
  NoDup (map MemoryID (firstOccurrences seen hits))
  /\ (forall h, h ∈ firstOccurrences seen hits -> MemoryID h ∉ seen).
Proof.
  revert seen. induction hits as [|h hits IH]; intros seen; simpl.
  - split; [constructor|]. intros h H. inversion H.
  - destruct (bool_decide_reflect (MemoryID h ∈ seen)) as [Hin|Hnin]; [apply IH|].
    destruct (IH ({[MemoryID h]} ∪ seen)) as [Hnd Hout]. split.
    + simpl. constructor; [|exact Hnd].
      intros Hx. apply list_elem_of_fmap in Hx as (h' & Heq & Hh').
      apply (Hout h' Hh'), elem_of_union_l, elem_of_singleton. congruence.
    + intros h' Hh'. apply elem_of_cons in Hh' as [->|Hh']; [exact Hnin|].
      intros Hc. apply (Hout h' Hh'), elem_of_union_r, Hc.
Qed.

Lemma NoDup_map_filter {A B} (f : A -> B) (p : A -> bool) (l : list A) :
  NoDup (map f l) -> NoDup (map f (List.filter p l)).
Proof.
  induction l as [|x l IH]; simpl; [auto|].
  intros H. apply NoDup_cons in H as [Hx Hnd]. destruct (p x); simpl; [|auto].
  constructor; [|auto]. intros Hin. apply Hx.
  apply list_elem_of_fmap in Hin as (y & -> & Hy). apply list_elem_of_fmap.
  exists y. split; [reflexivity|].
  apply list_elem_of_In. apply list_elem_of_In, List.filter_In in Hy as [Hy _]. exact Hy.
Qed.

Lemma keptHits_NoDup (env : Env) (d : DB) (query : string) (opts : RecallOptions.t) :
  NoDup (map MemoryID (keptHits env d query opts)).
Proof. unfold keptHits. apply NoDup_map_filter, firstOccurrences_NoDup. Qed.

Lemma accessed_accessed (n k : Z) (r : Memory.t) :
  accessed k (accessed n r) = accessed (n + k) r.
Proof. unfold accessed. simpl. rewrite Z.add_assoc. reflexivity. Qed.

(** The record under [id] after a run of increments. *)
Lemma findMemory_incrementAll (env : Env) (id : string) (ids : list string) (d : DB)
    (r : Memory.t) :
  failure env (UpdateAccessCount id) = None -> NoDup ids ->
  findMemory id (memories d) = Some r ->
  findMemory id (memories (incrementAll env ids d))
  = Some (accessed (if bool_decide (id ∈ ids) then 1 else 0) r).
Proof.
  intros Hok. unfold incrementAll. revert d r.
  induction ids as [|x ids IH]; intros d r Hnd Hr; simpl.
  - rewrite Hr. f_equal. destruct r. unfold accessed. simpl. rewrite Z.add_0_r. reflexivity.
  - apply NoDup_cons in Hnd as [Hx Hnd].
    destruct (String.eqb_spec x id) as [->|Hne].
    + rewrite (IH _ (accessed 1 r) Hnd).
      * rewrite accessed_accessed. rewrite bool_decide_eq_false_2 by exact Hx.
        rewrite bool_decide_eq_true_2 by (left). reflexivity.
      * unfold IncrementAccessCount. rewrite Hok. simpl.
        rewrite findMemory_bumpAccess, Hr. simpl. unfold bumpAccess, accessed.
        rewrite (findMemory_ID _ _ _ Hr), String.eqb_refl. reflexivity.
    + rewrite (IH _ r Hnd).
      * f_equal. f_equal.
        destruct (bool_decide_reflect (id ∈ ids)) as [Hin|Hnin].
        -- rewrite bool_decide_eq_true_2 by (right; exact Hin). reflexivity.
        -- rewrite bool_decide_eq_false_2; [reflexivity|].
           intros H. apply elem_of_cons in H as [H|H]; congruence.
      * unfold IncrementAccessCount. destruct (failure env (UpdateAccessCount x));
          [exact Hr|]. simpl. rewrite findMemory_bumpAccess, Hr. simpl.
        unfold bumpAccess. rewrite (findMemory_ID _ _ _ Hr).
        destruct (String.eqb_spec id x); [congruence|reflexivity].
Qed.

Lemma Recall_db (env : Env) (d d' : DB) (query : string) (opts : RecallOptions.t)
    (rs : list SearchResult.t) :
  Recall env d query opts = (Returns (rs, None), d') ->
  d' = incrementAll env (map MemoryID (keptHits env d query opts)) d.
Proof.
  intros H.
  assert (HE : snd (Embed env query) = None)
    by (apply Recall_returns in H; tauto).
  assert (HV : snd (VectorSearch env d (queryEmbOf env query) (wrap64 (limitOf opts * 2)))
               = None) by (apply Recall_returns in H; tauto).
  rewrite Recall_proceeds in H by assumption. injection H as _ <-.
  unfold scoreHits. rewrite (fold_recallStep_db env _ _ d); [reflexivity|].
  intros id. reflexivity.
Qed.

(** X14. A successful recall leaves the database it started from with one
    access-count increment for every hit that was kept, in order: the count is
    taken before the results are cut to the limit, so a record that the limit
    cuts off is counted as accessed all the same. For a record whose
    increment does not fail, the count is one more if the record is among the
    kept hits and unchanged otherwise. *)
Theorem X14_recall_counts_every_kept_hit (env : Env) (d d' : DB) (query : string)
    (opts : RecallOptions.t) (rs : list SearchResult.t) :
  Recall env d query opts = (Returns (rs, None), d') ->
  d' = incrementAll env (map MemoryID (keptHits env d query opts)) d
  /\ map (fun r => Memory.ID (SearchResult.Memory r)) rs
     = take (Z.to_nat (limitOf opts)) (map MemoryID (keptHits env d query opts))
  /\ (forall id r, failure env (UpdateAccessCount id) = None ->
        findMemory id (memories d) = Some r ->
        findMemory id (memories d')
        = Some (accessed (if bool_decide (id ∈ map MemoryID (keptHits env d query opts))
                          then 1 else 0) r)).
Proof.
  intros H. pose proof (Recall_db _ _ _ _ _ _ H) as Hdb. split; [exact Hdb|]. split.
  - apply Recall_returns in H as (_ & _ & -> & _).
    assert (Hids : map (fun r => Memory.ID (SearchResult.Memory r))
                     (results (scoreHits env d (ftsHitsOf env d query opts) (minScoreOf opts)
                                 (vecHitsOf env d query opts)))
                   = map MemoryID (keptHits env d query opts)).
    { pose proof (scoreHits_order env d (ftsHitsOf env d query opts) (minScoreOf opts)
                    (vecHitsOf env d query opts)) as Ho.
      apply (f_equal (map fst)) in Ho. unfold idsAndScores, scored in Ho.
      rewrite !List.map_map in Ho. exact Ho. }
    rewrite <- Hids. apply (fmap_take (fun r => Memory.ID (SearchResult.Memory r))).
  - intros id r Hok Hr. rewrite Hdb.
    apply findMemory_incrementAll; [exact Hok|apply keptHits_NoDup|exact Hr].
Qed.

Lemma X14_recall_counts_every_kept_hit_witness :
  let env := scenario.calm "" 5 in
  let opts := RecallOptions.mk 1 (Num 0) [] None [] "" "" in
  let d' := snd (Recall env scenario.twins "apply fix" opts) in
  exists rs r1 r2,
    Recall env scenario.twins "apply fix" opts = (Returns (rs, None), d')
    /\ length rs = 1%nat
    /\ findMemory scenario.id1 (memories d') = Some r1 /\ Memory.AccessCnt r1 = 1
    /\ findMemory scenario.id2 (memories d') = Some r2 /\ Memory.AccessCnt r2 = 1.
Proof.
  intros env opts d'. subst env opts d'.
  eexists. eexists. eexists.
  split; [vm_compute; reflexivity|]. split; [reflexivity|].
  destruct (X14_recall_counts_every_kept_hit (scenario.calm "" 5) scenario.twins
              (snd (Recall (scenario.calm "" 5) scenario.twins "apply fix"
                      (RecallOptions.mk 1 (Num 0) [] None [] "" "")))
              "apply fix" (RecallOptions.mk 1 (Num 0) [] None [] "" "") _ eq_refl) as (_ & _ & Hc).
  split; [vm_compute; reflexivity|]. split; [reflexivity|].
  split; [vm_compute; reflexivity|]. reflexivity.
Defined.

(** X15. The memory in every result of a successful recall is the record as
    the database held it when the call started: the access count it shows is
    the one before the call's own increment. *)
Theorem X15_recall_returns_snapshots (env : Env) (d d' : DB) (query : string)
    (opts : RecallOptions.t) (rs : list SearchResult.t) :
  Recall env d query opts = (Returns (rs, None), d') ->
  Forall (fun r => findMemory (Memory.ID (SearchResult.Memory r)) (memories d)
                   = Some (SearchResult.Memory r)) rs.
Proof.
  intros H. apply Recall_returns in H as (_ & _ & -> & _).
  apply Forall_take. unfold scoreHits.
  apply fold_recallStep_snapshot; [intros id _; reflexivity | constructor].
Qed.

Lemma X15_recall_returns_snapshots_witness :
  let env := scenario.calm "" 5 in
  let d' := snd (Recall env scenario.twins "apply fix" scenario.defaults) in
  exists rs,
    Recall env scenario.twins "apply fix" scenario.defaults = (Returns (rs, None), d')
    /\ Forall (fun r => findMemory (Memory.ID (SearchResult.Memory r))
                           (memories scenario.twins) = Some (SearchResult.Memory r)) rs.
Proof.
  intros env d'. subst env d'. eexists. split; [vm_compute; reflexivity|].
  exact (X15_recall_returns_snapshots (scenario.calm "" 5) scenario.twins _ "apply fix"
           scenario.defaults _ eq_refl).
Defined.

(** ** ListMemories *)

Lemma Permutation_insertDesc {A} (key : A -> Z) (x : A) (l : list A) :
  insertDesc key x l ≡ₚ x :: l.
Proof.
  induction l as [|y l IH]; simpl; [reflexivity|].
  destruct (key x <? key y); [|reflexivity].
  rewrite IH. apply Permutation_swap.
Qed.

Lemma Permutation_sortDesc {A} (key : A -> Z) (l : list A) : sortDesc key l ≡ₚ l.
Proof.
  induction l as [|x l IH]; simpl; [reflexivity|].
  rewrite Permutation_insertDesc, IH. reflexivity.
Qed.

Lemma insertDesc_sorted (x : Memory.t) (l : list Memory.t) :
  byStampDesc l -> byStampDesc (insertDesc updatedAtKey x l).
Proof.
  unfold byStampDesc. induction 1 as [|y l Hl IH Hy]; simpl.
  - repeat constructor.
  - destruct (Z.ltb_spec (updatedAtKey x) (updatedAtKey y)) as [Hlt|Hge].
    + constructor; [exact IH|].
      apply Forall_forall. intros z Hz.
      rewrite (Permutation_insertDesc updatedAtKey x l) in Hz.
      apply elem_of_cons in Hz as [->|Hz]; [lia|].
      eapply Forall_forall in Hy; eassumption.
    + constructor; [constructor; assumption|].
      constructor; [exact Hge|].
      eapply Forall_impl; [exact Hy|]. intros z Hz. simpl in *. lia.
Qed.

Lemma sortDesc_sorted (l : list Memory.t) : byStampDesc (sortDesc updatedAtKey l).
Proof.
  induction l as [|x l IH]; simpl; [constructor|]. apply insertDesc_sorted, IH.
Qed.

Lemma byStampDesc_take (n : nat) (l : list Memory.t) : byStampDesc l -> byStampDesc (take n l).
Proof.
  unfold byStampDesc. intros H. rewrite <- (take_drop n l) in H.
  eapply StronglySorted_app_1_l, H.
Qed.

(** Stamps written at one offset are ordered as their seconds are. *)
Lemma updatedAtKey_oneZone (a b : Memory.t) :
  zone (Memory.UpdatedAt a) = zone (Memory.UpdatedAt b) ->
  updatedAtKey b <= updatedAtKey a ->
  unixNano (Memory.UpdatedAt b) / 10 ^ 9 <= unixNano (Memory.UpdatedAt a) / 10 ^ 9.
Proof.
  unfold updatedAtKey, stampKey, wallClock. intros ->. lia.
Qed.

Lemma byStampDesc_oneZone (l : list Memory.t) : oneZone l -> byStampDesc l -> newestFirst l.
Proof.
  unfold byStampDesc, newestFirst. intros Hz H. induction H as [|x l Hl IH Hx].
  - constructor.
  - constructor.
    + apply IH. intros a b Ha Hb. apply Hz; right; assumption.
    + apply Forall_forall. intros y Hy.
      apply updatedAtKey_oneZone.
      * apply Hz; [left | right; exact Hy].
      * eapply Forall_forall in Hx; [exact Hx | exact Hy].
Qed.

Lemma byStampDesc_scanMemory (l : list Memory.t) :
  byStampDesc l -> byStampDesc (map scanMemory l).
Proof.
  unfold byStampDesc. induction 1 as [|x l Hl IH Hx]; simpl; constructor; [exact IH|].
  apply Forall_forall. intros y Hy. apply list_elem_of_fmap in Hy as (z & -> & Hz).
  exact (proj1 (Forall_forall _ _) Hx z Hz).
Qed.

Lemma newestFirst_scanMemory (l : list Memory.t) :
  newestFirst l -> newestFirst (map scanMemory l).
Proof.
  unfold newestFirst. induction 1 as [|x l Hl IH Hx]; simpl; constructor; [exact IH|].
  apply Forall_forall. intros y Hy. apply list_elem_of_fmap in Hy as (z & -> & Hz).
  exact (proj1 (Forall_forall _ _) Hx z Hz).
Qed.

(** X16. A successful [ListMemories] returns, as [scanMemory] reads them,
    rows of the table that pass every filter that is set, in the descending
    order of the texts of their update stamps; when the stamps of the table
    were all written at one zone offset, that is the most recently updated
    first. With a positive limit it returns at most that many of them; with
    a limit of zero or less it returns every row that passes the filters. *)
Theorem X16_list_filters_orders_limits (env : Env) (d : DB) (opts : RecallOptions.t)
    (rows : list Memory.t) :
  ListMemories env d opts = (rows, None) ->
  exists selected,
    rows = map scanMemory selected
    /\ (forall r, r ∈ selected -> r ∈ memories d /\ listCondition env opts r = true)
    /\ byStampDesc rows
    /\ (oneZone (memories d) -> newestFirst rows)
    /\ (0 < RecallOptions.Limit opts ->
          length rows = Nat.min (Z.to_nat (RecallOptions.Limit opts))
                          (length (List.filter (listCondition env opts) (memories d))))
    /\ (RecallOptions.Limit opts <= 0 ->
          selected ≡ₚ List.filter (listCondition env opts) (memories d)).
Proof.
  unfold ListMemories. destruct (failure env SelectMemories); [discriminate|].
  intros [= <-].
  set (sorted := sortDesc updatedAtKey (List.filter (listCondition env opts) (memories d))).
  set (selected := if 0 <? RecallOptions.Limit opts
                   then take (Z.to_nat (RecallOptions.Limit opts)) sorted
                   else sorted).
  exists selected. split; [reflexivity|].
  assert (Hin : forall r, r ∈ sorted ->
                  r ∈ memories d /\ listCondition env opts r = true).
  { intros r Hr. unfold sorted in Hr. rewrite Permutation_sortDesc in Hr.
    apply list_elem_of_In, List.filter_In in Hr as [H1 H2].
    split; [apply list_elem_of_In, H1|exact H2]. }
  assert (Hs : byStampDesc sorted) by apply sortDesc_sorted.
  assert (Hlen : length sorted = length (List.filter (listCondition env opts) (memories d))).
  { apply Permutation_length, Permutation_sortDesc. }
  assert (Hcut : forall r, r ∈ selected ->
                   r ∈ memories d /\ listCondition env opts r = true).
  { intros r Hr. apply Hin. unfold selected in Hr.
    destruct (0 <? RecallOptions.Limit opts); [|exact Hr].
    apply elem_of_take in Hr as (i & Hr & _). eapply list_elem_of_lookup_2, Hr. }
  assert (Hord : byStampDesc selected).
  { unfold selected. destruct (0 <? RecallOptions.Limit opts); [apply byStampDesc_take|];
      exact Hs. }
  split; [exact Hcut|]. split; [apply byStampDesc_scanMemory, Hord|]. split.
  { intros Hz. apply newestFirst_scanMemory, byStampDesc_oneZone; [|exact Hord].
    intros a b Ha Hb. apply Hz; [apply (Hcut a Ha) | apply (Hcut b Hb)]. }
  unfold selected. destruct (Z.ltb_spec 0 (RecallOptions.Limit opts)) as [Hpos|Hnon].
  - split.
    + intros _. rewrite length_map, length_take, Hlen. reflexivity.
    + intros H. lia.
  - split; [intros H; lia|].
    intros _. apply Permutation_sortDesc.
Qed.

Lemma oneZone_twins : oneZone (memories scenario.twins).
Proof.
  intros a b Ha Hb.
  assert (H : forall r, r ∈ memories scenario.twins -> zone (Memory.UpdatedAt r) = 0).
  { intros r Hr. vm_compute in Hr.
    repeat (apply elem_of_cons in Hr as [->|Hr]; [reflexivity|]).
    apply elem_of_nil in Hr. contradiction. }
  rewrite (H a Ha), (H b Hb). reflexivity.
Qed.

Lemma X16_list_filters_orders_limits_witness :
  let env := scenario.calm "" 9 in
  let opts := RecallOptions.mk 1 (Num 0) [] None [TrustValidated; TrustProposed] "" "" in
  (exists rows,
     ListMemories env scenario.twins opts = (rows, None)
     /\ map Memory.ID rows = [scenario.id2]
     /\ byStampDesc rows /\ newestFirst rows)
  /\ (exists early late,
        ListMemories env scenario.fallBack scenario.defaults = ([early; late], None)
        /\ byStampDesc [early; late]
        /\ unixNano (Memory.UpdatedAt early) < unixNano (Memory.UpdatedAt late)).
Proof.
  intros env opts. subst env opts. split.
  - eexists. split; [vm_compute; reflexivity|].
    split; [reflexivity|].
    pose proof (X16_list_filters_orders_limits (scenario.calm "" 9) scenario.twins
                  (RecallOptions.mk 1 (Num 0) [] None [TrustValidated; TrustProposed] "" "")
                  _ eq_refl) as (sel & _ & _ & H1 & H2 & _).
    split; [exact H1 | exact (H2 oneZone_twins)].
  - eexists. eexists. split; [vm_compute; reflexivity|].
    pose proof (X16_list_filters_orders_limits (scenario.calm "" 9) scenario.fallBack
                  scenario.defaults _ eq_refl) as (sel & _ & _ & H1 & _).
    split; [exact H1 | reflexivity].
Defined.

(** ** VectorSearch *)

Lemma length_insertAsc {A} (key : A -> Q) (x : A) (l : list A) :
  length (insertAsc key x l) = S (length l).
Proof.
  induction l as [|y l IH]; simpl; [reflexivity|].
  destruct (Qle_bool (key x) (key y)); simpl; [reflexivity|]. rewrite IH. reflexivity.
Qed.

Lemma length_sortAsc {A} (key : A -> Q) (l : list A) : length (sortAsc key l) = length l.
Proof.
  induction l as [|x l IH]; simpl; [reflexivity|]. rewrite length_insertAsc, IH. reflexivity.
Qed.

(** X17. [VectorSearch] never returns more hits than its limit, and none for
    a limit of zero or less; every hit is a row of the vector index with the
    distance the index reports for it. So a recall scores at most twice its
    limit of candidates. *)
Theorem X17_vector_search_bounded (env : Env) (d : DB) (queryEmb : list float32) (limit : Z) :
  let hits := fst (VectorSearch env d queryEmb limit) in
  (length hits <= Z.to_nat limit)%nat
  /\ (length hits <= length (vec_memories d))%nat
  /\ (limit <= 0 -> hits = [])
  /\ (forall h, h ∈ hits ->
        exists v, (MemoryID h, v) ∈ vec_memories d /\ Distance h = distance env queryEmb v)
  /\ (forall query opts,
        0 <= limitOf opts <= 2 ^ 62 - 1 ->
        Z.of_nat (length (vecHitsOf env d query opts)) <= 2 * limitOf opts).
Proof.
  intros hits.
  assert (Hgen : forall q k,
            (length (fst (VectorSearch env d q k)) <= Z.to_nat k)%nat).
  { intros q k. unfold VectorSearch. destruct (failure env (KnnMatch k)); simpl; [lia|].
    rewrite length_take. lia. }
  split; [apply Hgen|]. split; [|split; [|split]].
  - subst hits. unfold VectorSearch. destruct (failure env (KnnMatch limit)); simpl; [lia|].
    rewrite length_take.
    rewrite length_sortAsc, length_map. lia.
  - intros Hle. pose proof (Hgen queryEmb limit) as H. fold hits in H.
    destruct hits; [reflexivity|]. simpl in H. lia.
  - intros h Hh. subst hits. unfold VectorSearch in Hh.
    destruct (failure env (KnnMatch limit)); simpl in Hh; [inversion Hh|].
    apply elem_of_take in Hh as (i & Hh & _). apply list_elem_of_lookup_2 in Hh.
    apply elem_of_sortAsc in Hh. apply list_elem_of_fmap in Hh as ([id v] & -> & Hp).
    exists v. split; [exact Hp|reflexivity].
  - intros query opts Hl. unfold vecHitsOf.
    pose proof (Hgen (queryEmbOf env query) (wrap64 (limitOf opts * 2))) as H.
    assert (Hw : wrap64 (limitOf opts * 2) = limitOf opts * 2).
    { unfold wrap64.
      change (2 ^ 62) with 4611686018427387904 in Hl.
      change (2 ^ 63) with 9223372036854775808.
      change (2 ^ 64) with 18446744073709551616.
      rewrite Z.mod_small by lia. lia. }
    rewrite Hw in H |- *. change (2 ^ 62) with 4611686018427387904 in Hl. lia.
Qed.

Lemma X17_vector_search_bounded_witness :
  0 <= limitOf scenario.defaults <= 2 ^ 62 - 1
  /\ Z.of_nat (length (vecHitsOf (scenario.calm "" 9) scenario.twins "apply fix"
                         scenario.defaults)) <= 2 * limitOf scenario.defaults.
Proof.
  assert (H : 0 <= limitOf scenario.defaults <= 2 ^ 62 - 1) by (vm_compute; split; discriminate).
  split; [exact H|].
  exact (proj2 (proj2 (proj2 (proj2 (X17_vector_search_bounded (scenario.calm "" 9)
                                       scenario.twins [] 0))))
           "apply fix" scenario.defaults H).
Defined.

(** ** Embedding serialization: blobs of any length *)

(** X18. [bytesToFloat32] reads whole groups of four bytes and ignores what
    is left over: one to three bytes after the last whole group do not change
    the result. In particular a blob of fewer than four bytes decodes to the
    empty vector. *)
Theorem X18_bytes_tail_ignored (bytes extra : list Z) :
  (length bytes mod 4 = 0)%nat -> (length extra < 4)%nat ->
  bytesToFloat32 (bytes ++ extra) = bytesToFloat32 bytes.
Proof.
  intros Hm He. unfold bytesToFloat32.
  assert (Hk : (length (bytes ++ extra) / 4 = length bytes / 4)%nat).
  { rewrite length_app.
    pose proof (Nat.div_mod_eq (length bytes) 4) as Hd. rewrite Hm, Nat.add_0_r in Hd.
    rewrite Hd at 1. rewrite Nat.mul_comm, Nat.div_add_l by lia.
    rewrite (Nat.div_small (length extra)) by lia. lia. }
  rewrite Hk. apply map_ext_in. intros i Hi. apply in_seq in Hi as [_ Hi]. rewrite Nat.add_0_l in Hi.
  assert (Hlt : (i * 4 + 3 < length bytes)%nat).
  { pose proof (Nat.div_mod_eq (length bytes) 4) as Hd. rewrite Hm in Hd. lia. }
  unfold wordAt, at_. rewrite !lookup_app_l by lia. reflexivity.
Qed.

Lemma X18_bytes_tail_ignored_witness :
  bytesToFloat32 ([0; 0; 128; 63] ++ [1; 2; 3]) = bytesToFloat32 [0; 0; 128; 63]
  /\ bytesToFloat32 [0; 0; 128; 63] = [1065353216]
  /\ bytesToFloat32 ([] ++ [7; 7; 7]) = [].
Proof.
  split; [|split].
  - apply X18_bytes_tail_ignored; simpl; [reflexivity|lia].
  - reflexivity.
  - exact (X18_bytes_tail_ignored [] [7; 7; 7] eq_refl ltac:(simpl; lia)).
Defined.

(** ** The command line: truncate *)

Lemma length_replaceNewlines (s : string) :
  String.length (cli.replaceNewlines s) = String.length s.
Proof. induction s as [|c s IH]; simpl; [reflexivity|]. rewrite IH. reflexivity. Qed.

Lemma chars_replaceNewlines (s : string) :
  Forall (fun c => c <> Ascii.ascii_of_nat 10) (chars (cli.replaceNewlines s)).
Proof.
  induction s as [|c s IH]; simpl; [constructor|]. constructor; [|exact IH].
  destruct (Ascii.eqb_spec c (Ascii.ascii_of_nat 10)) as [E|E]; [discriminate|exact E].
Qed.

Lemma length_substring_prefix (n : nat) (s : string) :
  (n <= String.length s)%nat -> String.length (String.substring 0 n s) = n.
Proof.
  revert n. induction s as [|c s IH]; intros [|n] H; simpl in *; try reflexivity; try lia.
  rewrite IH by lia. reflexivity.
Qed.

Lemma chars_substring_prefix (P : Ascii.ascii -> Prop) (n : nat) (s : string) :
  Forall P (chars s) -> Forall P (chars (String.substring 0 n s)).
Proof.
  revert n. induction s as [|c s IH]; intros [|n] H; simpl in *; try constructor.
  - apply Forall_cons in H as [H _]. exact H.
  - apply IH. apply Forall_cons in H as [_ H]. exact H.
Qed.

Lemma length_string_app (s t : string) :
  String.length (s +:+ t) = (String.length s + String.length t)%nat.
Proof. induction s as [|c s IH]; simpl; [reflexivity|]. rewrite IH. reflexivity. Qed.

Lemma chars_string_app (s t : string) : chars (s +:+ t) = chars s ++ chars t.
Proof. induction s as [|c s IH]; simpl; [reflexivity|]. rewrite IH. reflexivity. Qed.

(** X19. [truncate] with a bound of at least three returns a text with no
    newline and of at most that many bytes: the input with its newlines
    turned into spaces when that fits, and otherwise its first [maxLen - 3]
    bytes followed by three dots, exactly [maxLen] bytes long. With a bound
    below three and a longer input it panics. *)
Theorem X19_truncate_bounded (s : string) (maxLen : Z) :
  (3 <= maxLen ->
     exists r, cli.truncate s maxLen = Returns r
       /\ Z.of_nat (String.length r) <= maxLen
       /\ Forall (fun c => c <> Ascii.ascii_of_nat 10) (chars r)
       /\ (Z.of_nat (String.length s) <= maxLen -> r = cli.replaceNewlines s)
       /\ (maxLen < Z.of_nat (String.length s) ->
             Z.of_nat (String.length r) = maxLen
             /\ r = String.substring 0 (Z.to_nat (maxLen - 3)) (cli.replaceNewlines s)
                    +:+ "..."))
  /\ (maxLen < 3 -> maxLen < Z.of_nat (String.length s) ->
        cli.truncate s maxLen = Panics "slice bounds out of range").
Proof.
  unfold cli.truncate. rewrite length_replaceNewlines. split.
  - intros H3. destruct (Z.leb_spec (Z.of_nat (String.length s)) maxLen) as [Hfit|Hlong].
    + exists (cli.replaceNewlines s). split; [reflexivity|].
      rewrite length_replaceNewlines. split; [exact Hfit|].
      split; [apply chars_replaceNewlines|]. split; [reflexivity|]. lia.
    + destruct (Z.ltb_spec (maxLen - 3) 0) as [Hneg|_]; [lia|].
      eexists. split; [reflexivity|].
      assert (Hlen : String.length
                       (String.substring 0 (Z.to_nat (maxLen - 3)) (cli.replaceNewlines s)
                        +:+ "...") = Z.to_nat maxLen).
      { rewrite length_string_app, length_substring_prefix
          by (rewrite length_replaceNewlines; lia). simpl. lia. }
      split; [rewrite Hlen; lia|]. split.
      * rewrite chars_string_app. apply Forall_app. split.
        -- apply chars_substring_prefix, chars_replaceNewlines.
        -- repeat constructor; discriminate.
      * split; [lia|]. intros _. split; [rewrite Hlen; lia|reflexivity].
  - intros Hsmall Hlong.
    destruct (Z.leb_spec (Z.of_nat (String.length s)) maxLen) as [Hfit|_]; [lia|].
    destruct (Z.ltb_spec (maxLen - 3) 0) as [_|Hge]; [reflexivity|lia].
Qed.

Lemma X19_truncate_bounded_witness :
  cli.truncate "first line
second line" 12 = Returns "first lin..."
  /\ cli.truncate "abc" 2 = Panics "slice bounds out of range".
Proof.
  split.
  - destruct (proj1 (X19_truncate_bounded "first line
second line" 12) ltac:(lia)) as (r & Hr & _ & _ & _ & Hcut).
    rewrite Hr. f_equal. apply Hcut. simpl. lia.
  - apply (proj2 (X19_truncate_bounded "abc" 2)); simpl; lia.
Defined.

(** ** generateID *)

Lemma hex_of_byte (b : Z) :
  is_byte b ->
  is_hex (util.hexDigit (Z.shiftr (byte b) 4)) /\ is_hex (util.hexDigit (Z.land (byte b) 15))
  /\ 16 * hexValue (util.hexDigit (Z.shiftr (byte b) 4))
     + hexValue (util.hexDigit (Z.land (byte b) 15)) = b.
Proof.
  intros Hb.
  assert (Hall : forallb (fun n =>
            let b := Z.of_nat n in
            let hi := Z.to_nat (Z.shiftr (byte b) 4) in
            let lo := Z.to_nat (Z.land (byte b) 15) in
            (hi <? 16)%nat && (lo <? 16)%nat
            && (16 * hexValue (util.hexDigit (Z.shiftr (byte b) 4))
                + hexValue (util.hexDigit (Z.land (byte b) 15)) =? b)) (seq 0 256) = true)
    by (vm_compute; reflexivity).
  rewrite forallb_forall in Hall.
  specialize (Hall (Z.to_nat b)). rewrite Z2Nat.id in Hall by (unfold is_byte in Hb; lia).
  assert (Hin : In (Z.to_nat b) (seq 0 256)) by (apply in_seq; unfold is_byte in Hb; lia).
  apply Hall in Hin. apply andb_true_iff in Hin as [Hin Heq].
  apply andb_true_iff in Hin as [Hhi Hlo].
  apply Nat.ltb_lt in Hhi, Hlo. apply Z.eqb_eq in Heq.
  assert (Hdigit : forall n, (Z.to_nat n < 16)%nat -> is_hex (util.hexDigit n)).
  { intros n Hn. exists (Z.to_nat n). split; [exact Hn|]. unfold util.hexDigit.
    destruct (String.get (Z.to_nat n) util.hextable) eqn:E; [reflexivity|].
    exfalso. revert E Hn. generalize (Z.to_nat n). intros k E Hk.
    do 16 (destruct k as [|k]; [vm_compute in E; discriminate|]). lia. }
  split; [apply Hdigit, Hhi|]. split; [apply Hdigit, Hlo|exact Heq].
Qed.

Lemma Encode_facts (src : list Z) :
  Forall is_byte src ->
  String.length (util.EncodeToString src) = (2 * length src)%nat
  /\ Forall is_hex (chars (util.EncodeToString src))
  /\ DecodeString (util.EncodeToString src) = src.
Proof.
  induction 1 as [|b src Hb Hsrc (IH1 & IH2 & IH3)]; simpl.
  - repeat split; constructor.
  - destruct (hex_of_byte b Hb) as (Hhi & Hlo & Hval). split; [rewrite IH1; lia|]. split.
    + constructor; [exact Hhi|]. constructor; [exact Hlo|exact IH2].
    + rewrite Hval, IH3. reflexivity.
Qed.

(** X20. [generateID] turns the 12 random bytes into 24 characters, each a
    lower-case hexadecimal digit, and two draws of different bytes give
    different ids (the bytes can be read back from the id). *)
Theorem X20_generate_id_is_hex (random random' : list Z) :
  length random = 12%nat -> Forall is_byte random ->
  length random' = 12%nat -> Forall is_byte random' ->
  String.length (util.generateID random) = 24%nat
  /\ Forall is_hex (chars (util.generateID random))
  /\ DecodeString (util.generateID random) = random
  /\ (util.generateID random = util.generateID random' -> random = random').
Proof.
  intros Hl Hb Hl' Hb'. unfold util.generateID.
  rewrite !take_ge by lia.
  destruct (Encode_facts random Hb) as (H1 & H2 & H3).
  destruct (Encode_facts random' Hb') as (_ & _ & H3').
  split; [rewrite H1, Hl; reflexivity|]. split; [exact H2|]. split; [exact H3|].
  intros Heq. rewrite <- H3, <- H3', Heq. reflexivity.
Qed.

Lemma X20_generate_id_is_hex_witness :
  util.generateID [15; 58; 156; 93; 126; 27; 42; 76; 109; 142; 15; 1] = scenario.id1
  /\ String.length scenario.id1 = 24%nat
  /\ DecodeString scenario.id1 = [15; 58; 156; 93; 126; 27; 42; 76; 109; 142; 15; 1].
Proof.
  assert (Hb : Forall is_byte [15; 58; 156; 93; 126; 27; 42; 76; 109; 142; 15; 1])
    by (repeat constructor; unfold is_byte; lia).
  destruct (X20_generate_id_is_hex [15; 58; 156; 93; 126; 27; 42; 76; 109; 142; 15; 1]
              [15; 58; 156; 93; 126; 27; 42; 76; 109; 142; 15; 1] eq_refl Hb eq_refl Hb)
    as (H1 & _ & H3 & _).
  split; [reflexivity|]. split; [exact H1|exact H3].
Defined.

(** ** The command line: validate *)

(** X21. [runValidate] takes [validated] when no level is given, refuses a
    level that is not one of the five before it touches the store, and
    refuses an id that has no record; when it reports success the level is
    one of the five, the record existed and the database is the one
    [Validate] left. *)
Theorem X21_run_validate_checks (env : Env) (getEngine : option error) (d : DB)
    (id : string) (rest : list string) :
  let level := match rest with l :: _ => l | [] => TrustValidated end in
  (level ∉ cli.validLevels ->
     exists msg, cli.runValidate env getEngine d (id :: rest)
                 = Returns (cli.Build_Ran (Some msg) d []))
  /\ (level ∈ cli.validLevels -> getEngine = None -> Get env d id = (None, None) ->
        cli.runValidate env getEngine d (id :: rest)
        = Returns (cli.Build_Ran (Some ("memory not found: " +:+ id)) d []))
  /\ (forall out, cli.runValidate env getEngine d (id :: rest) = Returns out ->
        cli.ran_err out = None ->
        level ∈ cli.validLevels
        /\ (exists m, Get env d id = (Some m, None))
        /\ Validate env d id level = (None, cli.ran_db out)).
Proof.
  intros level. unfold cli.runValidate. fold level.
  destruct (bool_decide_reflect (level ∈ cli.validLevels)) as [Hin|Hnin]; simpl.
  - split; [intros H; contradiction|]. split.
    + intros _ -> ->. reflexivity.
    + intros out. destruct getEngine as [err|]; [intros [= <-]; discriminate|].
      destruct (Get env d id) as [[m|] [e|]]; try (intros [= <-]; discriminate).
      destruct (Validate env d id level) as [[e|] d'] eqn:HV; intros [= <-]; [discriminate|].
      intros _. split; [exact Hin|]. split; [exists m; reflexivity|reflexivity].
  - split; [intros _; eexists; reflexivity|]. split; [intros H; contradiction|].
    intros out [= <-]. discriminate.
Qed.

Lemma X21_run_validate_checks_witness :
  (exists msg, cli.runValidate (scenario.calm "" 9) None scenario.twins
                 [scenario.id1; "trusted"]
               = Returns (cli.Build_Ran (Some msg) scenario.twins []))
  /\ cli.runValidate (scenario.calm "" 9) None scenario.twins [scenario.id3]
     = Returns (cli.Build_Ran (Some ("memory not found: " +:+ scenario.id3)) scenario.twins []).
Proof.
  split.
  - apply (proj1 (X21_run_validate_checks (scenario.calm "" 9) None scenario.twins
                    scenario.id1 ["trusted"])).
    vm_compute. intros H. discriminate.
  - apply (proj1 (proj2 (X21_run_validate_checks (scenario.calm "" 9) None scenario.twins
                           scenario.id3 []))); [|reflexivity|reflexivity].
    vm_compute. reflexivity.
Defined.

(** ** The tool handlers *)

Lemma storedMemory_proposed (env : Env) (d : DB) (content : string) (args : gmap string mcp.JSON) :
  Memory.Trust (storedMemory env d content (mcp.storeOptionsOf args)) = TrustProposed.
Proof.
  unfold storedMemory. destruct (lookupExisting env d (mcp.storeOptionsOf args)); reflexivity.
Qed.

(** X22. [toolStore] refuses a missing, non-string or empty content without
    touching the store. It always passes the trust level [proposed]: whenever
    it reports success, the memory it stored or evolved is [proposed] in the
    database afterwards, also when the topic key found a record that had
    another trust level. *)
Theorem X22_tool_store_always_proposed (env : Env) (d : DB) (args : gmap string mcp.JSON) :
  let content := fst (mcp.asString args "content") in
  let out := mcp.toolStore env d args in
  (content = "" -> out = mcp.Build_Called "Error: content is required" true d [])
  /\ (mcp.called_isError out = false ->
        exists m row,
          stored_memory (Store env d content (mcp.storeOptionsOf args)) = Some m
          /\ Memory.Trust m = TrustProposed
          /\ findMemory (Memory.ID m) (memories (mcp.called_db out)) = Some row
          /\ Memory.Trust row = TrustProposed
          /\ Memory.Content row = content).
Proof.
  intros content out. subst out. unfold mcp.toolStore. fold content. split.
  - intros ->. reflexivity.
  - destruct (String.eqb content ""); [discriminate|].
    destruct (stored_err (Store env d content (mcp.storeOptionsOf args))) as [e|] eqn:He.
    + destruct (stored_memory (Store env d content (mcp.storeOptionsOf args))); discriminate.
    + destruct (Store_memories env d content (mcp.storeOptionsOf args) He) as [Hret Hmem].
      rewrite Hret. simpl. intros _.
      set (m := storedMemory env d content (mcp.storeOptionsOf args)) in *.
      exists m, (upsertedRow m (memories d)).
      destruct (upsertedRow_facts m (memories d)) as (_ & _ & Hc & _ & _ & _ & Ht).
      split; [reflexivity|]. split; [apply storedMemory_proposed|].
      split; [rewrite Hmem; apply find_upsertMemory|].
      split; [rewrite Ht; apply storedMemory_proposed|].
      rewrite Hc. unfold m, storedMemory.
      destruct (lookupExisting env d (mcp.storeOptionsOf args)); reflexivity.
Qed.

Lemma X22_tool_store_always_proposed_witness :
  let args : gmap string mcp.JSON :=
    list_to_map [("content", mcp.JString "v2"); ("topic_key", mcp.JString "t/1")] in
  let out := mcp.toolStore (scenario.calm scenario.id3 9) scenario.twins args in
  mcp.called_isError out = false
  /\ (exists old, findMemory scenario.id2 (memories scenario.twins) = Some old
                  /\ Memory.Trust old = TrustValidated)
  /\ (exists row, findMemory scenario.id2 (memories (mcp.called_db out)) = Some row
                  /\ Memory.Trust row = TrustProposed).
Proof.
  intros args out.
  assert (He : mcp.called_isError out = false) by (vm_compute; reflexivity).
  split; [exact He|]. split; [eexists; split; vm_compute; reflexivity|].
  destruct (proj2 (X22_tool_store_always_proposed (scenario.calm scenario.id3 9)
                     scenario.twins args) He) as (m & row & Hm & _ & Hrow & Ht & _).
  exists row. split; [|exact Ht].
  assert (Hid : Memory.ID m = scenario.id2).
  { vm_compute in Hm. injection Hm as <-. reflexivity. }
  rewrite <- Hid. exact Hrow.
Defined.

Lemma UpdateTrust_absent (env : Env) (d : DB) (id : string) (trust : TrustLevel) :
  findMemory id (memories d) = None -> snd (UpdateTrust env d id trust) = d.
Proof.
  intros Hnone. unfold UpdateTrust. destruct (failure env (UpdateTrustStmt id)); [reflexivity|].
  simpl. rewrite map_setTrust_absent by exact Hnone. apply set_memories_same.
Qed.

Lemma UpdateTrust_present (env : Env) (d : DB) (id : string) (trust : TrustLevel)
    (r : Memory.t) :
  failure env (UpdateTrustStmt id) = None ->
  findMemory id (memories d) = Some r ->
  findMemory id (memories (snd (UpdateTrust env d id trust)))
  = Some (trusted trust (time_Now env) r).
Proof.
  intros Hok Hr. unfold UpdateTrust. rewrite Hok. simpl.
  rewrite findMemory_setTrust, Hr. simpl.
  unfold setTrust, trusted. rewrite (findMemory_ID _ _ _ Hr), String.eqb_refl. reflexivity.
Qed.

(** X23. [toolValidate] checks neither the id nor the level: with a
    non-empty id and an update that does not fail it reports success, having
    set the trust of the record, if there is one, to the string given or to
    [validated] when none is given; on an id that no record has it reports
    success all the same and leaves the database as it was. *)
Theorem X23_tool_validate_unchecked (env env' : Env) (d : DB) (args : gmap string mcp.JSON)
    (id : string) (trust : TrustLevel) :
  fst (mcp.asString args "id") = id ->
  (if snd (mcp.asString args "trust") then fst (mcp.asString args "trust")
   else TrustValidated) = trust ->
  id <> "" ->
  failure env (UpdateTrustStmt id) = None ->
  failure env' (SelectMemory id) = None ->
  mcp.toolValidate env d args
  = mcp.Build_Called ("Updated memory " +:+ id +:+ " trust to: " +:+ trust) false
      (snd (Validate env d id trust)) []
  /\ (findMemory id (memories d) = None -> mcp.called_db (mcp.toolValidate env d args) = d)
  /\ (forall r, findMemory id (memories d) = Some r ->
        Get env' (mcp.called_db (mcp.toolValidate env d args)) id
        = (Some (trusted trust (time_Now env) r), None)).
Proof.
  intros Hargs Htrust Hid Hok Hread. unfold mcp.toolValidate. rewrite Hargs, Htrust.
  destruct (String.eqb_spec id "") as [E|_]; [contradiction|].
  assert (HV : Validate env d id trust = (None, snd (Validate env d id trust))).
  { unfold Validate, UpdateTrust. rewrite Hok. reflexivity. }
  rewrite HV. simpl. split; [reflexivity|]. split.
  - intros Hnone. apply UpdateTrust_absent, Hnone.
  - intros r Hr. unfold Get, GetMemory. rewrite Hread.
    unfold Validate. rewrite (UpdateTrust_present env d id trust r Hok Hr). reflexivity.
Qed.

Lemma X23_tool_validate_unchecked_witness :
  mcp.toolValidate (scenario.calm "" 9) scenario.twins
    (list_to_map [("id", mcp.JString scenario.id3)])
  = mcp.Build_Called ("Updated memory " +:+ scenario.id3 +:+ " trust to: validated") false
      scenario.twins []
  /\ exists r0,
       findMemory scenario.id1 (memories scenario.twins) = Some r0
       /\ Get (scenario.calm "" 9)
            (mcp.called_db (mcp.toolValidate (scenario.calm "" 9) scenario.twins
                              (list_to_map [("id", mcp.JString scenario.id1);
                                            ("trust", mcp.JString "maybe")])))
            scenario.id1
          = (Some (trusted "maybe" (time_Now (scenario.calm "" 9)) r0), None).
Proof.
  split.
  - assert (Ha : fst (mcp.asString (list_to_map [("id", mcp.JString scenario.id3)]) "id")
                 = scenario.id3) by (vm_compute; reflexivity).
    assert (Hb : (if snd (mcp.asString (list_to_map [("id", mcp.JString scenario.id3)])
                            "trust")
                  then fst (mcp.asString (list_to_map [("id", mcp.JString scenario.id3)])
                              "trust")
                  else TrustValidated) = TrustValidated) by (vm_compute; reflexivity).
    assert (Hc : scenario.id3 <> "") by discriminate.
    pose proof (X23_tool_validate_unchecked (scenario.calm "" 9) (scenario.calm "" 9)
                  scenario.twins (list_to_map [("id", mcp.JString scenario.id3)])
                  scenario.id3 TrustValidated Ha Hb Hc eq_refl eq_refl) as (H1 & _ & _).
    etransitivity; [exact H1|]. vm_compute. reflexivity.
  - assert (Ha : fst (mcp.asString (list_to_map [("id", mcp.JString scenario.id1);
                                                 ("trust", mcp.JString "maybe")]) "id")
                 = scenario.id1) by (vm_compute; reflexivity).
    assert (Hb : (if snd (mcp.asString (list_to_map [("id", mcp.JString scenario.id1);
                                                     ("trust", mcp.JString "maybe")]) "trust")
                  then fst (mcp.asString (list_to_map [("id", mcp.JString scenario.id1);
                                                       ("trust", mcp.JString "maybe")])
                              "trust")
                  else TrustValidated) = "maybe") by (vm_compute; reflexivity).
    assert (Hc : scenario.id1 <> "") by discriminate.
    pose proof (X23_tool_validate_unchecked (scenario.calm "" 9) (scenario.calm "" 9)
                  scenario.twins (list_to_map [("id", mcp.JString scenario.id1);
                                               ("trust", mcp.JString "maybe")])
                  scenario.id1 "maybe" Ha Hb Hc eq_refl eq_refl) as (_ & _ & H3).
    eexists. split; [vm_compute; reflexivity|].
    refine (H3 _ _). vm_compute. reflexivity.
Defined.



(** ** Stats *)

Lemma length_upsertMemory (m : Memory.t) (rows : list Memory.t) :
  length (upsertMemory m rows)
  = if existsb (fun r => String.eqb (Memory.ID r) (Memory.ID m)) rows
    then length rows else S (length rows).
Proof.
  rewrite <- (length_map Memory.ID), ids_upsertMemory.
  destruct (existsb _ rows); [apply length_map|].
  rewrite length_app, length_map. simpl. lia.
Qed.

Lemma existsb_of_row (rows : list Memory.t) (r : Memory.t) :
  In r rows -> existsb (fun x => String.eqb (Memory.ID x) (Memory.ID r)) rows = true.
Proof.
  intros H. apply existsb_exists. exists r. split; [exact H|apply String.eqb_refl].
Qed.

Lemma existsb_of_absent (id : string) (rows : list Memory.t) :
  findMemory id rows = None -> existsb (fun x => String.eqb (Memory.ID x) id) rows = false.
Proof.
  unfold findMemory. induction rows as [|x rows IH]; simpl; [reflexivity|].
  destruct (String.eqb (Memory.ID x) id); [discriminate|exact IH].
Qed.

Lemma Stats_memories (d : DB) :
  fst (Stats (fun _ => false) d) !! "memories" = Some (Z.of_nat (length (memories d))).
Proof. reflexivity. Qed.

(** X24. With no count query failing, the number of memories [Stats] reports
    is unchanged by a successful [Store] that finds a record under its topic
    key, and is one more after a successful [Store] that creates a record
    under an id that no record has. *)
Theorem X24_stats_after_store (env : Env) (d : DB) (content : string) (opts : StoreOptions.t)
    (n : Z) :
  let r := Store env d content opts in
  stored_err r = None ->
  fst (Stats (fun _ => false) d) !! "memories" = Some n ->
  (forall existing, lookupExisting env d opts = Some existing ->
     fst (Stats (fun _ => false) (stored_db r)) !! "memories" = Some n)
  /\ (lookupExisting env d opts = None ->
        findMemory (generateID env) (memories d) = None ->
        fst (Stats (fun _ => false) (stored_db r)) !! "memories" = Some (n + 1)).
Proof.
  intros r Herr Hn. subst r. rewrite Stats_memories in Hn. injection Hn as <-.
  destruct (Store_memories env d content opts Herr) as [_ Hmem].
  rewrite !Stats_memories, Hmem, length_upsertMemory. unfold storedMemory. split.
  - intros existing He. rewrite He.
    assert (Hin : exists raw, In raw (memories d) /\ existing = scanMemory raw).
    { unfold lookupExisting, GetMemoryByTopicKey in He.
      destruct (String.eqb (StoreOptions.TopicKey opts) ""); [discriminate|].
      destruct (failure env (SelectMemoryByTopicKey _)); [discriminate|].
      simpl in He.
      destruct (newest (withTopicKey (StoreOptions.TopicKey opts) (memories d)))
        as [raw|] eqn:En; [|discriminate].
      injection He as <-. exists raw. split; [|reflexivity].
      apply newest_In in En. apply List.filter_In in En as [En _]. exact En. }
    destruct Hin as (raw & Hin & ->).
    change (Memory.ID (evolve env (scanMemory raw) content opts)) with (Memory.ID raw).
    rewrite (existsb_of_row _ _ Hin). reflexivity.
  - intros Hnone Hfresh. rewrite Hnone.
    change (Memory.ID (create env content opts)) with (generateID env).
    rewrite (existsb_of_absent _ _ Hfresh). f_equal. lia.
Qed.

Lemma X24_stats_after_store_witness :
  fst (Stats (fun _ => false) scenario.twins) !! "memories" = Some 2
  /\ fst (Stats (fun _ => false)
            (stored_db (Store (scenario.calm scenario.id3 9) scenario.twins "v2"
                          (scenario.plain "t/1")))) !! "memories" = Some 2
  /\ fst (Stats (fun _ => false)
            (stored_db (Store (scenario.calm scenario.id3 9) scenario.twins "v2"
                          (scenario.plain "t/2")))) !! "memories" = Some (2 + 1).
Proof.
  assert (Hn : fst (Stats (fun _ => false) scenario.twins) !! "memories" = Some 2)
    by (vm_compute; reflexivity).
  assert (He1 : stored_err (Store (scenario.calm scenario.id3 9) scenario.twins "v2"
                              (scenario.plain "t/1")) = None) by (vm_compute; reflexivity).
  assert (He2 : stored_err (Store (scenario.calm scenario.id3 9) scenario.twins "v2"
                              (scenario.plain "t/2")) = None) by (vm_compute; reflexivity).
  assert (Hl2 : lookupExisting (scenario.calm scenario.id3 9) scenario.twins
                  (scenario.plain "t/2") = None) by (vm_compute; reflexivity).
  assert (Hf2 : findMemory (generateID (scenario.calm scenario.id3 9))
                  (memories scenario.twins) = None) by (vm_compute; reflexivity).
  pose proof (X24_stats_after_store (scenario.calm scenario.id3 9) scenario.twins "v2"
                (scenario.plain "t/1") 2 He1 Hn) as [H1 _].
  pose proof (X24_stats_after_store (scenario.calm scenario.id3 9) scenario.twins "v2"
                (scenario.plain "t/2") 2 He2 Hn) as [_ H2].
  split; [exact Hn|]. split; [|exact (H2 Hl2 Hf2)].
  refine (H1 _ _). vm_compute. reflexivity.
Defined.

(** ** Store: what an evolution keeps, and the embedding *)

(** The record a lookup by topic key returns has been read by [scanMemory]. *)
Lemma lookupExisting_scanned (env : Env) (d : DB) (opts : StoreOptions.t)
    (existing : Memory.t) :
  lookupExisting env d opts = Some existing -> scanMemory existing = existing.
Proof.
  unfold lookupExisting, GetMemoryByTopicKey.
  destruct (String.eqb (StoreOptions.TopicKey opts) ""); [discriminate|].
  destruct (failure env (SelectMemoryByTopicKey _)); [discriminate|]. simpl.
  destruct (newest _) as [raw|]; [|discriminate].
  intros [= <-]. apply scanMemory_idem.
Qed.

(** X25. When [Store] finds a record under the topic key, the source, the
    project and the extra data of the options are not used: the record
    stored afterwards under that id has the metadata, the access count and
    the topic key of the record found, and so has the memory returned. *)
Theorem X25_evolution_keeps_metadata (env : Env) (d : DB) (content : string)
    (opts : StoreOptions.t) (existing : Memory.t) :
  let r := Store env d content opts in
  lookupExisting env d opts = Some existing ->
  stored_err r = None ->
  exists m row,
    stored_memory r = Some m
    /\ Memory.ID m = Memory.ID existing
    /\ findMemory (Memory.ID existing) (memories (stored_db r)) = Some row
    /\ Memory.Metadata m = Memory.Metadata existing
    /\ Memory.Metadata row = Memory.Metadata existing
    /\ Memory.AccessCnt row = Memory.AccessCnt existing
    /\ Memory.TopicKey row = Memory.TopicKey existing.
Proof.
  intros r Hex Herr. subst r.
  destruct (Store_memories env d content opts Herr) as [Hret Hmem].
  assert (Hm : storedMemory env d content opts = evolve env existing content opts).
  { unfold storedMemory. rewrite Hex. reflexivity. }
  rewrite Hm in Hret, Hmem.
  exists (evolve env existing content opts),
         (upsertedRow (evolve env existing content opts) (memories d)).
  split; [exact Hret|]. split; [reflexivity|]. split.
  { rewrite Hmem. apply (find_upsertMemory (evolve env existing content opts)). }
  assert (Hmeta : jsonMetadata (Memory.Metadata existing) = Memory.Metadata existing).
  { exact (f_equal Memory.Metadata (lookupExisting_scanned env d opts existing Hex)). }
  split; [reflexivity|]. unfold upsertedRow.
  destruct (findMemory _ (memories d)); simpl; repeat split; exact Hmeta.
Qed.

Lemma X25_evolution_keeps_metadata_witness :
  let opts := StoreOptions.mk "t/1" None "" "" "other-project" "agent:mcp" ∅ in
  exists existing row,
    lookupExisting (scenario.calm scenario.id3 9) scenario.twins opts = Some existing
    /\ findMemory (Memory.ID existing)
         (memories (stored_db (Store (scenario.calm scenario.id3 9) scenario.twins "v2" opts)))
       = Some row
    /\ Memory.Metadata row = Memory.Metadata existing
    /\ Metadata.Source (Memory.Metadata row) = "cli".
Proof.
  intros opts. subst opts.
  assert (He : stored_err (Store (scenario.calm scenario.id3 9) scenario.twins "v2"
                 (StoreOptions.mk "t/1" None "" "" "other-project" "agent:mcp" ∅)) = None)
    by (vm_compute; reflexivity).
  assert (Hl : exists existing,
             lookupExisting (scenario.calm scenario.id3 9) scenario.twins
               (StoreOptions.mk "t/1" None "" "" "other-project" "agent:mcp" ∅)
             = Some existing /\ Metadata.Source (Memory.Metadata existing) = "cli")
    by (eexists; split; vm_compute; reflexivity).
  destruct Hl as (existing & Hl & Hsrc).
  pose proof (X25_evolution_keeps_metadata (scenario.calm scenario.id3 9) scenario.twins "v2"
                (StoreOptions.mk "t/1" None "" "" "other-project" "agent:mcp" ∅)
                existing Hl He) as (m & row & _ & _ & Hrow & _ & Hmeta & _).
  exists existing, row.
  split; [exact Hl|]. split; [exact Hrow|]. split; [exact Hmeta|].
  rewrite Hmeta. exact Hsrc.
Defined.

Lemma SaveEmbedding_cache (env : Env) (d d' : DB) (memoryID : string) (v : list float32)
    (model : string) :
  SaveEmbedding env d memoryID v model = (None, d') ->
  List.find (fun r => String.eqb (emb_memory_id r) memoryID) (embeddings d')
  = Some {| emb_memory_id := memoryID; emb_embedding := float32ToBytes v;
            emb_model := model; emb_created_at := RFC3339 (time_Now env) |}.
Proof.
  unfold SaveEmbedding. destruct (failure env (UpsertEmbedding memoryID)); [discriminate|].
  destruct (foreign_keys d && negb (hasMemory d memoryID)); [discriminate|].
  intros H. apply (f_equal snd) in H. simpl in H.
  rewrite <- H, embeddings_insertVec. simpl. apply find_upsertEmbedding. reflexivity.
Qed.

Lemma SaveEmbedding_index (env : Env) (d d' : DB) (memoryID : string) (v : list float32)
    (model : string) :
  SaveEmbedding env d memoryID v model = (None, d') ->
  List.filter (fun p => String.eqb (fst p) memoryID) (vec_memories d') = [(memoryID, v)].
Proof.
  unfold SaveEmbedding. destruct (failure env (UpsertEmbedding memoryID)); [discriminate|].
  destruct (foreign_keys d && negb (hasMemory d memoryID)); [discriminate|].
  unfold insertVec. destruct (failure env (InsertVec memoryID)); [discriminate|].
  match goal with |- context [existsb ?f ?l] => destruct (existsb f l) eqn:Hex end;
    [discriminate|].
  intros [= <-]. simpl. rewrite List.filter_app. simpl.
  rewrite String.eqb_refl, (filter_existsb_false _ _ Hex). reflexivity.
Qed.

(** X26. After a [Store] that succeeds and writes no warning, the embedding
    of the content just stored is the one the cache returns for the record,
    under the provider's model, and the one row the vector index has for
    it: a store on an existing topic key replaces the vector of the old
    content. *)
Theorem X26_store_refreshes_embedding (env env' : Env) (d : DB) (content : string)
    (opts : StoreOptions.t) :
  let r := Store env d content opts in
  let id := Memory.ID (storedMemory env d content opts) in
  let v := fst (Embed env content) in
  stored_err r = None ->
  stored_stderr r = [] ->
  Forall is_float32 v ->
  failure env' (SelectEmbedding id) = None ->
  GetEmbedding env' (stored_db r) id = (Some v, None)
  /\ List.filter (fun p => String.eqb (fst p) id) (vec_memories (stored_db r)) = [(id, v)]
  /\ emb_model <$> List.find (fun e => String.eqb (emb_memory_id e) id)
                             (embeddings (stored_db r)) = Some (Model env).
Proof.
  intros r id v. subst r id v. unfold Store, SaveMemory.
  destruct (failure env (UpsertMemory _)); simpl; [discriminate|]. intros _.
  destruct (Embed env content) as [embedding [e|]]; simpl; [discriminate|].
  match goal with
  | |- context [SaveEmbedding env ?d1 ?id ?v ?model] =>
      destruct (SaveEmbedding env d1 id v model) as [[e|] d2] eqn:HS
  end; simpl; [discriminate|].
  intros _ Hv Hread.
  pose proof (SaveEmbedding_cache _ _ _ _ _ _ HS) as Hc.
  pose proof (SaveEmbedding_index _ _ _ _ _ _ HS) as Hi.
  split; [|split; [exact Hi|rewrite Hc; reflexivity]].
  unfold GetEmbedding. rewrite Hread, Hc. simpl.
  rewrite bytes_roundtrip by exact Hv. reflexivity.
Qed.

Lemma X26_store_refreshes_embedding_witness :
  let env := scenario.calm scenario.id3 9 in
  let r := Store env scenario.twins "longer content" (scenario.plain "t/1") in
  let id := Memory.ID (storedMemory env scenario.twins "longer content" (scenario.plain "t/1")) in
  In (scenario.id2, [9]) (vec_memories scenario.twins)
  /\ id = scenario.id2
  /\ fst (Embed env "longer content") = [14]
  /\ stored_err r = None /\ stored_stderr r = []
  /\ GetEmbedding env (stored_db r) id = (Some (fst (Embed env "longer content")), None)
  /\ List.filter (fun p => String.eqb (fst p) id) (vec_memories (stored_db r))
     = [(id, fst (Embed env "longer content"))].
Proof.
  intros env r id.
  assert (He : stored_err r = None) by (vm_compute; reflexivity).
  assert (Hs : stored_stderr r = []) by (vm_compute; reflexivity).
  assert (Hv : Forall is_float32 (fst (Embed env "longer content"))).
  { change (Forall is_float32 [14]). repeat constructor; unfold is_float32; lia. }
  assert (Hf : failure env (SelectEmbedding id) = None) by reflexivity.
  pose proof (X26_store_refreshes_embedding env env scenario.twins "longer content"
                (scenario.plain "t/1") He Hs Hv Hf) as (H1 & H2 & _).
  split; [right; left; reflexivity|]. split; [vm_compute; reflexivity|].
  split; [reflexivity|]. split; [exact He|]. split; [exact Hs|]. split.
  - exact H1.
  - exact H2.
Defined.

(** X27. When the provider fails, a successful [Store] leaves the embedding
    cache and the vector index exactly as they were: a record evolved under
    its topic key then keeps the vector of its previous content. *)
Theorem X27_provider_failure_keeps_vectors (env : Env) (d : DB) (content : string)
    (opts : StoreOptions.t) (e : error) :
  let r := Store env d content opts in
  snd (Embed env content) = Some e ->
  stored_err r = None ->
  embeddings (stored_db r) = embeddings d
  /\ vec_memories (stored_db r) = vec_memories d
  /\ relations (stored_db r) = relations d.
Proof.
  intros r Hemb Herr. subst r. revert Herr. unfold Store, SaveMemory.
  destruct (failure env (UpsertMemory _)); simpl; [discriminate|]. intros _.
  destruct (Embed env content) as [embedding [e'|]]; simpl in *; [|discriminate].
  repeat split.
Qed.

Lemma X27_provider_failure_keeps_vectors_witness :
  let r := Store (scenario.providerDown scenario.id3 9) scenario.twins "longer content"
             (scenario.plain "t/1") in
  stored_err r = None
  /\ (exists row, findMemory scenario.id2 (memories (stored_db r)) = Some row
                  /\ Memory.Content row = "longer content")
  /\ vec_memories (stored_db r) = vec_memories scenario.twins.
Proof.
  intros r. subst r.
  assert (He : stored_err (Store (scenario.providerDown scenario.id3 9) scenario.twins
                             "longer content" (scenario.plain "t/1")) = None)
    by (vm_compute; reflexivity).
  pose proof (X27_provider_failure_keeps_vectors (scenario.providerDown scenario.id3 9)
                scenario.twins "longer content" (scenario.plain "t/1") "connection refused"
                eq_refl He) as (_ & H2 & _).
  split; [exact He|]. split; [eexists; split; vm_compute; reflexivity|exact H2].
Defined.

(** ** Construction of the Engine *)

(** X28. [New] returns an engine exactly when it returns no error, and only
    for the provider "openai" (or none named) with a non-empty key; for
    "ollama" and for any other name it fails. On every failure after the
    database was opened, the database is closed again; on success it is left
    open. *)
Theorem X28_engine_construction (dirOf : string -> string) (mkdirErr openErr : option error)
    (cfg : engine.Config) :
  let out := engine.New dirOf mkdirErr openErr cfg in
  let eng := fst (fst out) in
  let err := snd (fst out) in
  (eng = None <-> err <> None)
  /\ (err <> None -> engine.stillOpen (snd out) [] = [])
  /\ (eng <> None ->
        mkdirErr = None /\ openErr = None
        /\ (engine.EmbeddingProvider cfg = "openai" \/ engine.EmbeddingProvider cfg = "")
        /\ engine.OpenAIKey cfg <> ""
        /\ engine.stillOpen (snd out) [] = [engine.DBPath cfg]
        /\ (engine.engine_db <$> eng) = Some (db.New (engine.DBPath cfg)))
  /\ (engine.EmbeddingProvider cfg = "ollama" -> eng = None).
Proof.
  intros out eng err. subst out eng err. unfold engine.New.
  destruct mkdirErr as [e1|]; [simpl; repeat split; try congruence; try discriminate;
                               try (intros H; contradiction)|].
  destruct openErr as [e2|]; [simpl; repeat split; try congruence; try discriminate;
                              try (intros H; contradiction)|].
  destruct (String.eqb_spec (engine.EmbeddingProvider cfg) "openai") as [Ep|Ep];
    [|destruct (String.eqb_spec (engine.EmbeddingProvider cfg) "") as [Ee|Ee]]; simpl.
  1,2: destruct (String.eqb_spec (engine.OpenAIKey cfg) "") as [Ek|Ek]; simpl;
    rewrite ?String.eqb_refl; simpl.
  all: try (destruct (String.eqb_spec (engine.EmbeddingProvider cfg) "ollama") as [Eo|Eo]; simpl;
            rewrite ?String.eqb_refl; simpl).
  all: repeat split; try congruence; try discriminate; try (intros H; contradiction);
    try (intros H; exfalso; apply H; reflexivity); auto.
Qed.

Lemma X28_engine_construction_witness :
  let cfg := engine.Build_Config ".cortex/cortex.db" "ollama" "" "http://localhost:11434"
               "nomic-embed-text" "" in
  let out := engine.New (fun _ => ".cortex") None None cfg in
  fst out = (None, Some "ollama provider not yet implemented")
  /\ snd out = [engine.MkdirAll ".cortex"; engine.Open ".cortex/cortex.db";
                engine.Close ".cortex/cortex.db"]
  /\ engine.stillOpen (snd out) [] = [].
Proof.
  intros cfg out.
  pose proof (X28_engine_construction (fun _ => ".cortex") None None cfg)
    as (_ & Hclosed & _ & _).
  split; [reflexivity|]. split; [reflexivity|].
  apply Hclosed. discriminate.
Defined.
